(** * Desksong: the audio engine, its transport clock and the WAV export

    A shallow embedding of the renderer's JavaScript
    ([src/renderer/js/audio-engine.js], [src/renderer/js/app.js] and the
    [AdvancedAudioEngine] class) together with the properties the
    specification states about it.

    Conventions of the embedding:
    - JavaScript numbers are exact rationals ([Q]) where the source computes
      with fractions (times, gains, samples) and integers ([Z]) where it
      counts (bytes, channels, frames).  Equalities between rationals are
      stated with [==].  NaN and the infinities have no counterpart: a
      division by zero is 0 here, and the statements that divide assume a
      positive playback rate.
    - A function that can throw returns a [Completion]; a method that also
      assigns fields of [this] is a [Js] computation over the record of
      those fields, and [try { } catch { }] is [js_try].
    - The browser's Web Audio objects ([AudioParam], [AudioBufferSourceNode],
      [DataView]) are modelled in [WebAudio] and [DataView] after the
      behaviour the source relies on. *)

From Stdlib Require Import ZArith QArith Qminmax Lia Lqa String Ascii.
From Stdlib Require Import Qround.
From stdpp Require Import base list strings gmap functions.

Open Scope Z_scope.

(** ** Completions: normal return, a thrown error, or a loop out of fuel *)

Inductive JsError : Type :=
| RangeError
| TypeError
| IndexSizeError
| InvalidStateError
| EncodingError
| GenericError (message : string).

Inductive Completion (A : Type) : Type :=
| Normal (a : A)
| Throw (e : JsError)
| OutOfFuel.

Arguments Normal {A} a.
Arguments Throw {A} e.
Arguments OutOfFuel {A}.

#[global] Instance completion_ret : MRet Completion := fun A a => Normal a.

#[global] Instance completion_bind : MBind Completion :=
  fun A B f m =>
    match m with
    | Normal a => f a
    | Throw e => Throw e
    | OutOfFuel => OutOfFuel
    end.

(** [for (let i = start; i < start + n; i++) body], the body not assigning [i]. *)
Fixpoint for_range {S : Type} (n : nat) (i : Z) (body : Z -> S -> Completion S) (s : S)
  : Completion S :=
  match n with
  | O => Normal s
  | Datatypes.S n' => s' ← body i s; for_range n' (i + 1) body s'
  end.

(** ** Numbers *)

(** ECMAScript's integer part of a finite number: truncation toward zero. *)
Definition ToIntegerQ (x : Q) : Z := Z.quot (Qnum x) (Z.pos (Qden x)).

Definition ToUint16 (n : Z) : Z := n `mod` 65536.
Definition ToUint32 (n : Z) : Z := n `mod` 4294967296.

(** [Math.min] and [Math.max] on finite numbers are [Qmin] and [Qmax]. *)

(** ** DataView over a fresh ArrayBuffer *)

Module DataView.

(** The bytes of the underlying buffer, each in [0, 255]. *)
Definition t : Type := list Z.

(** [new ArrayBuffer(length)]: zero filled. *)
Definition create (length : Z) : Completion t :=
  if bool_decide (0 <= length) then Normal (replicate (Z.to_nat length) 0)
  else Throw RangeError.

Definition byteLength (v : t) : Z := Z.of_nat (length v).

Fixpoint poke (v : t) (i : nat) (bs : list Z) : t :=
  match bs with
  | [] => v
  | b :: bs' => poke (<[i := b]> v) (S i) bs'
  end.

(** A store of [bs] at [byteOffset]: a RangeError, and no write at all,
    unless every byte is inside the view. *)
Definition store (v : t) (byteOffset : Z) (bs : list Z) : Completion t :=
  if bool_decide (0 <= byteOffset /\ byteOffset + Z.of_nat (length bs) <= byteLength v)
  then Normal (poke v (Z.to_nat byteOffset) bs)
  else Throw RangeError.

Definition bytes16 (littleEndian : bool) (n : Z) : list Z :=
  let lo := Z.land n 255 in
  let hi := Z.land (Z.shiftr n 8) 255 in
  if littleEndian then [lo; hi] else [hi; lo].

Definition bytes32 (littleEndian : bool) (n : Z) : list Z :=
  let b0 := Z.land n 255 in
  let b1 := Z.land (Z.shiftr n 8) 255 in
  let b2 := Z.land (Z.shiftr n 16) 255 in
  let b3 := Z.land (Z.shiftr n 24) 255 in
  if littleEndian then [b0; b1; b2; b3] else [b3; b2; b1; b0].

Definition setUint16 (v : t) (byteOffset : Z) (value : Z) (littleEndian : bool) :=
  store v byteOffset (bytes16 littleEndian (ToUint16 value)).

Definition setUint32 (v : t) (byteOffset : Z) (value : Z) (littleEndian : bool) :=
  store v byteOffset (bytes32 littleEndian (ToUint32 value)).

(** [setInt16] takes a number: its integer part modulo 2^16, stored in
    two's complement. *)
Definition setInt16 (v : t) (byteOffset : Z) (value : Q) (littleEndian : bool) :=
  store v byteOffset (bytes16 littleEndian (ToUint16 (ToIntegerQ value))).

End DataView.

(** ** Decoded audio *)

(** [AudioBuffer]: [buf_length] is the source's [length] (sample frames per
    channel); [channelData] holds what [getChannelData(i)] returns. *)
Record AudioBuffer : Type := {
  numberOfChannels : Z;
  buf_length : Z;
  sampleRate : Z;
  channelData : list (list Q)
}.

Definition duration (b : AudioBuffer) : Q :=
  inject_Z (buf_length b) / inject_Z (sampleRate b).

Definition getChannelData (b : AudioBuffer) (channel : Z) : Completion (list Q) :=
  if bool_decide (0 <= channel < numberOfChannels b) then
    match channelData b !! Z.to_nat channel with
    | Some samples => Normal samples
    | None => Throw IndexSizeError
    end
  else Throw IndexSizeError.

(** A buffer as the decoder or the offline renderer hands it over. *)
Definition wf_buffer (b : AudioBuffer) : Prop :=
  0 <= numberOfChannels b /\ 0 <= buf_length b /\
  Z.of_nat (length (channelData b)) = numberOfChannels b /\
  Forall (fun ch => Z.of_nat (length ch) = buf_length b) (channelData b).

(** ** [DeskSongApp.audioBufferToWav] (app.js) *)

Module Wav.

(** The closure state of [audioBufferToWav]: the view and [pos]. *)
Record Cursor : Type := { view : DataView.t; pos : Z }.

Definition setUint16 (data : Z) (c : Cursor) : Completion Cursor :=
  v ← DataView.setUint16 (view c) (pos c) data true;
  mret {| view := v; pos := pos c + 2 |}.

Definition setUint32 (data : Z) (c : Cursor) : Completion Cursor :=
  v ← DataView.setUint32 (view c) (pos c) data true;
  mret {| view := v; pos := pos c + 4 |}.

(** [channels[i][offset]]; a read past the end of a typed array is
    [undefined], which [Math.min]/[Math.max] turn into NaN and [setInt16]
    stores as 0, the same bytes as for a sample 0. *)
Definition sampleAt (channels : list (list Q)) (i offset : Z) : Completion Q :=
  match channels !! Z.to_nat i with
  | Some ch => Normal (default 0%Q (ch !! Z.to_nat offset))
  | None => Throw TypeError
  end.

(** The body of the inner [for]: one sample of channel [i]. *)
Definition writeSample (channels : list (list Q)) (offset : Z) (i : Z) (c : Cursor)
  : Completion Cursor :=
  x ← sampleAt channels i offset;
  let sample := Qmax (-1) (Qmin 1 x) in
  let sample := if Qlt_le_dec sample 0 then (sample * 32768)%Q else (sample * 32767)%Q in
  v ← DataView.setInt16 (view c) (pos c) sample true;
  mret {| view := v; pos := pos c + 2 |}.

(** [while (pos < length) { for (...) {...}; offset++ }] *)
Fixpoint writeFrames (fuel : nat) (length : Z) (b : AudioBuffer)
    (channels : list (list Q)) (offset : Z) (c : Cursor) : Completion Cursor :=
  if bool_decide (pos c < length) then
    match fuel with
    | O => OutOfFuel
    | S fuel' =>
        c' ← for_range (Z.to_nat (numberOfChannels b)) 0 (writeSample channels offset) c;
        writeFrames fuel' length b channels (offset + 1) c'
    end
  else Normal c.

Definition audioBufferToWav (fuel : nat) (buffer : AudioBuffer) : Completion DataView.t :=
  let length := buf_length buffer * numberOfChannels buffer * 2 + 44 in
  arrayBuffer ← DataView.create length;
  let c := {| view := arrayBuffer; pos := 0 |} in
  (* RIFF identifier *)
  c ← setUint32 0x46464952 c;
  c ← setUint32 (length - 8) c;
  c ← setUint32 0x45564157 c;
  (* Format chunk *)
  c ← setUint32 0x20746d66 c;
  c ← setUint32 16 c;
  c ← setUint16 1 c;
  c ← setUint16 (numberOfChannels buffer) c;
  c ← setUint32 (sampleRate buffer) c;
  c ← setUint32 (sampleRate buffer * 2 * numberOfChannels buffer) c;
  c ← setUint16 (numberOfChannels buffer * 2) c;
  c ← setUint16 16 c;
  (* Data chunk *)
  c ← setUint32 0x61746164 c;
  c ← setUint32 (length - pos c - 4) c;
  (* Write interleaved data *)
  channels ← for_range (Z.to_nat (numberOfChannels buffer)) 0
               (fun i channels => d ← getChannelData buffer i; mret (channels ++ [d])) [];
  c ← writeFrames fuel length buffer channels 0 c;
  mret (view c).

(** *** The container layout the export is specified to have *)

(** [k] bytes of [v], least significant first. *)
Fixpoint le_bytes (k : nat) (v : Z) : list Z :=
  match k with
  | O => []
  | S k' => v `mod` 256 :: le_bytes k' (v / 256)
  end.

Fixpoint le_value (bs : list Z) : Z :=
  match bs with
  | [] => 0
  | b :: bs' => b + 256 * le_value bs'
  end.

Definition ascii_bytes (s : string) : list Z :=
  map (fun a => Z.of_nat (nat_of_ascii a)) (list_ascii_of_string s).

(** A sample as signed 16-bit PCM: clamp to [-1, 1], scale negative values
    by 32768 and the others by 32767, drop the fraction. *)
Definition pcm16 (x : Q) : Z :=
  let s := Qmax (-1) (Qmin 1 x) in
  ToIntegerQ (if Qlt_le_dec s 0 then s * 32768 else s * 32767)%Q.

Definition frame_bytes (chans : list (list Q)) (offset : nat) : list Z :=
  flat_map (fun ch => le_bytes 2 (pcm16 (nth offset ch 0%Q))) chans.

Definition interleaved (chans : list (list Q)) (frames : nat) : list Z :=
  flat_map (frame_bytes chans) (seq 0 frames).

Definition wav_header (C R N : Z) : list Z :=
  ascii_bytes "RIFF" ++ le_bytes 4 (N * C * 2 + 44 - 8) ++ ascii_bytes "WAVE" ++
  ascii_bytes "fmt " ++ le_bytes 4 16 ++ le_bytes 2 1 ++ le_bytes 2 C ++
  le_bytes 4 R ++ le_bytes 4 (R * 2 * C) ++ le_bytes 2 (C * 2) ++ le_bytes 2 16 ++
  ascii_bytes "data" ++ le_bytes 4 (N * C * 2).

Definition wav_container (b : AudioBuffer) : list Z :=
  wav_header (numberOfChannels b) (sampleRate b) (buf_length b) ++
  interleaved (channelData b) (Z.to_nat (buf_length b)).

End Wav.

(** ** Methods that read and assign [this]: state and completion *)

Definition Js (S A : Type) : Type := S -> Completion A * S.

#[global] Instance js_ret {S} : MRet (Js S) := fun A a s => (Normal a, s).

#[global] Instance js_bind {S} : MBind (Js S) :=
  fun A B k m s =>
    match m s with
    | (Normal a, s') => k a s'
    | (Throw e, s') => (Throw e, s')
    | (OutOfFuel, s') => (OutOfFuel, s')
    end.

Definition js_throw {S A} (err : JsError) : Js S A := fun s => (Throw err, s).
Definition js_get {S} : Js S S := fun s => (Normal s, s).
Definition js_modify {S} (f : S -> S) : Js S unit := fun s => (Normal tt, f s).

(** [try { body } catch (e) { handler }]: what [body] assigned before it
    threw stays assigned. *)
Definition js_try {S A} (body : Js S A) (handler : JsError -> Js S A) : Js S A :=
  fun s =>
    match body s with
    | (Throw e, s') => handler e s'
    | other => other
    end.

(** A completion computed outside [this], lifted. *)
Definition js_lift {S A} (c : Completion A) : Js S A := fun s => (c, s).

(** ** Web Audio objects *)

Module WebAudio.

(** *** AudioParam

    The automation timeline of a parameter.  [value] is the slot the
    [.value] getter reads: what the last rendering computed, at
    [contextTime].  The scheduling methods only edit [events]; [render]
    is the audio thread reaching a later time. *)

Inductive AutomationEvent : Type :=
| SetValueAtTime (v : Q) (startTime : Q)
| LinearRampToValueAtTime (v : Q) (endTime : Q).

Definition eventTime (ev : AutomationEvent) : Q :=
  match ev with
  | SetValueAtTime _ t => t
  | LinearRampToValueAtTime _ t => t
  end.

Record AudioParam : Type := {
  value : Q;
  contextTime : Q;
  events : list AutomationEvent
}.

(** A parameter of a node just created, at its default value. *)
Definition newParam (defaultValue now : Q) : AudioParam :=
  {| value := defaultValue; contextTime := now; events := [] |}.

(** Events are kept in time order; a new one goes after those of the same
    time. *)
Fixpoint insertEvent (ev : AutomationEvent) (evs : list AutomationEvent)
  : list AutomationEvent :=
  match evs with
  | [] => [ev]
  | ev' :: rest =>
      if Qlt_le_dec (eventTime ev) (eventTime ev') then ev :: evs
      else ev' :: insertEvent ev rest
  end.

Definition setValueAtTime (v startTime : Q) (p : AudioParam) : AudioParam :=
  {| value := value p; contextTime := contextTime p;
     events := insertEvent (SetValueAtTime v startTime) (events p) |}.

Definition linearRampToValueAtTime (v endTime : Q) (p : AudioParam) : AudioParam :=
  {| value := value p; contextTime := contextTime p;
     events := insertEvent (LinearRampToValueAtTime v endTime) (events p) |}.

(** Removes the events at or after [cancelTime]. *)
Definition cancelScheduledValues (cancelTime : Q) (p : AudioParam) : AudioParam :=
  {| value := value p; contextTime := contextTime p;
     events := List.filter (fun ev => if Qlt_le_dec (eventTime ev) cancelTime
                                      then true else false) (events p) |}.

(** [param.value = v]: assigns the slot and schedules the value at the
    context's current time. *)
Definition setValue (v : Q) (p : AudioParam) : AudioParam :=
  {| value := v; contextTime := contextTime p;
     events := insertEvent (SetValueAtTime v (contextTime p)) (events p) |}.

(** The value the timeline gives at [t], walking the events from the one
    before: a set-value holds from its time on, a ramp interpolates from
    the previous event to its end and holds after. *)
Fixpoint timeline (prevTime prevValue : Q) (evs : list AutomationEvent) (t : Q) : Q :=
  match evs with
  | [] => prevValue
  | SetValueAtTime v T :: rest =>
      if Qlt_le_dec t T then prevValue else timeline T v rest t
  | LinearRampToValueAtTime v T :: rest =>
      if Qlt_le_dec t T
      then (prevValue + (v - prevValue) * ((t - prevTime) / (T - prevTime)))%Q
      else timeline T v rest t
  end.

Definition valueAtTime (p : AudioParam) (t : Q) : Q :=
  timeline (contextTime p) (value p) (events p) t.

Definition render (t : Q) (p : AudioParam) : AudioParam :=
  {| value := valueAtTime p t; contextTime := t; events := events p |}.

(** *** AudioBufferSourceNode *)

Record AudioBufferSourceNode : Type := {
  buffer : option AudioBuffer;
  playbackRate : AudioParam;
  detune : AudioParam;
  startedAt : option Q;         (* the offset given to [start], once called *)
  stopped : bool
}.

Definition createBufferSource (now : Q) : AudioBufferSourceNode :=
  {| buffer := None; playbackRate := newParam 1 now; detune := newParam 0 now;
     startedAt := None; stopped := false |}.

Definition src_set_buffer (b : AudioBuffer) (s : AudioBufferSourceNode) :=
  {| buffer := Some b; playbackRate := playbackRate s; detune := detune s;
     startedAt := startedAt s; stopped := stopped s |}.

Definition src_set_playbackRate (p : AudioParam) (s : AudioBufferSourceNode) :=
  {| buffer := buffer s; playbackRate := p; detune := detune s;
     startedAt := startedAt s; stopped := stopped s |}.

Definition src_set_detune (p : AudioParam) (s : AudioBufferSourceNode) :=
  {| buffer := buffer s; playbackRate := playbackRate s; detune := p;
     startedAt := startedAt s; stopped := stopped s |}.

(** [start(when, offset)]: a second call is an InvalidStateError, a
    negative offset a RangeError. *)
Definition start (offset : Q) (s : AudioBufferSourceNode)
  : Completion AudioBufferSourceNode :=
  match startedAt s with
  | Some _ => Throw InvalidStateError
  | None =>
      if Qlt_le_dec offset 0 then Throw RangeError
      else Normal {| buffer := buffer s; playbackRate := playbackRate s;
                     detune := detune s; startedAt := Some offset;
                     stopped := stopped s |}
  end.

(** [stop()] before [start()] is an InvalidStateError. *)
Definition stop (s : AudioBufferSourceNode) : Completion AudioBufferSourceNode :=
  match startedAt s with
  | None => Throw InvalidStateError
  | Some _ => Normal {| buffer := buffer s; playbackRate := playbackRate s;
                        detune := detune s; startedAt := startedAt s;
                        stopped := true |}
  end.

Definition renderSource (t : Q) (s : AudioBufferSourceNode) : AudioBufferSourceNode :=
  {| buffer := buffer s; playbackRate := render t (playbackRate s);
     detune := render t (detune s); startedAt := startedAt s; stopped := stopped s |}.

(** *** The nodes of the engine's graph and their parameters *)

Inductive NodeId : Type :=
| Source | GainNode | BassFilter | Compressor | DryGain | WetGain | ConvolverNode
| DelayInput | DelayNode | DelayFeedback | DelayWetGain
| ChorusInput | ChorusDelay | ChorusDepth | ChorusLFO | ChorusWetGain
| ChorusDelayTime                 (* [chorusDelay.delayTime] as a connection target *)
| AnalyserNode | Destination.

#[global] Instance NodeId_eq_dec : EqDecision NodeId.
Proof. solve_decision. Defined.

Inductive ParamId : Type :=
| GainNode_gain
| BassFilter_frequency | BassFilter_Q | BassFilter_gain
| Compressor_threshold | Compressor_knee | Compressor_ratio
| Compressor_attack | Compressor_release
| DryGain_gain | WetGain_gain
| DelayInput_gain | DelayNode_delayTime | DelayFeedback_gain | DelayWetGain_gain
| ChorusInput_gain | ChorusDelay_delayTime | ChorusDepth_gain
| ChorusLFO_frequency | ChorusWetGain_gain.

#[global] Instance ParamId_eq_dec : EqDecision ParamId.
Proof. solve_decision. Defined.

Definition Connections : Type := list (NodeId * NodeId).

(** [a.connect(b)]; connecting twice is connecting once. *)
Definition connect (a b : NodeId) (g : Connections) : Connections :=
  if bool_decide ((a, b) ∈ g) then g else g ++ [(a, b)].

(** [a.disconnect()]: all of [a]'s outgoing connections. *)
Definition disconnect (a : NodeId) (g : Connections) : Connections :=
  List.filter (fun c => negb (bool_decide (c.1 = a))) g.

Definition graphNodes (g : Connections) : list NodeId :=
  flat_map (fun c => [c.1; c.2]) g.

(** The nodes [n] feeds, in connection order. *)
Definition successors (g : Connections) (n : NodeId) : list NodeId :=
  map snd (List.filter (fun c => bool_decide (c.1 = n)) g).

(** The stages in series after [n]: as long as a node feeds exactly one
    node, that one comes next. *)
Fixpoint seriesFrom (fuel : nat) (g : Connections) (n : NodeId) : list NodeId :=
  match fuel with
  | O => []
  | S fuel' =>
      match successors g n with
      | [m] => m :: seriesFrom fuel' g m
      | _ => []
      end
  end.

(** The series chain the source feeds, and the parallel branches its last
    stage splits into. *)
Definition seriesPath (g : Connections) : list NodeId :=
  seriesFrom (length g) g Source.

Definition splitAfter (g : Connections) : list NodeId :=
  successors g (List.last (seriesPath g) Source).

Inductive ContextState : Type := Suspended | Running.

End WebAudio.

(** ** [AudioEngine] (audio-engine.js) *)

Module AudioEngine.
Import WebAudio.
#[local] Open Scope Q_scope.

(** [this.audioContext] together with the nodes [initializeAudioContext]
    creates from it in the same synchronous step: [this.gainNode],
    [this.bassFilter], [this.compressor], [this.dryGain], [this.wetGain],
    the delay and chorus nodes and the analyser are non-null exactly when
    the context is.  [params] holds their AudioParams, [connections] what
    has been connected. *)
Record AudioContext : Type := {
  currentTime : Q;
  state : ContextState;
  params : ParamId -> AudioParam;
  connections : Connections
}.

Definition set_currentTime (v : Q) (c : AudioContext) : AudioContext :=
  {| currentTime := v; state := state c; params := params c;
     connections := connections c |}.

Definition set_state (v : ContextState) (c : AudioContext) : AudioContext :=
  {| currentTime := currentTime c; state := v; params := params c;
     connections := connections c |}.

Definition set_params (v : ParamId -> AudioParam) (c : AudioContext) : AudioContext :=
  {| currentTime := currentTime c; state := state c; params := v;
     connections := connections c |}.

Definition set_connections (v : Connections) (c : AudioContext) : AudioContext :=
  {| currentTime := currentTime c; state := state c; params := params c;
     connections := v |}.

(** [setTimeout(callback, delay)], the delay in milliseconds. *)
Inductive TimerCallback : Type := CallPlay.

Record Timeout : Type := { delayMs : Z; callback : TimerCallback }.

(** The fields of [this] the modelled methods read or assign. *)
Record Engine : Type := {
  audioContext : option AudioContext;
  sourceNode : option AudioBufferSourceNode;
  audioBuffer : option AudioBuffer;
  startTime : Q;
  pauseTime : Q;
  isPlaying : bool;
  playbackRate : Q;
  pitchShift : Q;
  reverbMix : Q;
  bassBoost : Q;
  compressorThreshold : Q;
  preservePitch : bool;
  actualPlaybackRate : Q;
  delayMix : Q;
  chorusMix : Q;
  impulseBuffer : option AudioBuffer;
  chainConfigured : bool;
  pendingDelayMix : option Q;
  pendingChorusMix : option Q;
  pendingTimeouts : list Timeout
}.

Definition set_audioContext (v : option AudioContext) (e : Engine) : Engine :=
  {| audioContext := v; sourceNode := sourceNode e; audioBuffer := audioBuffer e;
     startTime := startTime e; pauseTime := pauseTime e; isPlaying := isPlaying e;
     playbackRate := playbackRate e; pitchShift := pitchShift e;
     reverbMix := reverbMix e; bassBoost := bassBoost e;
     compressorThreshold := compressorThreshold e; preservePitch := preservePitch e;
     actualPlaybackRate := actualPlaybackRate e; delayMix := delayMix e;
     chorusMix := chorusMix e; impulseBuffer := impulseBuffer e;
     chainConfigured := chainConfigured e; pendingDelayMix := pendingDelayMix e;
     pendingChorusMix := pendingChorusMix e; pendingTimeouts := pendingTimeouts e |}.

Definition set_sourceNode (v : option AudioBufferSourceNode) (e : Engine) : Engine :=
  {| audioContext := audioContext e; sourceNode := v; audioBuffer := audioBuffer e;
     startTime := startTime e; pauseTime := pauseTime e; isPlaying := isPlaying e;
     playbackRate := playbackRate e; pitchShift := pitchShift e;
     reverbMix := reverbMix e; bassBoost := bassBoost e;
     compressorThreshold := compressorThreshold e; preservePitch := preservePitch e;
     actualPlaybackRate := actualPlaybackRate e; delayMix := delayMix e;
     chorusMix := chorusMix e; impulseBuffer := impulseBuffer e;
     chainConfigured := chainConfigured e; pendingDelayMix := pendingDelayMix e;
     pendingChorusMix := pendingChorusMix e; pendingTimeouts := pendingTimeouts e |}.

Definition set_audioBuffer (v : option AudioBuffer) (e : Engine) : Engine :=
  {| audioContext := audioContext e; sourceNode := sourceNode e; audioBuffer := v;
     startTime := startTime e; pauseTime := pauseTime e; isPlaying := isPlaying e;
     playbackRate := playbackRate e; pitchShift := pitchShift e;
     reverbMix := reverbMix e; bassBoost := bassBoost e;
     compressorThreshold := compressorThreshold e; preservePitch := preservePitch e;
     actualPlaybackRate := actualPlaybackRate e; delayMix := delayMix e;
     chorusMix := chorusMix e; impulseBuffer := impulseBuffer e;
     chainConfigured := chainConfigured e; pendingDelayMix := pendingDelayMix e;
     pendingChorusMix := pendingChorusMix e; pendingTimeouts := pendingTimeouts e |}.

Definition set_startTime (v : Q) (e : Engine) : Engine :=
  {| audioContext := audioContext e; sourceNode := sourceNode e;
     audioBuffer := audioBuffer e; startTime := v; pauseTime := pauseTime e;
     isPlaying := isPlaying e; playbackRate := playbackRate e;
     pitchShift := pitchShift e; reverbMix := reverbMix e; bassBoost := bassBoost e;
     compressorThreshold := compressorThreshold e; preservePitch := preservePitch e;
     actualPlaybackRate := actualPlaybackRate e; delayMix := delayMix e;
     chorusMix := chorusMix e; impulseBuffer := impulseBuffer e;
     chainConfigured := chainConfigured e; pendingDelayMix := pendingDelayMix e;
     pendingChorusMix := pendingChorusMix e; pendingTimeouts := pendingTimeouts e |}.

Definition set_pauseTime (v : Q) (e : Engine) : Engine :=
  {| audioContext := audioContext e; sourceNode := sourceNode e;
     audioBuffer := audioBuffer e; startTime := startTime e; pauseTime := v;
     isPlaying := isPlaying e; playbackRate := playbackRate e;
     pitchShift := pitchShift e; reverbMix := reverbMix e; bassBoost := bassBoost e;
     compressorThreshold := compressorThreshold e; preservePitch := preservePitch e;
     actualPlaybackRate := actualPlaybackRate e; delayMix := delayMix e;
     chorusMix := chorusMix e; impulseBuffer := impulseBuffer e;
     chainConfigured := chainConfigured e; pendingDelayMix := pendingDelayMix e;
     pendingChorusMix := pendingChorusMix e; pendingTimeouts := pendingTimeouts e |}.

Definition set_isPlaying (v : bool) (e : Engine) : Engine :=
  {| audioContext := audioContext e; sourceNode := sourceNode e;
     audioBuffer := audioBuffer e; startTime := startTime e;
     pauseTime := pauseTime e; isPlaying := v; playbackRate := playbackRate e;
     pitchShift := pitchShift e; reverbMix := reverbMix e; bassBoost := bassBoost e;
     compressorThreshold := compressorThreshold e; preservePitch := preservePitch e;
     actualPlaybackRate := actualPlaybackRate e; delayMix := delayMix e;
     chorusMix := chorusMix e; impulseBuffer := impulseBuffer e;
     chainConfigured := chainConfigured e; pendingDelayMix := pendingDelayMix e;
     pendingChorusMix := pendingChorusMix e; pendingTimeouts := pendingTimeouts e |}.

Definition set_playbackRate (v : Q) (e : Engine) : Engine :=
  {| audioContext := audioContext e; sourceNode := sourceNode e;
     audioBuffer := audioBuffer e; startTime := startTime e;
     pauseTime := pauseTime e; isPlaying := isPlaying e; playbackRate := v;
     pitchShift := pitchShift e; reverbMix := reverbMix e; bassBoost := bassBoost e;
     compressorThreshold := compressorThreshold e; preservePitch := preservePitch e;
     actualPlaybackRate := actualPlaybackRate e; delayMix := delayMix e;
     chorusMix := chorusMix e; impulseBuffer := impulseBuffer e;
     chainConfigured := chainConfigured e; pendingDelayMix := pendingDelayMix e;
     pendingChorusMix := pendingChorusMix e; pendingTimeouts := pendingTimeouts e |}.

Definition set_pitchShift (v : Q) (e : Engine) : Engine :=
  {| audioContext := audioContext e; sourceNode := sourceNode e;
     audioBuffer := audioBuffer e; startTime := startTime e;
     pauseTime := pauseTime e; isPlaying := isPlaying e;
     playbackRate := playbackRate e; pitchShift := v; reverbMix := reverbMix e;
     bassBoost := bassBoost e; compressorThreshold := compressorThreshold e;
     preservePitch := preservePitch e; actualPlaybackRate := actualPlaybackRate e;
     delayMix := delayMix e; chorusMix := chorusMix e;
     impulseBuffer := impulseBuffer e; chainConfigured := chainConfigured e;
     pendingDelayMix := pendingDelayMix e; pendingChorusMix := pendingChorusMix e;
     pendingTimeouts := pendingTimeouts e |}.

Definition set_reverbMix (v : Q) (e : Engine) : Engine :=
  {| audioContext := audioContext e; sourceNode := sourceNode e;
     audioBuffer := audioBuffer e; startTime := startTime e;
     pauseTime := pauseTime e; isPlaying := isPlaying e;
     playbackRate := playbackRate e; pitchShift := pitchShift e; reverbMix := v;
     bassBoost := bassBoost e; compressorThreshold := compressorThreshold e;
     preservePitch := preservePitch e; actualPlaybackRate := actualPlaybackRate e;
     delayMix := delayMix e; chorusMix := chorusMix e;
     impulseBuffer := impulseBuffer e; chainConfigured := chainConfigured e;
     pendingDelayMix := pendingDelayMix e; pendingChorusMix := pendingChorusMix e;
     pendingTimeouts := pendingTimeouts e |}.

Definition set_bassBoost (v : Q) (e : Engine) : Engine :=
  {| audioContext := audioContext e; sourceNode := sourceNode e;
     audioBuffer := audioBuffer e; startTime := startTime e;
     pauseTime := pauseTime e; isPlaying := isPlaying e;
     playbackRate := playbackRate e; pitchShift := pitchShift e;
     reverbMix := reverbMix e; bassBoost := v;
     compressorThreshold := compressorThreshold e; preservePitch := preservePitch e;
     actualPlaybackRate := actualPlaybackRate e; delayMix := delayMix e;
     chorusMix := chorusMix e; impulseBuffer := impulseBuffer e;
     chainConfigured := chainConfigured e; pendingDelayMix := pendingDelayMix e;
     pendingChorusMix := pendingChorusMix e; pendingTimeouts := pendingTimeouts e |}.

Definition set_compressorThreshold (v : Q) (e : Engine) : Engine :=
  {| audioContext := audioContext e; sourceNode := sourceNode e;
     audioBuffer := audioBuffer e; startTime := startTime e;
     pauseTime := pauseTime e; isPlaying := isPlaying e;
     playbackRate := playbackRate e; pitchShift := pitchShift e;
     reverbMix := reverbMix e; bassBoost := bassBoost e; compressorThreshold := v;
     preservePitch := preservePitch e; actualPlaybackRate := actualPlaybackRate e;
     delayMix := delayMix e; chorusMix := chorusMix e;
     impulseBuffer := impulseBuffer e; chainConfigured := chainConfigured e;
     pendingDelayMix := pendingDelayMix e; pendingChorusMix := pendingChorusMix e;
     pendingTimeouts := pendingTimeouts e |}.

Definition set_actualPlaybackRate (v : Q) (e : Engine) : Engine :=
  {| audioContext := audioContext e; sourceNode := sourceNode e;
     audioBuffer := audioBuffer e; startTime := startTime e;
     pauseTime := pauseTime e; isPlaying := isPlaying e;
     playbackRate := playbackRate e; pitchShift := pitchShift e;
     reverbMix := reverbMix e; bassBoost := bassBoost e;
     compressorThreshold := compressorThreshold e; preservePitch := preservePitch e;
     actualPlaybackRate := v; delayMix := delayMix e; chorusMix := chorusMix e;
     impulseBuffer := impulseBuffer e; chainConfigured := chainConfigured e;
     pendingDelayMix := pendingDelayMix e; pendingChorusMix := pendingChorusMix e;
     pendingTimeouts := pendingTimeouts e |}.

Definition set_delayMix (v : Q) (e : Engine) : Engine :=
  {| audioContext := audioContext e; sourceNode := sourceNode e;
     audioBuffer := audioBuffer e; startTime := startTime e;
     pauseTime := pauseTime e; isPlaying := isPlaying e;
     playbackRate := playbackRate e; pitchShift := pitchShift e;
     reverbMix := reverbMix e; bassBoost := bassBoost e;
     compressorThreshold := compressorThreshold e; preservePitch := preservePitch e;
     actualPlaybackRate := actualPlaybackRate e; delayMix := v;
     chorusMix := chorusMix e; impulseBuffer := impulseBuffer e;
     chainConfigured := chainConfigured e; pendingDelayMix := pendingDelayMix e;
     pendingChorusMix := pendingChorusMix e; pendingTimeouts := pendingTimeouts e |}.

Definition set_chorusMix (v : Q) (e : Engine) : Engine :=
  {| audioContext := audioContext e; sourceNode := sourceNode e;
     audioBuffer := audioBuffer e; startTime := startTime e;
     pauseTime := pauseTime e; isPlaying := isPlaying e;
     playbackRate := playbackRate e; pitchShift := pitchShift e;
     reverbMix := reverbMix e; bassBoost := bassBoost e;
     compressorThreshold := compressorThreshold e; preservePitch := preservePitch e;
     actualPlaybackRate := actualPlaybackRate e; delayMix := delayMix e;
     chorusMix := v; impulseBuffer := impulseBuffer e;
     chainConfigured := chainConfigured e; pendingDelayMix := pendingDelayMix e;
     pendingChorusMix := pendingChorusMix e; pendingTimeouts := pendingTimeouts e |}.

Definition set_chainConfigured (v : bool) (e : Engine) : Engine :=
  {| audioContext := audioContext e; sourceNode := sourceNode e;
     audioBuffer := audioBuffer e; startTime := startTime e;
     pauseTime := pauseTime e; isPlaying := isPlaying e;
     playbackRate := playbackRate e; pitchShift := pitchShift e;
     reverbMix := reverbMix e; bassBoost := bassBoost e;
     compressorThreshold := compressorThreshold e; preservePitch := preservePitch e;
     actualPlaybackRate := actualPlaybackRate e; delayMix := delayMix e;
     chorusMix := chorusMix e; impulseBuffer := impulseBuffer e;
     chainConfigured := v; pendingDelayMix := pendingDelayMix e;
     pendingChorusMix := pendingChorusMix e; pendingTimeouts := pendingTimeouts e |}.

Definition set_pendingDelayMix (v : option Q) (e : Engine) : Engine :=
  {| audioContext := audioContext e; sourceNode := sourceNode e;
     audioBuffer := audioBuffer e; startTime := startTime e;
     pauseTime := pauseTime e; isPlaying := isPlaying e;
     playbackRate := playbackRate e; pitchShift := pitchShift e;
     reverbMix := reverbMix e; bassBoost := bassBoost e;
     compressorThreshold := compressorThreshold e; preservePitch := preservePitch e;
     actualPlaybackRate := actualPlaybackRate e; delayMix := delayMix e;
     chorusMix := chorusMix e; impulseBuffer := impulseBuffer e;
     chainConfigured := chainConfigured e; pendingDelayMix := v;
     pendingChorusMix := pendingChorusMix e; pendingTimeouts := pendingTimeouts e |}.

Definition set_pendingChorusMix (v : option Q) (e : Engine) : Engine :=
  {| audioContext := audioContext e; sourceNode := sourceNode e;
     audioBuffer := audioBuffer e; startTime := startTime e;
     pauseTime := pauseTime e; isPlaying := isPlaying e;
     playbackRate := playbackRate e; pitchShift := pitchShift e;
     reverbMix := reverbMix e; bassBoost := bassBoost e;
     compressorThreshold := compressorThreshold e; preservePitch := preservePitch e;
     actualPlaybackRate := actualPlaybackRate e; delayMix := delayMix e;
     chorusMix := chorusMix e; impulseBuffer := impulseBuffer e;
     chainConfigured := chainConfigured e; pendingDelayMix := pendingDelayMix e;
     pendingChorusMix := v; pendingTimeouts := pendingTimeouts e |}.

Definition set_pendingTimeouts (v : list Timeout) (e : Engine) : Engine :=
  {| audioContext := audioContext e; sourceNode := sourceNode e;
     audioBuffer := audioBuffer e; startTime := startTime e;
     pauseTime := pauseTime e; isPlaying := isPlaying e;
     playbackRate := playbackRate e; pitchShift := pitchShift e;
     reverbMix := reverbMix e; bassBoost := bassBoost e;
     compressorThreshold := compressorThreshold e; preservePitch := preservePitch e;
     actualPlaybackRate := actualPlaybackRate e; delayMix := delayMix e;
     chorusMix := chorusMix e; impulseBuffer := impulseBuffer e;
     chainConfigured := chainConfigured e; pendingDelayMix := pendingDelayMix e;
     pendingChorusMix := pendingChorusMix e; pendingTimeouts := v |}.

Definition set_param (id : ParamId) (p : AudioParam) (c : AudioContext) : AudioContext :=
  set_params (<[id := p]> (params c)) c.

(** *** Construction *)

(** The field initialisers of the constructor. *)
Definition constructed : Engine :=
  {| audioContext := None; sourceNode := None; audioBuffer := None;
     startTime := 0; pauseTime := 0; isPlaying := false;
     playbackRate := 1.0; pitchShift := 0; reverbMix := 0; bassBoost := 0;
     compressorThreshold := -24; preservePitch := true; actualPlaybackRate := 1.0;
     delayMix := 0; chorusMix := 0; impulseBuffer := None;
     chainConfigured := false; pendingDelayMix := None; pendingChorusMix := None;
     pendingTimeouts := [] |}.

(** The parameters of the nodes [initializeAudioContext] creates: node
    defaults, then the [.value] assignments of the source. *)
Definition initialParams (now : Q) (id : ParamId) : AudioParam :=
  match id with
  | GainNode_gain => newParam 1 now
  | BassFilter_frequency => setValue 250 (newParam 350 now)
  | BassFilter_Q => setValue 0.7 (newParam 1 now)
  | BassFilter_gain => setValue 0 (newParam 0 now)
  | Compressor_threshold => setValue (-24) (newParam (-24) now)
  | Compressor_knee => setValue 30 (newParam 30 now)
  | Compressor_ratio => setValue 12 (newParam 12 now)
  | Compressor_attack => setValue 0.003 (newParam 0.003 now)
  | Compressor_release => setValue 0.25 (newParam 0.25 now)
  | DryGain_gain => setValue 1.0 (newParam 1 now)
  | WetGain_gain => setValue 0.0 (newParam 1 now)
  | DelayInput_gain => setValue 1.0 (newParam 1 now)
  | DelayNode_delayTime => setValue 0.25 (newParam 0 now)
  | DelayFeedback_gain => setValue 0.2 (newParam 1 now)
  | DelayWetGain_gain => setValue 0.0 (newParam 1 now)
  | ChorusInput_gain => setValue 1.0 (newParam 1 now)
  | ChorusDelay_delayTime => setValue 0.015 (newParam 0 now)
  | ChorusDepth_gain => setValue 0.004 (newParam 1 now)
  | ChorusWetGain_gain => setValue 0.0 (newParam 1 now)
  | ChorusLFO_frequency => setValue 0.8 (newParam 440 now)
  end.

(** The connections [initializeAudioContext] makes while creating the
    delay and chorus nodes. *)
Definition initialConnections : Connections :=
  connect ChorusDepth ChorusDelayTime
    (connect ChorusLFO ChorusDepth
      (connect ChorusDelay ChorusWetGain
        (connect ChorusInput ChorusDelay
          (connect DelayNode DelayWetGain
            (connect DelayFeedback DelayNode
              (connect DelayNode DelayFeedback
                (connect DelayInput DelayNode [] ))))))).

Definition setupAudioChain (e : Engine) : Engine :=
  match audioContext e with
  | None => e
  | Some ctx =>
      if chainConfigured e then e
      else
        (* Primary path *)
        let g := connections ctx in
        let g := connect GainNode BassFilter g in
        let g := connect BassFilter Compressor g in
        let g := connect Compressor DryGain g in
        let g := connect Compressor ConvolverNode g in
        let g := connect ConvolverNode WetGain g in
        (* Advanced effects paths *)
        let g := connect Compressor DelayInput g in
        let g := connect DelayWetGain AnalyserNode g in
        let g := connect Compressor ChorusInput g in
        let g := connect ChorusWetGain AnalyserNode g in
        (* Mix back together *)
        let g := connect DryGain AnalyserNode g in
        let g := connect WetGain AnalyserNode g in
        (* Final output *)
        let g := connect AnalyserNode Destination g in
        set_chainConfigured true (set_audioContext (Some (set_connections g ctx)) e)
  end.

(** *** Effect setters *)

Definition setVolume (value : Q) (e : Engine) : Engine :=
  match audioContext e with
  | Some ctx =>
      (* Smooth volume transition to avoid clicks *)
      let now := currentTime ctx in
      let gain := params ctx GainNode_gain in
      let gain := cancelScheduledValues now gain in
      let gain := setValueAtTime (WebAudio.value gain) now gain in
      let gain := linearRampToValueAtTime (value / 100) (now + 0.05) gain in
      set_audioContext (Some (set_param GainNode_gain gain ctx)) e
  | None => e
  end.

Definition setReverbMix (value : Q) (e : Engine) : Engine :=
  let e := set_reverbMix (value / 100) e in
  match audioContext e with
  | Some ctx =>
      let now := currentTime ctx in
      (* Smooth transition to avoid artifacts *)
      let dry := params ctx DryGain_gain in
      let dry := cancelScheduledValues now dry in
      let dry := setValueAtTime (WebAudio.value dry) now dry in
      let dry := linearRampToValueAtTime (1 - reverbMix e) (now + 0.1) dry in
      let wet := params ctx WetGain_gain in
      let wet := cancelScheduledValues now wet in
      let wet := setValueAtTime (WebAudio.value wet) now wet in
      let wet := linearRampToValueAtTime (reverbMix e) (now + 0.1) wet in
      set_audioContext
        (Some (set_param WetGain_gain wet (set_param DryGain_gain dry ctx))) e
  | None => e
  end.

Definition setBassBoost (value : Q) (e : Engine) : Engine :=
  (* Value is 0-100, convert to 0-20 dB *)
  let e := set_bassBoost ((value / 100) * 20) e in
  match audioContext e with
  | Some ctx =>
      let now := currentTime ctx in
      let gain := params ctx BassFilter_gain in
      let gain := cancelScheduledValues now gain in
      let gain := setValueAtTime (WebAudio.value gain) now gain in
      let gain := linearRampToValueAtTime (bassBoost e) (now + 0.1) gain in
      set_audioContext (Some (set_param BassFilter_gain gain ctx)) e
  | None => e
  end.

Definition setCompressor (value : Q) (e : Engine) : Engine :=
  (* Value is 0-100, convert to threshold -50 to -10 dB *)
  let e := set_compressorThreshold (-50 + (value / 100) * 40) e in
  match audioContext e with
  | Some ctx =>
      let now := currentTime ctx in
      let threshold := setValueAtTime (compressorThreshold e) now
                         (params ctx Compressor_threshold) in
      (* Adjust ratio based on intensity *)
      let ratio := 4 + (value / 100) * 16 in
      let ratio := setValueAtTime ratio now (params ctx Compressor_ratio) in
      set_audioContext
        (Some (set_param Compressor_ratio ratio
                 (set_param Compressor_threshold threshold ctx))) e
  | None => e
  end.

Definition setDelayMix (value : Q) (e : Engine) : Engine :=
  let clamped := Qmax 0 (Qmin 100 value) in
  let e := set_delayMix (clamped / 100) e in
  match audioContext e with
  | None => set_pendingDelayMix (Some clamped) e
  | Some ctx =>
      let e := set_pendingDelayMix None e in
      let now := currentTime ctx in
      let minDelay := 0.08 in
      let maxDelay := 0.6 in
      let targetDelay := minDelay + (maxDelay - minDelay) * delayMix e in
      let feedback := 0.1 + delayMix e * 0.6 in
      let wetLevel := delayMix e * 0.9 in
      let delayTime := params ctx DelayNode_delayTime in
      let delayTime := cancelScheduledValues now delayTime in
      let delayTime := setValueAtTime (WebAudio.value delayTime) now delayTime in
      let delayTime := linearRampToValueAtTime targetDelay (now + 0.12) delayTime in
      let fb := params ctx DelayFeedback_gain in
      let fb := cancelScheduledValues now fb in
      let fb := setValueAtTime (WebAudio.value fb) now fb in
      let fb := linearRampToValueAtTime feedback (now + 0.12) fb in
      let wet := params ctx DelayWetGain_gain in
      let wet := cancelScheduledValues now wet in
      let wet := setValueAtTime (WebAudio.value wet) now wet in
      let wet := linearRampToValueAtTime wetLevel (now + 0.12) wet in
      set_audioContext
        (Some (set_param DelayWetGain_gain wet
                 (set_param DelayFeedback_gain fb
                    (set_param DelayNode_delayTime delayTime ctx)))) e
  end.

Definition setChorusMix (value : Q) (e : Engine) : Engine :=
  let clamped := Qmax 0 (Qmin 100 value) in
  let e := set_chorusMix (clamped / 100) e in
  match audioContext e with
  | None => set_pendingChorusMix (Some clamped) e
  | Some ctx =>
      let e := set_pendingChorusMix None e in
      let now := currentTime ctx in
      let depth := 0.001 + chorusMix e * 0.004 in
      let rate := 0.3 + chorusMix e * 1.2 in
      let wet := chorusMix e * 0.8 in
      let depthGain := params ctx ChorusDepth_gain in
      let depthGain := cancelScheduledValues now depthGain in
      let depthGain := setValueAtTime (WebAudio.value depthGain) now depthGain in
      let depthGain := linearRampToValueAtTime depth (now + 0.12) depthGain in
      let lfo := setValueAtTime rate now (params ctx ChorusLFO_frequency) in
      let wetGain := params ctx ChorusWetGain_gain in
      let wetGain := cancelScheduledValues now wetGain in
      let wetGain := setValueAtTime (WebAudio.value wetGain) now wetGain in
      let wetGain := linearRampToValueAtTime wet (now + 0.12) wetGain in
      set_audioContext
        (Some (set_param ChorusWetGain_gain wetGain
                 (set_param ChorusLFO_frequency lfo
                    (set_param ChorusDepth_gain depthGain ctx)))) e
  end.

(** [initializeAudioContext] up to its [await]: [created] is what
    [new AudioContext()] gives, [None] when it throws (the error is caught
    and logged); [impulse] is the buffer [loadImpulseResponse] fills from
    [Math.random]. *)
Definition initializeAudioContext_start
    (created : option (Q * ContextState)) (impulse : AudioBuffer) (e : Engine) : Engine :=
  match created with
  | None => e
  | Some (now, st) =>
      let ctx := {| currentTime := now; state := st; params := initialParams now;
                    connections := initialConnections |} in
      {| audioContext := Some ctx; sourceNode := sourceNode e;
         audioBuffer := audioBuffer e; startTime := startTime e;
         pauseTime := pauseTime e; isPlaying := isPlaying e;
         playbackRate := playbackRate e; pitchShift := pitchShift e;
         reverbMix := reverbMix e; bassBoost := bassBoost e;
         compressorThreshold := compressorThreshold e;
         preservePitch := preservePitch e;
         actualPlaybackRate := actualPlaybackRate e;
         delayMix := delayMix e; chorusMix := chorusMix e;
         impulseBuffer := Some impulse; chainConfigured := chainConfigured e;
         pendingDelayMix := pendingDelayMix e; pendingChorusMix := pendingChorusMix e;
         pendingTimeouts := pendingTimeouts e |}
  end.

(** ... and after the [await]. *)
Definition initializeAudioContext_resume (e : Engine) : Engine :=
  match audioContext e with
  | None => e
  | Some _ =>
      let e := setupAudioChain e in
      let e := match pendingDelayMix e with
               | Some value => setDelayMix value (set_pendingDelayMix None e)
               | None => setDelayMix (delayMix e * 100) e
               end in
      match pendingChorusMix e with
      | Some value => setChorusMix value (set_pendingChorusMix None e)
      | None => setChorusMix (chorusMix e * 100) e
      end
  end.

(** [new AudioEngine()] once its initialisation has run to the end. *)
Definition newEngine (created : option (Q * ContextState)) (impulse : AudioBuffer)
  : Engine :=
  initializeAudioContext_resume (initializeAudioContext_start created impulse constructed).

(** *** Time passing

    The audio clock moves on by [dt] and the rendering thread brings every
    parameter's value up to it. *)
Definition advance (dt : Q) (e : Engine) : Engine :=
  match audioContext e with
  | None => e
  | Some ctx =>
      let t := (currentTime ctx + dt)%Q in
      let ctx' := set_params (fun id => render t (params ctx id)) (set_currentTime t ctx) in
      set_sourceNode (renderSource t <$> sourceNode e) (set_audioContext (Some ctx') e)
  end.

(** *** Transport *)

(** What [loadAudioFile] returns. *)
Record AudioInfo : Type := {
  info_duration : Q;
  info_sampleRate : Z;
  info_channels : Z
}.

(** [this.audioContext.currentTime]; a TypeError on a null context. *)
Definition getContextTime : Js Engine Q :=
  fun e =>
    match audioContext e with
    | Some ctx => (Normal (currentTime ctx), e)
    | None => (Throw TypeError, e)
    end.

(** A method call or a property assignment on [this.sourceNode]; a
    TypeError when it is null. *)
Definition onSource (f : AudioBufferSourceNode -> Completion AudioBufferSourceNode)
  : Js Engine unit :=
  fun e =>
    match sourceNode e with
    | None => (Throw TypeError, e)
    | Some s =>
        match f s with
        | Normal s' => (Normal tt, set_sourceNode (Some s') e)
        | Throw err => (Throw err, e)
        | OutOfFuel => (OutOfFuel, e)
        end
    end.

(** [connect] and [disconnect] calls act on the context's graph. *)
Definition onConnections (f : Connections -> Connections) : Js Engine unit :=
  fun e =>
    match audioContext e with
    | None => (Throw TypeError, e)
    | Some ctx =>
        (Normal tt, set_audioContext (Some (set_connections (f (connections ctx)) ctx)) e)
    end.

Section Methods.

(** [Math.pow], used by the legacy branch of [updateActualPlaybackRate]
    only. *)
Variable Math_pow : Q -> Q -> Q.

(** [audioContext.decodeAudioData]: the decoded buffer, or the error the
    promise rejects with. *)
Variable decodeAudioData : list Z -> Completion AudioBuffer.

Definition updateActualPlaybackRate (e : Engine) : Engine :=
  if preservePitch e then
    (* Only apply speed, pitch will be handled separately *)
    set_actualPlaybackRate (playbackRate e) e
  else
    (* Legacy mode: combine both *)
    let pitchFactor := Math_pow 2 (pitchShift e / 12) in
    set_actualPlaybackRate (playbackRate e * pitchFactor) e.

Definition loadAudioFile (arrayBuffer : list Z) : Js Engine AudioInfo :=
  js_try
    (e ← js_get;
     match audioContext e with
     | None => js_throw TypeError
     | Some ctx =>
         (* Resume context if suspended *)
         match state ctx with
         | Suspended => js_modify (set_audioContext (Some (set_state Running ctx)))
         | Running => mret tt
         end;;
         (* Decode audio data *)
         decoded ← js_lift (decodeAudioData arrayBuffer);
         js_modify (set_audioBuffer (Some decoded));;
         js_modify (set_pauseTime 0);;
         js_modify (set_startTime 0);;
         mret {| info_duration := duration decoded;
                 info_sampleRate := sampleRate decoded;
                 info_channels := numberOfChannels decoded |}
     end)
    (fun error => (* console.error(...) *) js_throw error).

Definition play : Js Engine unit :=
  e ← js_get;
  match audioBuffer e with
  | None => mret tt
  | Some buf =>
      if isPlaying e then mret tt
      else
        (* Create new source node *)
        now ← getContextTime;
        js_modify (set_sourceNode (Some (src_set_buffer buf (createBufferSource now))));;
        (* Set playback rate for speed *)
        js_modify updateActualPlaybackRate;;
        e ← js_get;
        onSource (fun s => Normal (src_set_playbackRate
                    (setValue (actualPlaybackRate e) (WebAudio.playbackRate s)) s));;
        (* Apply pitch shift separately using detune *)
        (if preservePitch e && negb (Qeq_bool (pitchShift e) 0)
         then onSource (fun s => Normal (src_set_detune
                          (setValue (pitchShift e * 100) (detune s)) s))
         else mret tt);;
        (* Connect audio chain with compressor *)
        onConnections (connect Source GainNode);;
        js_modify setupAudioChain;;
        (* Handle playback end: the handler is [Playback.onended] below; it
           runs when the browser delivers the event, see [Playback.elapse] *)
        (* Start playback *)
        e ← js_get;
        let offset := pauseTime e in
        onSource (start offset);;
        (* Adjust startTime for the playback rate *)
        now ← getContextTime;
        js_modify (set_startTime (now - offset / actualPlaybackRate e));;
        js_modify (set_isPlaying true)
  end.

Definition pause : Js Engine unit :=
  e ← js_get;
  if negb (isPlaying e) || negb (bool_decide (is_Some (sourceNode e))) then mret tt
  else
    (* Calculate accurate pause time *)
    now ← getContextTime;
    let elapsed := now - startTime e in
    js_modify (set_pauseTime (pauseTime e + elapsed * actualPlaybackRate e));;
    js_try (onSource WebAudio.stop;; onConnections (disconnect Source))
           (fun _ => (* Already stopped/disconnected *) mret tt);;
    js_modify (set_sourceNode None);;
    js_modify (set_isPlaying false).

Definition stop : Js Engine unit :=
  e ← js_get;
  (if bool_decide (is_Some (sourceNode e)) then
     js_try (onSource WebAudio.stop;; onConnections (disconnect Source))
            (fun _ => (* Already stopped/disconnected *) mret tt);;
     js_modify (set_sourceNode None)
   else mret tt);;
  js_modify (set_isPlaying false);;
  js_modify (set_pauseTime 0);;
  js_modify (set_startTime 0).

Definition seek (time : Q) : Js Engine unit :=
  e ← js_get;
  match audioBuffer e with
  | None => mret tt
  | Some buf =>
      let wasPlaying := isPlaying e in
      let targetTime := Qmax 0 (Qmin time (duration buf)) in
      (if isPlaying e then
         (* Stop current playback *)
         js_try (onSource WebAudio.stop;; onConnections (disconnect Source))
                (fun _ => (* Already stopped *) mret tt);;
         js_modify (set_sourceNode None);;
         js_modify (set_isPlaying false)
       else mret tt);;
      (* Set new position *)
      js_modify (set_pauseTime targetTime);;
      now ← getContextTime;
      js_modify (set_startTime now);;
      (* Resume if was playing *)
      if wasPlaying then
        js_modify (fun e => set_pendingTimeouts
                     (pendingTimeouts e ++ [{| delayMs := 10; callback := CallPlay |}]) e)
      else mret tt
  end.

(** The event loop running a timer that is due. *)
Definition runTimeout (t : Timeout) : Js Engine unit :=
  match callback t with
  | CallPlay => play
  end.

Definition getCurrentTime (e : Engine) : Completion Q :=
  match audioBuffer e with
  | None => Normal 0
  | Some buf =>
      if isPlaying e && bool_decide (is_Some (sourceNode e)) then
        match audioContext e with
        | None => Throw TypeError
        | Some ctx =>
            let elapsed := currentTime ctx - startTime e in
            (* Calculate actual position in the original audio file *)
            let currentTime := pauseTime e + elapsed * actualPlaybackRate e in
            Normal (Qmin currentTime (duration buf))
        end
      else Normal (pauseTime e)
  end.

Definition applyPlaybackRate : Js Engine unit :=
  js_modify updateActualPlaybackRate;;
  e ← js_get;
  if bool_decide (is_Some (sourceNode e)) && isPlaying e then
    now ← getContextTime;
    (* Update pause time before changing rate *)
    let elapsed := now - startTime e in
    js_modify (set_pauseTime (pauseTime e + elapsed * actualPlaybackRate e));;
    js_modify (set_startTime now);;
    (* Apply speed with smooth transition *)
    onSource (fun s =>
      let rate := WebAudio.playbackRate s in
      let rate := cancelScheduledValues now rate in
      let rate := setValueAtTime (WebAudio.value rate) now rate in
      let rate := linearRampToValueAtTime (actualPlaybackRate e) (now + 0.1) rate in
      Normal (src_set_playbackRate rate s));;
    (* Apply pitch separately using detune *)
    if preservePitch e then
      onSource (fun s =>
        let d := detune s in
        let d := cancelScheduledValues now d in
        let d := setValueAtTime (WebAudio.value d) now d in
        let d := linearRampToValueAtTime (pitchShift e * 100) (now + 0.1) d in
        Normal (src_set_detune d s))
    else mret tt
  else mret tt.

(** *** Presets *)

Record Preset : Type := {
  reverb : Q; pitch : Q; speed : Q; delay : Q; chorus : Q
}.

Definition presets : gmap string Preset :=
  list_to_map
    [ ("concert"%string,
       {| reverb := 40; pitch := 0; speed := 1.0; delay := 25; chorus := 12 |});
      ("studio"%string,
       {| reverb := 15; pitch := 0; speed := 1.0; delay := 10; chorus := 8 |});
      ("radio"%string,
       {| reverb := 5; pitch := 1; speed := 1.0; delay := 0; chorus := 0 |});
      ("nightcore"%string,
       {| reverb := 10; pitch := 4; speed := 1.25; delay := 8; chorus := 30 |});
      ("slowed"%string,
       {| reverb := 60; pitch := -2; speed := 0.75; delay := 45; chorus := 16 |});
      ("default"%string,
       {| reverb := 0; pitch := 0; speed := 1.0; delay := 0; chorus := 0 |}) ].

(** [presets[preset] || presets['default']], for names that are not
    properties every object inherits. *)
Definition lookupPreset (preset : string) : Completion Preset :=
  match presets !! preset with
  | Some config => Normal config
  | None =>
      match presets !! "default"%string with
      | Some config => Normal config
      | None => Throw TypeError
      end
  end.

Definition applyPreset (preset : string) : Js Engine Preset :=
  config ← js_lift (lookupPreset preset);
  (* Update all parameters at once *)
  js_modify (setReverbMix (reverb config));;
  js_modify (set_pitchShift (pitch config));;
  js_modify (set_playbackRate (speed config));;
  js_modify (setDelayMix (delay config));;
  js_modify (setChorusMix (chorus config));;
  (* Apply playback rate *)
  applyPlaybackRate;;
  mret {| reverb := reverb config; pitch := pitch config; speed := speed config;
          delay := delay config; chorus := chorus config |}.

End Methods.

(** The own properties of the object [applyPreset] returns, as
    [Object.entries] lists them: those of the spread of [config]. *)
Definition entries (config : Preset) : list (string * Q) :=
  [ ("reverb"%string, reverb config); ("pitch"%string, pitch config);
    ("speed"%string, speed config); ("delay"%string, delay config);
    ("chorus"%string, chorus config) ].

(** *** Offline export *)

(** What [exportProcessedAudio] builds in its [OfflineAudioContext]: the
    context's size, the parameter values it assigns, the connections it
    makes, in the order of the source. *)
Record OfflineGraph : Type := {
  offlineChannels : Z;
  offlineLength : Z;
  offlineSampleRate : Z;
  sourceBuffer : AudioBuffer;
  sourcePlaybackRate : Q;
  convolverBuffer : option AudioBuffer;
  offlineValues : list (ParamId * Q);
  offlineConnections : Connections
}.

(** What the export does to the world outside [this]. *)
Inductive ExportEffect : Type :=
| StartRendering (g : OfflineGraph)
| ProgressCallback (percent : Q).

Section OfflineExport.

Variable Math_pow : Q -> Q -> Q.

(** [offlineContext.startRendering()]: the rendered buffer, or the error
    the promise rejects with. *)
Variable startRendering : OfflineGraph -> Completion AudioBuffer.

Definition offlineGraph (e : Engine) (ctx : AudioContext) (buf : AudioBuffer)
  : OfflineGraph :=
  (* Delay effect (echo) *)
  let baseDelay := 0.08 in
  let maxDelay := 0.6 in
  let delayTime := baseDelay + (maxDelay - baseDelay) * delayMix e in
  let delayFeedbackValue := 0.1 + delayMix e * 0.6 in
  let delayWetLevel := delayMix e * 0.9 in
  (* Chorus effect *)
  let chorusDepthValue := 0.001 + chorusMix e * 0.004 in
  let chorusRate := 0.3 + chorusMix e * 1.2 in
  let chorusWetLevel := chorusMix e * 0.8 in
  {| offlineChannels := numberOfChannels buf;
     offlineLength := buf_length buf;
     offlineSampleRate := sampleRate buf;
     sourceBuffer := buf;
     sourcePlaybackRate := actualPlaybackRate e;
     convolverBuffer := impulseBuffer e;
     offlineValues :=
       [ (GainNode_gain, WebAudio.value (params ctx GainNode_gain));
         (DryGain_gain, 1 - reverbMix e);
         (WetGain_gain, reverbMix e);
         (DelayInput_gain, 1.0);
         (DelayNode_delayTime, delayTime);
         (DelayFeedback_gain, delayFeedbackValue);
         (DelayWetGain_gain, delayWetLevel);
         (ChorusInput_gain, 1.0);
         (ChorusDelay_delayTime, 0.015);
         (ChorusDepth_gain, chorusDepthValue);
         (ChorusWetGain_gain, chorusWetLevel);
         (ChorusLFO_frequency, chorusRate) ];
     offlineConnections :=
       let g := [] in
       let g := connect DelayInput DelayNode g in
       let g := connect DelayNode DelayFeedback g in
       let g := connect DelayFeedback DelayNode g in
       let g := connect DelayNode DelayWetGain g in
       let g := connect ChorusLFO ChorusDepth g in
       let g := connect ChorusDepth ChorusDelayTime g in
       let g := connect ChorusInput ChorusDelay g in
       let g := connect ChorusDelay ChorusWetGain g in
       (* Connect nodes *)
       let g := connect Source GainNode g in
       let g := connect GainNode DryGain g in
       let g := connect GainNode ConvolverNode g in
       let g := connect GainNode DelayInput g in
       let g := connect GainNode ChorusInput g in
       let g := connect ConvolverNode WetGain g in
       let g := connect DryGain Destination g in
       let g := connect WetGain Destination g in
       let g := connect DelayWetGain Destination g in
       connect ChorusWetGain Destination g |}.

(** [progressCallback] is whether the caller passed one.  The result is
    what the method returns, what it did outside [this], and [this]. *)
Definition exportProcessedAudio (progressCallback : bool) (e : Engine)
  : Completion (option AudioBuffer) * list ExportEffect * Engine :=
  match audioBuffer e with
  | None => (Normal None, [], e)
  | Some buf =>
      (* Use the combined rate *)
      let e := updateActualPlaybackRate Math_pow e in
      match audioContext e with
      | None => (Throw TypeError, [], e)       (* [this.gainNode.gain] on null *)
      | Some ctx =>
          let g := offlineGraph e ctx buf in
          (* Render and return buffer *)
          match startRendering g with
          | Normal renderedBuffer =>
              (Normal (Some renderedBuffer),
               StartRendering g ::
                 (if progressCallback then [ProgressCallback 100] else []),
               e)
          | Throw err => (Throw err, [StartRendering g], e)
          | OutOfFuel => (OutOfFuel, [StartRendering g], e)
          end
      end
  end.

End OfflineExport.

(** The value a parameter of the offline graph is given, if any. *)
Definition offlineValue (g : OfflineGraph) (id : ParamId) : option Q :=
  snd <$> List.find (fun kv => bool_decide (kv.1 = id)) (offlineValues g).

(** The parameter values and the connections of the live chain right
    now. *)
Definition liveValue (e : Engine) (id : ParamId) : option Q :=
  (fun ctx => WebAudio.value (params ctx id)) <$> audioContext e.

Definition liveConnections (e : Engine) : Connections :=
  match audioContext e with
  | Some ctx => connections ctx
  | None => []
  end.

End AudioEngine.

(** ** The earlier [AudioEngine] (second copy in audio-engine.js)

    The copy has no delay and no chorus.  The fields its [applyPreset]
    reads and assigns are among those of [AudioEngine.Engine], and its
    [updateActualPlaybackRate] and [applyPlaybackRate] (lines 964-1029)
    are the text modelled there, so the method is a computation over the
    same record. *)

Module BasicAudioEngine.
Import WebAudio AudioEngine.
#[local] Open Scope Q_scope.

Record Preset : Type := { reverb : Q; pitch : Q; speed : Q }.

Definition presets : gmap string Preset :=
  list_to_map
    [ ("concert"%string, {| reverb := 40; pitch := 0; speed := 1.0 |});
      ("studio"%string, {| reverb := 15; pitch := 0; speed := 1.0 |});
      ("radio"%string, {| reverb := 5; pitch := 1; speed := 1.0 |});
      ("nightcore"%string, {| reverb := 10; pitch := 4; speed := 1.25 |});
      ("slowed"%string, {| reverb := 60; pitch := -2; speed := 0.75 |});
      ("default"%string, {| reverb := 0; pitch := 0; speed := 1.0 |}) ].

(** [presets[preset] || presets['default']], for names that are not
    properties every object inherits. *)
Definition lookupPreset (preset : string) : Completion Preset :=
  match presets !! preset with
  | Some config => Normal config
  | None =>
      match presets !! "default"%string with
      | Some config => Normal config
      | None => Throw TypeError
      end
  end.

Section BasicMethods.

Variable Math_pow : Q -> Q -> Q.

Definition applyPreset (preset : string) : Js Engine Preset :=
  config ← js_lift (lookupPreset preset);
  (* Update all parameters at once *)
  js_modify (set_reverbMix (reverb config / 100));;
  js_modify (set_pitchShift (pitch config));;
  js_modify (set_playbackRate (speed config));;
  (* Apply reverb immediately *)
  js_modify (fun e =>
    match audioContext e with
    | Some ctx =>
        let now := currentTime ctx in
        let dry := params ctx DryGain_gain in
        let dry := cancelScheduledValues now dry in
        let dry := setValueAtTime (WebAudio.value dry) now dry in
        let dry := linearRampToValueAtTime (1 - reverbMix e) (now + 0.2) dry in
        let wet := params ctx WetGain_gain in
        let wet := cancelScheduledValues now wet in
        let wet := setValueAtTime (WebAudio.value wet) now wet in
        let wet := linearRampToValueAtTime (reverbMix e) (now + 0.2) wet in
        set_audioContext
          (Some (set_param WetGain_gain wet (set_param DryGain_gain dry ctx))) e
    | None => e
    end);;
  (* Apply playback rate *)
  applyPlaybackRate Math_pow;;
  mret config.

End BasicMethods.

(** The own properties of the object this [applyPreset] returns, as
    [Object.entries] lists them: those of the table's literal. *)
Definition entries (config : Preset) : list (string * Q) :=
  [ ("reverb"%string, reverb config); ("pitch"%string, pitch config);
    ("speed"%string, speed config) ].

End BasicAudioEngine.

(** ** [AdvancedAudioEngine]: the transport state and [stop] *)

Module AdvancedAudioEngine.
Import WebAudio.
#[local] Open Scope Q_scope.

Record Engine : Type := {
  audioContextTime : option Q   (* [this.audioContext.currentTime] *);
  sourceNode : option AudioBufferSourceNode;
  nextSourceNode : option AudioBufferSourceNode;
  audioBuffer : option AudioBuffer;
  nextAudioBuffer : option AudioBuffer;
  startTime : Q;
  pauseTime : Q;
  isPlaying : bool;
  isCrossfading : bool;
  playbackRate : option Q   (* never initialised by the constructor *)
}.

Definition set_sourceNode (v : option AudioBufferSourceNode) (e : Engine) : Engine :=
  {| audioContextTime := audioContextTime e; sourceNode := v;
     nextSourceNode := nextSourceNode e; audioBuffer := audioBuffer e;
     nextAudioBuffer := nextAudioBuffer e; startTime := startTime e;
     pauseTime := pauseTime e; isPlaying := isPlaying e;
     isCrossfading := isCrossfading e; playbackRate := playbackRate e |}.

Definition set_nextSourceNode (v : option AudioBufferSourceNode) (e : Engine) : Engine :=
  {| audioContextTime := audioContextTime e; sourceNode := sourceNode e;
     nextSourceNode := v; audioBuffer := audioBuffer e;
     nextAudioBuffer := nextAudioBuffer e; startTime := startTime e;
     pauseTime := pauseTime e; isPlaying := isPlaying e;
     isCrossfading := isCrossfading e; playbackRate := playbackRate e |}.

Definition set_startTime (v : Q) (e : Engine) : Engine :=
  {| audioContextTime := audioContextTime e; sourceNode := sourceNode e;
     nextSourceNode := nextSourceNode e; audioBuffer := audioBuffer e;
     nextAudioBuffer := nextAudioBuffer e; startTime := v; pauseTime := pauseTime e;
     isPlaying := isPlaying e; isCrossfading := isCrossfading e;
     playbackRate := playbackRate e |}.

Definition set_pauseTime (v : Q) (e : Engine) : Engine :=
  {| audioContextTime := audioContextTime e; sourceNode := sourceNode e;
     nextSourceNode := nextSourceNode e; audioBuffer := audioBuffer e;
     nextAudioBuffer := nextAudioBuffer e; startTime := startTime e; pauseTime := v;
     isPlaying := isPlaying e; isCrossfading := isCrossfading e;
     playbackRate := playbackRate e |}.

Definition set_isPlaying (v : bool) (e : Engine) : Engine :=
  {| audioContextTime := audioContextTime e; sourceNode := sourceNode e;
     nextSourceNode := nextSourceNode e; audioBuffer := audioBuffer e;
     nextAudioBuffer := nextAudioBuffer e; startTime := startTime e;
     pauseTime := pauseTime e; isPlaying := v; isCrossfading := isCrossfading e;
     playbackRate := playbackRate e |}.

Definition set_isCrossfading (v : bool) (e : Engine) : Engine :=
  {| audioContextTime := audioContextTime e; sourceNode := sourceNode e;
     nextSourceNode := nextSourceNode e; audioBuffer := audioBuffer e;
     nextAudioBuffer := nextAudioBuffer e; startTime := startTime e;
     pauseTime := pauseTime e; isPlaying := isPlaying e; isCrossfading := v;
     playbackRate := playbackRate e |}.

(** [node.stop(); node.disconnect();] on the node a field holds; a
    TypeError when the field is null.  The graph is not part of this
    model, so [disconnect] leaves it as it is. *)
Definition stopAndDisconnect (field : Engine -> option AudioBufferSourceNode)
  : Js Engine unit :=
  fun e =>
    match field e with
    | None => (Throw TypeError, e)
    | Some node =>
        match WebAudio.stop node with
        | Normal _ => (Normal tt, e)
        | Throw err => (Throw err, e)
        | OutOfFuel => (OutOfFuel, e)
        end
    end.

Definition stop : Js Engine unit :=
  e ← js_get;
  (if bool_decide (is_Some (sourceNode e)) then
     js_try (stopAndDisconnect sourceNode) (fun _ => (* Already stopped *) mret tt);;
     js_modify (set_sourceNode None)
   else mret tt);;
  e ← js_get;
  (if bool_decide (is_Some (nextSourceNode e)) then
     js_try (stopAndDisconnect nextSourceNode) (fun _ => (* Already stopped *) mret tt);;
     js_modify (set_nextSourceNode None)
   else mret tt);;
  js_modify (set_isPlaying false);;
  js_modify (set_isCrossfading false);;
  js_modify (set_pauseTime 0);;
  js_modify (set_startTime 0).

(** [this.playbackRate || 1.0] *)
Definition rateOr1 (e : Engine) : Q :=
  match playbackRate e with
  | Some r => if Qeq_bool r 0 then 1.0 else r
  | None => 1.0
  end.

Definition getCurrentTime (e : Engine) : Completion Q :=
  match audioBuffer e with
  | None => Normal 0
  | Some buf =>
      if isPlaying e && bool_decide (is_Some (sourceNode e)) then
        match audioContextTime e with
        | None => Throw TypeError
        | Some now =>
            let elapsed := now - startTime e in
            let currentTime := pauseTime e + elapsed * rateOr1 e in
            Normal (Qmin currentTime (duration buf))
        end
      else Normal (pauseTime e)
  end.

End AdvancedAudioEngine.

(** ** [DeskSongApp.playTrackAt] (app.js) with the playlist it reads *)

Module App.
#[local] Open Scope Q_scope.

Record Track : Type := { path : string; name : string; track_duration : Q }.

Record PlaylistManager : Type := { tracks : list Track; currentIndex : Z }.

(** What the calls on the UI controller leave behind. *)
Record UIController : Type := {
  notifications : list (string * string);     (* message, type *)
  playButton : bool;
  trackInfo : option Track
}.

Record DeskSongApp : Type := {
  audioEngine : AudioEngine.Engine;
  playlistManager : PlaylistManager;
  uiController : UIController
}.

Definition set_audioEngine (v : AudioEngine.Engine) (a : DeskSongApp) : DeskSongApp :=
  {| audioEngine := v; playlistManager := playlistManager a;
     uiController := uiController a |}.

Definition set_playlistManager (v : PlaylistManager) (a : DeskSongApp) : DeskSongApp :=
  {| audioEngine := audioEngine a; playlistManager := v;
     uiController := uiController a |}.

Definition set_uiController (v : UIController) (a : DeskSongApp) : DeskSongApp :=
  {| audioEngine := audioEngine a; playlistManager := playlistManager a;
     uiController := v |}.

(** A call on [this.audioEngine]. *)
Definition onEngine {A} (m : Js AudioEngine.Engine A) : Js DeskSongApp A :=
  fun a =>
    let r := m (audioEngine a) in
    (r.1, set_audioEngine r.2 a).

Definition setCurrentIndex (index : Z) : Js DeskSongApp bool :=
  fun a =>
    let pm := playlistManager a in
    if bool_decide (0 <= index /\ index < Z.of_nat (length (tracks pm)))%Z then
      (Normal true, set_playlistManager {| tracks := tracks pm; currentIndex := index |} a)
    else (Normal false, a).

Definition getCurrentTrack (pm : PlaylistManager) : option Track :=
  if bool_decide (0 <= currentIndex pm /\ currentIndex pm < Z.of_nat (length (tracks pm)))%Z
  then tracks pm !! Z.to_nat (currentIndex pm)
  else None.

Definition showNotification (message type : string) : Js DeskSongApp unit :=
  js_modify (fun a =>
    let ui := uiController a in
    set_uiController {| notifications := notifications ui ++ [(message, type)];
                        playButton := playButton ui; trackInfo := trackInfo ui |} a).

Definition updateTrackInfo (track : option Track) : Js DeskSongApp unit :=
  js_modify (fun a =>
    let ui := uiController a in
    set_uiController {| notifications := notifications ui;
                        playButton := playButton ui; trackInfo := track |} a).

Definition updatePlayButton (playing : bool) : Js DeskSongApp unit :=
  js_modify (fun a =>
    let ui := uiController a in
    set_uiController {| notifications := notifications ui;
                        playButton := playing; trackInfo := trackInfo ui |} a).

Section PlayTrack.

Variable Math_pow : Q -> Q -> Q.
Variable decodeAudioData : list Z -> Completion AudioBuffer.

(** [window.electronAPI.readFile]: the file's bytes, or null. *)
Variable readFile : string -> option (list Z).

Definition playTrackAt (index : Z) : Js DeskSongApp unit :=
  ok ← setCurrentIndex index;
  if negb ok then mret tt
  else
    a ← js_get;
    match getCurrentTrack (playlistManager a) with
    | None => mret tt
    | Some track =>
        js_try
          ((* Stop current playback *)
           onEngine AudioEngine.stop;;
           (* Load new track *)
           match readFile (path track) with
           | None => js_throw (GenericError "Failed to read file")
           | Some arrayBuffer =>
               info ← onEngine (AudioEngine.loadAudioFile decodeAudioData arrayBuffer);
               (* Update track duration if not set *)
               let track :=
                 if Qeq_bool (track_duration track) 0
                 then {| path := path track; name := name track;
                         track_duration := AudioEngine.info_duration info |}
                 else track in
               js_modify (fun a =>
                 let pm := playlistManager a in
                 set_playlistManager
                   {| tracks := <[Z.to_nat (currentIndex pm) := track]> (tracks pm);
                      currentIndex := currentIndex pm |} a);;
               (* Start playing *)
               onEngine (AudioEngine.play Math_pow);;
               (* Update UI; [updatePlaylist] only redraws the list *)
               updateTrackInfo (Some track);;
               updatePlayButton true
           end)
          (fun error =>
             (* console.error('Failed to play track:', error) *)
             showNotification "Failed to play track" "error")
    end.

End PlayTrack.

End App.

(** ** The vocabulary of the properties *)

Module Props.
Import WebAudio AudioEngine.
#[local] Open Scope Q_scope.

(** *** Export container *)

(** The cursor has stored [written] at the start of a zero-filled view
    and has [room] bytes left. *)
Definition writing (c : Wav.Cursor) (written : list Z) (room : nat) : Prop :=
  Wav.view c = written ++ replicate room 0%Z /\
  Wav.pos c = Z.of_nat (length written).

Definition sample_bytes (offset : nat) (ch : list Q) : list Z :=
  Wav.le_bytes 2 (Wav.pcm16 (nth offset ch 0)).

(** *** Parameter automation *)

Definition earlier (t : Q) (evs : list AutomationEvent) : list AutomationEvent :=
  List.filter (fun ev => if Qlt_le_dec (eventTime ev) t then true else false) evs.

(** [after] is [before] with a ramp scheduled at [now]: what was due at or
    after [now] is gone, the value is pinned at [now] to what it was, and
    a linear ramp takes it to [target] in [d] seconds. *)
Definition rampScheduled (before after : AudioParam) (now target d : Q) : Prop :=
  events after =
    earlier now (events before) ++
    [SetValueAtTime (value before) now; LinearRampToValueAtTime target (now + d)] /\
  value after = value before.

Definition isRamp (before after : AudioParam) (now : Q) : Prop :=
  exists target d, 0 < d /\ rampScheduled before after now target d.

(** [after] is [before] with the value set to [target] at [now], at once. *)
Definition jumpScheduled (before after : AudioParam) (now target : Q) : Prop :=
  events after = insertEvent (SetValueAtTime target now) (events before) /\
  value after = value before.

(** The value [a] seconds into a ramp of [d] seconds from [v0] to
    [target]. *)
Definition rampValue (v0 target d a : Q) : Q :=
  if Qlt_le_dec a d then v0 + (target - v0) * (a / d) else target.

(** [this.gainNode.gain.value] *)
Definition gainValue (e : Engine) : Q :=
  match audioContext e with
  | Some ctx => value (params ctx GainNode_gain)
  | None => 0
  end.

(** The effect knobs of the transport/effect API. *)
Inductive Knob : Type :=
| Volume | ReverbMix | BassBoost | CompressorKnob | DelayMix | ChorusMix.

Definition knobSetter (k : Knob) : Q -> Engine -> Engine :=
  match k with
  | Volume => setVolume
  | ReverbMix => setReverbMix
  | BassBoost => setBassBoost
  | CompressorKnob => setCompressor
  | DelayMix => setDelayMix
  | ChorusMix => setChorusMix
  end.

(** The ramp duration each ramping setter uses, in seconds. *)
Definition rampWindow (k : Knob) : Q :=
  match k with
  | Volume => 0.05
  | ReverbMix | BassBoost => 0.1
  | DelayMix | ChorusMix => 0.12
  | CompressorKnob => 0
  end.

(** Every parameter the setter touches gets a ramp. *)
Definition knobRamps (k : Knob) (v : Q) (e : Engine) : Prop :=
  forall ctx ctx' id,
    audioContext e = Some ctx -> audioContext (knobSetter k v e) = Some ctx' ->
    params ctx' id = params ctx id \/
    isRamp (params ctx id) (params ctx' id) (currentTime ctx).

(** *** Engines in use *)

(** An engine whose source node, if any, was created from its context. *)
Definition sourceHasContext (e : Engine) : Prop :=
  is_Some (sourceNode e) -> is_Some (audioContext e).

(** [loadAudioFile] hands its caller a value. *)
Definition loadReturns (decode : list Z -> Completion AudioBuffer) (bytes : list Z)
    (e : Engine) : Prop :=
  exists info e', loadAudioFile decode bytes e = (Normal info, e').

(** *** Sample data for the examples *)

Definition demoImpulse : AudioBuffer :=
  {| numberOfChannels := 2; buf_length := 2; sampleRate := 1;
     channelData := [[1; 0]; [0.95; 0]] |}.

(** A mono track of 100 seconds. *)
Definition demoTrack : AudioBuffer :=
  {| numberOfChannels := 1; buf_length := 100; sampleRate := 1;
     channelData := [replicate 100 0] |}.

(** Two channels, three frames, with samples inside and outside [-1, 1]. *)
Definition demoStereo : AudioBuffer :=
  {| numberOfChannels := 2; buf_length := 3; sampleRate := 44100;
     channelData := [[0.5; -0.5; 2]; [0; -3; 1 # 3]] |}.

(** The legacy rate branch is never taken ([preservePitch] stays true), so
    any function stands for [Math.pow] in the examples. *)
Definition demoPow (base exponent : Q) : Q := 1.

Definition demoDecode (bytes : list Z) : Completion AudioBuffer :=
  match bytes with
  | [] => Throw EncodingError
  | _ => Normal demoTrack
  end.

Definition demoRender (g : OfflineGraph) : Completion AudioBuffer :=
  Normal (sourceBuffer g).

Definition demoEngine : Engine := newEngine (Some (0, Running)) demoImpulse.

Definition demoLoaded : Engine := (loadAudioFile demoDecode [82%Z] demoEngine).2.

Definition demoApp : App.DeskSongApp :=
  {| App.audioEngine := demoLoaded;
     App.playlistManager :=
       {| App.tracks := [{| App.path := "a.mp3"; App.name := "a";
                            App.track_duration := 0 |}];
          App.currentIndex := -1 |};
     App.uiController :=
       {| App.notifications := []; App.playButton := false; App.trackInfo := None |} |}.

Definition demoReadFile (path : string) : option (list Z) := Some [].

Definition demoAdvanced : AdvancedAudioEngine.Engine :=
  {| AdvancedAudioEngine.audioContextTime := Some 7;
     AdvancedAudioEngine.sourceNode := Some (createBufferSource 0);
     AdvancedAudioEngine.nextSourceNode := None;
     AdvancedAudioEngine.audioBuffer := Some demoTrack;
     AdvancedAudioEngine.nextAudioBuffer := None;
     AdvancedAudioEngine.startTime := 2;
     AdvancedAudioEngine.pauseTime := 0;
     AdvancedAudioEngine.isPlaying := true;
     AdvancedAudioEngine.isCrossfading := false;
     AdvancedAudioEngine.playbackRate := None |}.

End Props.

(** ** [AudioEngine.setPlaybackRate] and [setPitchShift]: throttled updates *)

Module Throttle.
Import AudioEngine.

(** The engine with the fields of [this] that throttle the effect
    updates, and the event loop's timers that this code has set and that
    have neither fired nor been cleared: the id [setTimeout] returned and
    the time (in ms, on the clock of [Date.now()]) at which they are due. *)
Record ThrottledEngine : Type := {
  engine : Engine;
  lastEffectUpdate : Z;
  effectUpdateThrottle : Z;
  pendingEffectUpdate : option Z;
  timers : list (Z * Z);
  nextTimerId : Z
}.

Definition set_engine (v : Engine) (t : ThrottledEngine) : ThrottledEngine :=
  {| engine := v; lastEffectUpdate := lastEffectUpdate t;
     effectUpdateThrottle := effectUpdateThrottle t;
     pendingEffectUpdate := pendingEffectUpdate t; timers := timers t;
     nextTimerId := nextTimerId t |}.

Definition set_lastEffectUpdate (v : Z) (t : ThrottledEngine) : ThrottledEngine :=
  {| engine := engine t; lastEffectUpdate := v;
     effectUpdateThrottle := effectUpdateThrottle t;
     pendingEffectUpdate := pendingEffectUpdate t; timers := timers t;
     nextTimerId := nextTimerId t |}.

Definition set_pendingEffectUpdate (v : option Z) (t : ThrottledEngine) : ThrottledEngine :=
  {| engine := engine t; lastEffectUpdate := lastEffectUpdate t;
     effectUpdateThrottle := effectUpdateThrottle t;
     pendingEffectUpdate := v; timers := timers t; nextTimerId := nextTimerId t |}.

Definition set_timers (v : list (Z * Z)) (t : ThrottledEngine) : ThrottledEngine :=
  {| engine := engine t; lastEffectUpdate := lastEffectUpdate t;
     effectUpdateThrottle := effectUpdateThrottle t;
     pendingEffectUpdate := pendingEffectUpdate t; timers := v;
     nextTimerId := nextTimerId t |}.

(** The constructor's initialisers, around an engine [e]; timer ids start
    at 1. *)
Definition constructed (e : Engine) : ThrottledEngine :=
  {| engine := e; lastEffectUpdate := 0; effectUpdateThrottle := 20;
     pendingEffectUpdate := None; timers := []; nextTimerId := 1 |}.

(** A method of the engine proper. *)
Definition onEngine {A} (m : Js Engine A) : Js ThrottledEngine A :=
  fun t =>
    let r := m (engine t) in
    (r.1, set_engine r.2 t).

(** [setTimeout(callback, delay)] called at [now]: a fresh id. *)
Definition setTimeout (now delay : Z) : Js ThrottledEngine Z :=
  fun t =>
    (Normal (nextTimerId t),
     {| engine := engine t; lastEffectUpdate := lastEffectUpdate t;
        effectUpdateThrottle := effectUpdateThrottle t;
        pendingEffectUpdate := pendingEffectUpdate t;
        timers := timers t ++ [(nextTimerId t, now + delay)];
        nextTimerId := nextTimerId t + 1 |}).

Definition clearTimeout (id : Z) : Js ThrottledEngine unit :=
  js_modify (fun t => set_timers (List.filter (fun timer => negb (timer.1 =? id)) (timers t)) t).

Section ThrottledMethods.

Variable Math_pow : Q -> Q -> Q.

(** [now] is what [Date.now()] returns. *)
Definition updatePlaybackRateThrottled (now : Z) : Js ThrottledEngine unit :=
  t ← js_get;
  if bool_decide (now - lastEffectUpdate t < effectUpdateThrottle t) then
    (* Schedule update *)
    match pendingEffectUpdate t with
    | Some id => if id =? 0 then mret tt else clearTimeout id
    | None => mret tt
    end;;
    id ← setTimeout now (effectUpdateThrottle t);
    js_modify (set_pendingEffectUpdate (Some id))
  else
    onEngine (applyPlaybackRate Math_pow);;
    js_modify (set_lastEffectUpdate now).

(** The callback of that timer, run by the event loop when timer [id]
    is due; [now] is what [Date.now()] returns then. *)
Definition effectUpdateDue (id now : Z) : Js ThrottledEngine unit :=
  js_modify (fun t => set_timers (List.filter (fun timer => negb (timer.1 =? id)) (timers t)) t);;
  onEngine (applyPlaybackRate Math_pow);;
  js_modify (set_lastEffectUpdate now);;
  js_modify (set_pendingEffectUpdate None).

Definition setPlaybackRate (rate : Q) (now : Z) : Js ThrottledEngine unit :=
  onEngine (js_modify (set_playbackRate rate));;
  updatePlaybackRateThrottled now.

Definition setPitchShift (semitones : Q) (now : Z) : Js ThrottledEngine unit :=
  onEngine (js_modify (set_pitchShift semitones));;
  updatePlaybackRateThrottled now.

End ThrottledMethods.

End Throttle.

(** ** The end of a source *)

Module Playback.
Import AudioEngine.
#[local] Open Scope Q_scope.

(** The handler [play()] installs as [sourceNode.onended] (lines
    259-267).  The browser calls it when a source it was installed on has
    played its buffer out or has been stopped.  [onEnded] is the callback
    in [this.onEnded], [None] while there is none. *)
Definition onended (onEnded : option (Js Engine unit)) : Js Engine unit :=
  e ← js_get;
  if isPlaying e then
    stop;;
    match onEnded with
    | Some callback => callback
    | None => mret tt
    end
  else mret tt.

(** The engine left to itself for [dt] seconds.  [ended] is the time,
    from now, at which the browser delivers an [ended] event, [None] if
    it delivers none in these [dt] seconds: the clock runs up to the
    event, the handler runs, and the clock runs on. *)
Definition elapse (onEnded : option (Js Engine unit)) (ended : option Q) (dt : Q)
  : Js Engine unit :=
  match ended with
  | Some t =>
      if Qle_bool 0 t && Qle_bool t dt then
        js_modify (advance t);;
        onended onEnded;;
        js_modify (advance (dt - t))
      else js_modify (advance dt)
  | None => js_modify (advance dt)
  end.

End Playback.

(** ** [AdvancedAudioEngine]: [pause], [seek] and the equaliser *)

Module AdvancedTransport.
Import WebAudio AdvancedAudioEngine.
#[local] Open Scope Q_scope.

(** [this.audioContext.currentTime]; a TypeError on a null context. *)
Definition getContextTime : Js Engine Q :=
  fun e =>
    match audioContextTime e with
    | Some now => (Normal now, e)
    | None => (Throw TypeError, e)
    end.

Definition pause : Js Engine unit :=
  e ← js_get;
  if negb (isPlaying e) || negb (bool_decide (is_Some (sourceNode e))) then mret tt
  else
    now ← getContextTime;
    let elapsed := now - startTime e in
    js_modify (set_pauseTime (pauseTime e + elapsed * rateOr1 e));;
    js_try
      (stopAndDisconnect sourceNode;;
       e ← js_get;
       if bool_decide (is_Some (nextSourceNode e))
       then stopAndDisconnect nextSourceNode
       else mret tt)
      (fun _ => (* Already stopped *) mret tt);;
    js_modify (set_sourceNode None);;
    js_modify (set_nextSourceNode None);;
    js_modify (set_isPlaying false).

(** [seek]; the result lists the timers it sets with [setTimeout]. *)
Definition seek (time : Q) : Js Engine (list AudioEngine.Timeout) :=
  e ← js_get;
  match audioBuffer e with
  | None => mret []
  | Some buf =>
      let wasPlaying := isPlaying e in
      let targetTime := Qmax 0 (Qmin time (duration buf)) in
      (if isPlaying e then pause else mret tt);;
      js_modify (set_pauseTime targetTime);;
      if wasPlaying
      then mret [{| AudioEngine.delayMs := 10; AudioEngine.callback := AudioEngine.CallPlay |}]
      else mret []
  end.

End AdvancedTransport.

Module Equalizer.
Import WebAudio.
#[local] Open Scope Q_scope.

(** The equaliser's part of [this]: [eqGains], the [gain] parameter of
    each filter of [eqFilters], and the context's clock ([None] while
    [audioContext] is null).  [eqGains] has ten entries from the
    constructor on, [eqFilters] none or ten, so that an index that passes
    the test of [setEQBand] is inside both arrays. *)
Record Engine : Type := {
  eqGains : list Q;
  eqFilters : list AudioParam;
  audioContextTime : option Q
}.

(** The constructor's [new Array(10).fill(0)], no filter yet. *)
Definition constructed : Engine :=
  {| eqGains := replicate 10 0; eqFilters := []; audioContextTime := None |}.

Definition eqFrequencies : list Q := [32; 64; 125; 250; 500; 1000; 2000; 4000; 8000; 16000].

(** [initializeParametricEQ], run once the context exists: one filter
    per frequency, its gain at 0. *)
Definition initializeParametricEQ (now : Q) (e : Engine) : Engine :=
  {| eqGains := eqGains e;
     eqFilters := map (fun freq => setValue 0 (newParam 0 now)) eqFrequencies;
     audioContextTime := Some now |}.

Definition setEQBand (index : Z) (gain : Q) : Js Engine unit :=
  fun e =>
    if bool_decide (index >= 0 /\ index < Z.of_nat (length (eqFilters e)))%Z then
      match audioContextTime e, eqFilters e !! Z.to_nat index with
      | Some now, Some filterGain =>
          let filterGain := cancelScheduledValues now filterGain in
          let filterGain := setValueAtTime (value filterGain) now filterGain in
          let filterGain := linearRampToValueAtTime gain (now + 0.1) filterGain in
          (Normal tt,
           {| eqGains := <[Z.to_nat index := gain]> (eqGains e);
              eqFilters := <[Z.to_nat index := filterGain]> (eqFilters e);
              audioContextTime := audioContextTime e |})
      | _, _ =>
          (* [this.audioContext.currentTime] on null; [eqGains] is assigned before *)
          (Throw TypeError,
           {| eqGains := <[Z.to_nat index := gain]> (eqGains e);
              eqFilters := eqFilters e; audioContextTime := audioContextTime e |})
      end
    else (Normal tt, e).

Definition presets : gmap string (list Q) :=
  list_to_map
    [ ("flat"%string, [0; 0; 0; 0; 0; 0; 0; 0; 0; 0]);
      ("bass"%string, [6; 5; 4; 2; 0; -1; -2; -2; -2; -2]);
      ("treble"%string, [-2; -2; -1; 0; 1; 2; 3; 4; 5; 6]);
      ("vocal"%string, [-2; -1; 0; 2; 4; 4; 3; 2; 1; 0]);
      ("classical"%string, [0; 0; 0; 0; 0; 0; -2; -2; -2; -3]);
      ("rock"%string, [5; 4; 3; 1; -1; 0; 1; 3; 4; 5]);
      ("electronic"%string, [6; 5; 2; 0; -2; 2; 0; 1; 4; 5]);
      ("jazz"%string, [3; 2; 1; 2; -2; -2; 0; 1; 2; 3]) ].

(** [gains.forEach((gain, index) => this.setEQBand(index, gain))] *)
Fixpoint forEachBand (gains : list Q) (index : Z) : Js Engine unit :=
  match gains with
  | [] => mret tt
  | gain :: rest => setEQBand index gain;; forEachBand rest (index + 1)
  end.

(** The properties every object inherits from [Object.prototype].
    Looked up on [presets], each of them gives a function or an object:
    a value that is not falsy and has no [forEach]. *)
Definition inheritedProperties : list string :=
  [ "constructor"; "hasOwnProperty"; "isPrototypeOf"; "propertyIsEnumerable";
    "toLocaleString"; "toString"; "valueOf"; "__proto__";
    "__defineGetter__"; "__defineSetter__"; "__lookupGetter__";
    "__lookupSetter__" ]%string.

(** [presets[preset] || presets.flat]; [None] when the value found is an
    inherited property, not an array of gains. *)
Definition presetGains (preset : string) : option (list Q) :=
  match presets !! preset with
  | Some gains => Some gains
  | None =>
      if bool_decide (preset ∈ inheritedProperties) then None
      else presets !! "flat"%string
  end.

(** [gains.forEach] is not a function on an inherited property. *)
Definition setEQPreset (preset : string) : Js Engine unit :=
  match presetGains preset with
  | Some gains => forEachBand gains 0
  | None => js_throw TypeError
  end.

(** The test of [connectAudioChain]: [this.eqGains.some(gain => gain !== 0)]. *)
Definition eqActive (e : Engine) : bool :=
  existsb (fun gain => negb (Qeq_bool gain 0)) (eqGains e).

End Equalizer.

(** ** [PlaylistManager] (the playlist script)

    The whole class; [App.PlaylistManager] above is the part of it that
    [playTrackAt] reads. *)

Module Playlist.

Record Track : Type := {
  track_id : Q;
  path : string;
  name : string;
  artist : string;
  track_duration : Q;
  track_size : Z
}.

(** The [metadata] argument of [addTrack]: each property may be missing. *)
Record Metadata : Type := {
  meta_name : option string;
  meta_artist : option string;
  meta_duration : option Q;
  meta_size : option Z
}.

(** The fields of [this].  [randomCalls] counts the values [Math.random]
    has handed out, so that the next one is [Math_random randomCalls]. *)
Record PlaylistManager : Type := {
  tracks : list Track;
  currentIndex : Z;
  shuffleMode : bool;
  repeatMode : string;          (* 'none', 'one', 'all' *)
  shuffledIndices : list Z;
  randomCalls : nat
}.

Definition set_tracks (v : list Track) (pm : PlaylistManager) : PlaylistManager :=
  {| tracks := v; currentIndex := currentIndex pm; shuffleMode := shuffleMode pm;
     repeatMode := repeatMode pm; shuffledIndices := shuffledIndices pm;
     randomCalls := randomCalls pm |}.

Definition set_currentIndex (v : Z) (pm : PlaylistManager) : PlaylistManager :=
  {| tracks := tracks pm; currentIndex := v; shuffleMode := shuffleMode pm;
     repeatMode := repeatMode pm; shuffledIndices := shuffledIndices pm;
     randomCalls := randomCalls pm |}.

Definition set_shuffleMode (v : bool) (pm : PlaylistManager) : PlaylistManager :=
  {| tracks := tracks pm; currentIndex := currentIndex pm; shuffleMode := v;
     repeatMode := repeatMode pm; shuffledIndices := shuffledIndices pm;
     randomCalls := randomCalls pm |}.

Definition set_repeatMode (v : string) (pm : PlaylistManager) : PlaylistManager :=
  {| tracks := tracks pm; currentIndex := currentIndex pm; shuffleMode := shuffleMode pm;
     repeatMode := v; shuffledIndices := shuffledIndices pm;
     randomCalls := randomCalls pm |}.

Definition set_shuffledIndices (v : list Z) (pm : PlaylistManager) : PlaylistManager :=
  {| tracks := tracks pm; currentIndex := currentIndex pm; shuffleMode := shuffleMode pm;
     repeatMode := repeatMode pm; shuffledIndices := v;
     randomCalls := randomCalls pm |}.

Definition set_randomCalls (v : nat) (pm : PlaylistManager) : PlaylistManager :=
  {| tracks := tracks pm; currentIndex := currentIndex pm; shuffleMode := shuffleMode pm;
     repeatMode := repeatMode pm; shuffledIndices := shuffledIndices pm;
     randomCalls := v |}.

Definition constructed : PlaylistManager :=
  {| tracks := []; currentIndex := -1; shuffleMode := false; repeatMode := "none";
     shuffledIndices := []; randomCalls := 0 |}.

(** *** [getFileNameFromPath] *)

Definition backslash : ascii := "092"%char.
Definition slash : ascii := "/"%char.
Definition dot : ascii := "."%char.

(** [s.replace(/\\/g, '/')] *)
Fixpoint replaceBackslashes (s : string) : string :=
  match s with
  | EmptyString => EmptyString
  | String c s' =>
      String (if Ascii.eqb c backslash then slash else c) (replaceBackslashes s')
  end.

(** [s.split('/')]: the pieces between the separators, at least one. *)
Fixpoint split (sep : ascii) (s : string) : list string :=
  match s with
  | EmptyString => [EmptyString]
  | String c s' =>
      if Ascii.eqb c sep then EmptyString :: split sep s'
      else
        match split sep s' with
        | piece :: pieces => String c piece :: pieces
        | [] => [String c EmptyString]
        end
  end.

(** Whether [[^/.]+$] matches the whole of [s]: one character or more,
    none of them a slash or a dot. *)
Fixpoint isExtensionBody (s : string) : bool :=
  match s with
  | EmptyString => false
  | String c EmptyString => negb (Ascii.eqb c slash) && negb (Ascii.eqb c dot)
  | String c s' => negb (Ascii.eqb c slash) && negb (Ascii.eqb c dot) && isExtensionBody s'
  end.

(** [s.replace(/\.[^/.]+$/, '')]: the first position where the pattern
    matches is cut off with what follows; without a match [s] is
    returned. *)
Fixpoint removeExtension (s : string) : string :=
  match s with
  | EmptyString => EmptyString
  | String c s' =>
      if Ascii.eqb c dot && isExtensionBody s' then EmptyString
      else String c (removeExtension s')
  end.

Definition getFileNameFromPath (filePath : string) : string :=
  let parts := split slash (replaceBackslashes filePath) in
  let fileName := List.last parts EmptyString in
  (* Remove extension *)
  removeExtension fileName.

(** [a || b] on strings and on numbers: [b] when [a] is missing, empty or
    zero. *)
Definition orString (a : option string) (b : string) : string :=
  match a with
  | Some s => if String.eqb s "" then b else s
  | None => b
  end.

Definition orQ (a : option Q) (b : Q) : Q :=
  match a with
  | Some x => if Qeq_bool x 0 then b else x
  | None => b
  end.

Definition orZ (a : option Z) (b : Z) : Z :=
  match a with
  | Some x => if Z.eqb x 0 then b else x
  | None => b
  end.

(** *** Reading *)

Definition getTrackAt (index : Z) (pm : PlaylistManager) : option Track :=
  if bool_decide (index >= 0 /\ index < Z.of_nat (length (tracks pm)))
  then tracks pm !! Z.to_nat index
  else None.

Definition getCurrentTrack (pm : PlaylistManager) : option Track :=
  if bool_decide (currentIndex pm >= 0 /\ currentIndex pm < Z.of_nat (length (tracks pm)))
  then tracks pm !! Z.to_nat (currentIndex pm)
  else None.

Definition getTrackCount (pm : PlaylistManager) : Z := Z.of_nat (length (tracks pm)).

Definition getTotalDuration (pm : PlaylistManager) : Q :=
  fold_left (fun total track => (total + orQ (Some (track_duration track)) 0)%Q)
            (tracks pm) 0%Q.

Section Shuffling.

(** The successive values of [Math.random()], each in [0, 1). *)
Variable Math_random : nat -> Q.

(** [[a[i], a[j]] = [a[j], a[i]]].  With [Math.random()] in [0, 1) both
    indices are inside the array, which is the case modelled. *)
Definition swap (i j : nat) (a : list Z) : list Z :=
  match a !! i, a !! j with
  | Some x, Some y => <[j := x]> (<[i := y]> a)
  | _, _ => a
  end.

(** [for (let i = start; i > 0; i--) { j = floor(random() * (i + 1)); swap }] *)
Fixpoint fisherYates (i : nat) (a : list Z) (calls : nat) : list Z * nat :=
  match i with
  | O => (a, calls)
  | S i' =>
      let j := Z.to_nat (Qfloor (Math_random calls * inject_Z (Z.of_nat i + 1))) in
      fisherYates i' (swap i j a) (S calls)
  end.

Definition updateShuffleOrder (pm : PlaylistManager) : PlaylistManager :=
  let indices :=
    List.filter (fun i => negb (i =? currentIndex pm))
                (map Z.of_nat (seq 0 (length (tracks pm)))) in
  (* Fisher-Yates shuffle *)
  let r := fisherYates (length indices - 1) indices (randomCalls pm) in
  set_randomCalls r.2 (set_shuffledIndices r.1 pm).

(** *** Editing *)

(** [now] is what [Date.now()] returns. *)
Definition addTrack (now : Q) (filePath : string) (metadata : Metadata)
    (pm : PlaylistManager) : Track * PlaylistManager :=
  let track :=
    {| track_id := (now + Math_random (randomCalls pm))%Q;
       path := filePath;
       name := orString (meta_name metadata) (getFileNameFromPath filePath);
       artist := orString (meta_artist metadata) "Unknown Artist";
       track_duration := orQ (meta_duration metadata) 0;
       track_size := orZ (meta_size metadata) 0 |} in
  let pm := set_randomCalls (S (randomCalls pm)) pm in
  let pm := set_tracks (tracks pm ++ [track]) pm in
  let pm := if shuffleMode pm then updateShuffleOrder pm else pm in
  (track, pm).

Definition removeTrack (index : Z) (pm : PlaylistManager) : bool * PlaylistManager :=
  if bool_decide (index < 0 \/ index >= Z.of_nat (length (tracks pm))) then (false, pm)
  else
    let pm := set_tracks (delete (Z.to_nat index) (tracks pm)) pm in
    (* Adjust current index if necessary *)
    let pm :=
      if bool_decide (index < currentIndex pm) then
        set_currentIndex (currentIndex pm - 1) pm
      else if bool_decide (index = currentIndex pm) then
        (* If we removed the current track, reset *)
        if bool_decide (currentIndex pm >= Z.of_nat (length (tracks pm)))
        then set_currentIndex (Z.of_nat (length (tracks pm)) - 1) pm
        else pm
      else pm in
    let pm := if shuffleMode pm then updateShuffleOrder pm else pm in
    (true, pm).

Definition clearPlaylist (pm : PlaylistManager) : PlaylistManager :=
  set_shuffledIndices [] (set_currentIndex (-1) (set_tracks [] pm)).

Definition moveTrack (fromIndex toIndex : Z) (pm : PlaylistManager)
  : bool * PlaylistManager :=
  if bool_decide (fromIndex < 0 \/ fromIndex >= Z.of_nat (length (tracks pm)) \/
                  toIndex < 0 \/ toIndex >= Z.of_nat (length (tracks pm)))
  then (false, pm)
  else
    match tracks pm !! Z.to_nat fromIndex with
    | None => (false, pm)                      (* excluded by the test above *)
    | Some track =>
        let rest := delete (Z.to_nat fromIndex) (tracks pm) in
        let pm' := set_tracks (take (Z.to_nat toIndex) rest ++ track ::
                               drop (Z.to_nat toIndex) rest) pm in
        (* Adjust current index *)
        let pm' :=
          if bool_decide (fromIndex = currentIndex pm') then set_currentIndex toIndex pm'
          else if bool_decide (fromIndex < currentIndex pm' /\ toIndex >= currentIndex pm')
          then set_currentIndex (currentIndex pm' - 1) pm'
          else if bool_decide (fromIndex > currentIndex pm' /\ toIndex <= currentIndex pm')
          then set_currentIndex (currentIndex pm' + 1) pm'
          else pm' in
        (true, pm')
    end.

Definition setCurrentIndex (index : Z) (pm : PlaylistManager) : bool * PlaylistManager :=
  if bool_decide (index >= 0 /\ index < Z.of_nat (length (tracks pm)))
  then (true, set_currentIndex index pm)
  else (false, pm).

(** *** Moving through the list *)

Definition getNextShuffleIndex (pm : PlaylistManager) : Z * PlaylistManager :=
  let pm := if bool_decide (length (shuffledIndices pm) = 0%nat)
            then updateShuffleOrder pm else pm in
  match shuffledIndices pm with
  | [] => (currentIndex pm, pm)               (* Only one track or no tracks *)
  | nextIndex :: rest =>
      let pm := set_shuffledIndices rest pm in
      let pm := if bool_decide (length (shuffledIndices pm) = 0%nat) &&
                   String.eqb (repeatMode pm) "all"
                then updateShuffleOrder pm else pm in
      (nextIndex, pm)
  end.

Definition getPreviousShuffleIndex (pm : PlaylistManager) : Z * PlaylistManager :=
  (* In shuffle mode, previous goes back in play history *)
  (* For simplicity, we'll just go to a random track *)
  getNextShuffleIndex pm.

Definition next (pm : PlaylistManager) : option Track * PlaylistManager :=
  if bool_decide (length (tracks pm) = 0%nat) then (None, pm)
  else if shuffleMode pm then
    let r := getNextShuffleIndex pm in
    let pm := set_currentIndex r.1 r.2 in
    (getCurrentTrack pm, pm)
  else
    let nextIndex := currentIndex pm + 1 in
    if bool_decide (nextIndex >= Z.of_nat (length (tracks pm))) then
      if String.eqb (repeatMode pm) "all" then
        let pm := set_currentIndex 0 pm in
        (getCurrentTrack pm, pm)
      else (None, pm)                         (* End of playlist *)
    else
      let pm := set_currentIndex nextIndex pm in
      (getCurrentTrack pm, pm).

Definition previous (pm : PlaylistManager) : option Track * PlaylistManager :=
  if bool_decide (length (tracks pm) = 0%nat) then (None, pm)
  else if shuffleMode pm then
    let r := getPreviousShuffleIndex pm in
    let pm := set_currentIndex r.1 r.2 in
    (getCurrentTrack pm, pm)
  else
    let prevIndex := currentIndex pm - 1 in
    let prevIndex :=
      if bool_decide (prevIndex < 0) then
        if String.eqb (repeatMode pm) "all"
        then Z.of_nat (length (tracks pm)) - 1
        else 0                                (* Stay at beginning *)
      else prevIndex in
    let pm := set_currentIndex prevIndex pm in
    (getCurrentTrack pm, pm).

Definition setShuffleMode (enabled : bool) (pm : PlaylistManager) : PlaylistManager :=
  let pm := set_shuffleMode enabled pm in
  if enabled then updateShuffleOrder pm else set_shuffledIndices [] pm.

Definition setRepeatMode (mode : string) (pm : PlaylistManager) : PlaylistManager :=
  set_repeatMode mode pm.

End Shuffling.

End Playlist.

(** ** More of [DeskSongApp] (app.js): play/pause, the progress bar, the export *)

Module AppActions.
Import App.
#[local] Open Scope Q_scope.

(** [AudioEngine.getDuration] *)
Definition getDuration (e : AudioEngine.Engine) : Q :=
  (* Always return the original file duration, regardless of playback rate *)
  match AudioEngine.audioBuffer e with
  | Some buf => duration buf
  | None => 0
  end.

(** The calls of [window.electronAPI.writeFile] so far: path and bytes. *)
Definition Disk : Type := list (string * list Z).

(** The app together with the files it has asked the main process to
    write. *)
Definition World : Type := DeskSongApp * Disk.

Definition onApp {A} (m : Js DeskSongApp A) : Js World A :=
  fun w =>
    let r := m w.1 in
    (r.1, (r.2, w.2)).

Section Actions.

Variable Math_pow : Q -> Q -> Q.
Variable decodeAudioData : list Z -> Completion AudioBuffer.
Variable readFile : string -> option (list Z).
Variable startRendering : AudioEngine.OfflineGraph -> Completion AudioBuffer.

(** [window.electronAPI.saveAudioFile]: the path chosen in the save
    dialog, or null when it was cancelled. *)
Variable saveAudioFile : string -> option string.

(** [window.electronAPI.writeFile]: whether the main process wrote the
    file. *)
Variable writeFile : string -> list Z -> bool.

(** [Buffer.from(bytes)] as the page's script finds it: the copy of the
    bytes where a [Buffer] is in scope, and the ReferenceError thrown
    where none is (the window is created with [nodeIntegration: false]
    and [contextIsolation: true]). *)
Variable Buffer_from : list Z -> Completion (list Z).

Definition togglePlayPause : Js DeskSongApp unit :=
  a ← js_get;
  match AudioEngine.audioBuffer (audioEngine a) with
  | None =>
      (* If no track loaded, try to play first track *)
      if bool_decide (0 < length (tracks (playlistManager a)))%nat
      then playTrackAt Math_pow decodeAudioData readFile 0
      else mret tt
  | Some _ =>
      if AudioEngine.isPlaying (audioEngine a) then
        onEngine AudioEngine.pause;;
        updatePlayButton false
      else
        onEngine (AudioEngine.play Math_pow);;
        updatePlayButton true
  end.

(** [uiController.onSeek], called with the fraction of the progress bar
    that was clicked. *)
Definition onSeek (percent : Q) : Js DeskSongApp unit :=
  a ← js_get;
  let duration := getDuration (audioEngine a) in
  if Qlt_le_dec 0 duration then
    let time := duration * percent in
    onEngine (AudioEngine.seek time)
  else mret tt.

(** [UIController.handleProgressClick]: [clientX] is where the click was,
    [left] and [width] are the progress bar's rectangle, of a width
    other than 0 (the division of [Q] is total; JavaScript's gives NaN or
    an infinity there). *)
Definition handleProgressClick (clientX left width : Q) : Js DeskSongApp unit :=
  let percent := Qmax 0 (Qmin 1 ((clientX - left) / width)) in
  onSeek percent.

(** [exportAudio]; [fuel] bounds the [while] loop of [audioBufferToWav]. *)
Definition exportAudio (fuel : nat) : Js World unit :=
  w ← js_get;
  match AudioEngine.audioBuffer (audioEngine w.1) with
  | None => onApp (showNotification "No audio loaded" "error")
  | Some _ =>
      let track := getCurrentTrack (playlistManager w.1) in
      let defaultName :=
        match track with
        | Some track => (name track ++ "_processed.wav")%string
        | None => "processed_audio.wav"%string
        end in
      match saveAudioFile defaultName with
      | None => mret tt
      | Some savePath =>
          if String.eqb savePath "" then mret tt   (* [!savePath] *)
          else
          js_try
            (onApp (showNotification "Exporting audio..." "info");;
             processedBuffer ← onApp (fun a =>
               let r := AudioEngine.exportProcessedAudio Math_pow startRendering true
                          (audioEngine a) in
               (r.1.1, set_audioEngine r.2 a));
             (* Convert AudioBuffer to WAV *)
             wavBuffer ← js_lift
               match processedBuffer with
               | Some buffer => Wav.audioBufferToWav fuel buffer
               | None => Throw TypeError            (* [buffer.length] of null *)
               end;
             (* Save file *)
             data ← js_lift (Buffer_from wavBuffer);
             success ← (fun w : World =>
               (Normal (writeFile savePath data),
                (w.1, w.2 ++ [(savePath, data)])));
             if success : bool
             then onApp (showNotification "Audio exported successfully" "success")
             else js_throw (GenericError "Failed to write file"))
            (fun error =>
               (* console.error('Export failed:', error) *)
               onApp (showNotification "Export failed" "error"))
      end
  end.

End Actions.

End AppActions.

(** ** The vocabulary of the further properties *)

Module Notions.

(** *** Playing and exporting a track *)


(** The file name the save dialog proposes. *)
Definition exportName (a : App.DeskSongApp) : string :=
  match App.getCurrentTrack (App.playlistManager a) with
  | Some track => (App.name track ++ "_processed.wav")%string
  | None => "processed_audio.wav"%string
  end.

(** *** The playlist *)

(** The current index is -1 (nothing selected) or inside the list. *)
Definition indexInRange (pm : Playlist.PlaylistManager) : Prop :=
  -1 <= Playlist.currentIndex pm < Z.of_nat (length (Playlist.tracks pm)).

(** The indices of the tracks other than the current one, in order. *)
Definition otherIndices (pm : Playlist.PlaylistManager) : list Z :=
  List.filter (fun i => negb (i =? Playlist.currentIndex pm))
              (map Z.of_nat (seq 0 (length (Playlist.tracks pm)))).

(** The shuffle order is empty outside shuffle mode and holds indices of
    the list only. *)
Definition shuffleInRange (pm : Playlist.PlaylistManager) : Prop :=
  (Playlist.shuffleMode pm = false -> Playlist.shuffledIndices pm = []) /\
  Forall (fun i => 0 <= i < Z.of_nat (length (Playlist.tracks pm)))
         (Playlist.shuffledIndices pm).

Definition consistent (pm : Playlist.PlaylistManager) : Prop :=
  indexInRange pm /\ shuffleInRange pm.

(** The indices [next()] selects when it is called [n] times in a row. *)
Fixpoint tour (Math_random : nat -> Q) (n : nat) (pm : Playlist.PlaylistManager)
  : list Z :=
  match n with
  | O => []
  | S n' =>
      let pm' := (Playlist.next Math_random pm).2 in
      Playlist.currentIndex pm' :: tour Math_random n' pm'
  end.

(** *** Paths *)

(** Every character of [s] passes [p]. *)
Fixpoint allChars (p : ascii -> bool) (s : string) : bool :=
  match s with
  | EmptyString => true
  | String c s' => p c && allChars p s'
  end.

Definition isSeparator (c : ascii) : bool :=
  Ascii.eqb c Playlist.slash || Ascii.eqb c Playlist.backslash.

(** A file name: no slash and no backslash in it. *)
Definition isFileName (s : string) : bool := allChars (fun c => negb (isSeparator c)) s.

(** An extension: one character or more, no dot and no separator. *)
Definition isExtension (s : string) : bool :=
  negb (String.eqb s "") &&
  allChars (fun c => negb (isSeparator c) && negb (Ascii.eqb c Playlist.dot)) s.

(** *** Samples *)

(** A 16-bit word read as a signed integer. *)
Definition int16 (u : Z) : Z := if u <? 32768 then u else u - 65536.

(** The sample scaled as [audioBufferToWav] scales it. *)
Definition scaled (x : Q) : Q :=
  let s := Qmax (-1) (Qmin 1 x) in
  if Qlt_le_dec s 0 then (s * 32768)%Q else (s * 32767)%Q.

(** *** Throttled updates *)

(** The live timers are exactly the pending update, if any. *)
Definition timersMatch (t : Throttle.ThrottledEngine) : Prop :=
  0 < Throttle.nextTimerId t /\
  match Throttle.pendingEffectUpdate t with
  | None => Throttle.timers t = []
  | Some id =>
      0 < id < Throttle.nextTimerId t /\ exists due, Throttle.timers t = [(id, due)]
  end.

(** The rate in use is the one the speed and pitch fields ask for. *)
Definition upToDate (Math_pow : Q -> Q -> Q) (e : AudioEngine.Engine) : Prop :=
  AudioEngine.actualPlaybackRate e =
  AudioEngine.actualPlaybackRate (AudioEngine.updateActualPlaybackRate Math_pow e).

(** *** Sample data for the examples *)

(** The demo track five seconds into its playback. *)
Definition demoPlaying : AudioEngine.Engine :=
  AudioEngine.advance 5 (AudioEngine.play Props.demoPow Props.demoLoaded).2.


Definition demoSave (defaultName : string) : option string := Some "out.wav"%string.

Definition demoWrite (path : string) (data : list Z) : bool := true.

Definition demoBufferFrom (bytes : list Z) : Completion (list Z) := Normal bytes.

(** A page without [Buffer]: the ReferenceError of [Buffer.from]. *)
Definition demoBufferMissing (bytes : list Z) : Completion (list Z) :=
  Throw (GenericError "Buffer is not defined").

Definition demoRandom (call : nat) : Q := 1 # 2.

Definition demoSong (n : string) : Playlist.Track :=
  {| Playlist.track_id := 0; Playlist.path := n; Playlist.name := n;
     Playlist.artist := "Unknown Artist"; Playlist.track_duration := 60;
     Playlist.track_size := 0 |}.

(** Three tracks, the second one current, repeating the whole list. *)
Definition demoPlaylist : Playlist.PlaylistManager :=
  {| Playlist.tracks := [demoSong "a"; demoSong "b"; demoSong "c"];
     Playlist.currentIndex := 1; Playlist.shuffleMode := false;
     Playlist.repeatMode := "all"; Playlist.shuffledIndices := [];
     Playlist.randomCalls := 0 |}.

Definition demoEqualizer : Equalizer.Engine :=
  Equalizer.initializeParametricEQ 0 Equalizer.constructed.

Definition demoThrottled : Throttle.ThrottledEngine := Throttle.constructed demoPlaying.

End Notions.

(** * Properties *)

(** ** The WAV container *)

Section WavFacts.
Import Wav Props.

Lemma land_255 (n : Z) : Z.land n 255 = n `mod` 256.
Proof. change 255 with (Z.ones 8). rewrite Z.land_ones by lia. reflexivity. Qed.

Lemma shiftr_div (n k : Z) : 0 <= k -> Z.shiftr n k = n / 2 ^ k.
Proof. intros. apply Z.shiftr_div_pow2; lia. Qed.

Lemma le_bytes_mod (k : nat) (v : Z) :
  le_bytes k (v `mod` 256 ^ Z.of_nat k) = le_bytes k v.
Proof.
  revert v. induction k as [|k IH]; intros v; [reflexivity|].
  cbn [le_bytes].
  replace (256 ^ Z.of_nat (S k)) with (256 * 256 ^ Z.of_nat k)
    by (rewrite Nat2Z.inj_succ, Z.pow_succ_r by lia; reflexivity).
  assert (Hp : 0 < 256 ^ Z.of_nat k) by (apply Z.pow_pos_nonneg; lia).
  rewrite Z.rem_mul_r by lia.
  set (hi := (v / 256) `mod` 256 ^ Z.of_nat k).
  assert (Hlo : 0 <= v `mod` 256 < 256) by (apply Z.mod_pos_bound; lia).
  f_equal.
  - rewrite (Z.mul_comm 256 hi), Z.mod_add by lia. apply Z.mod_mod; lia.
  - replace ((v `mod` 256 + 256 * hi) / 256) with hi.
    + apply IH.
    + rewrite (Z.mul_comm 256 hi), Z.div_add by lia.
      rewrite Z.div_small by lia. reflexivity.
Qed.

Lemma bytes16_le (v : Z) : DataView.bytes16 true (ToUint16 v) = le_bytes 2 v.
Proof.
  rewrite <- (le_bytes_mod 2 v). unfold DataView.bytes16, ToUint16.
  change (256 ^ Z.of_nat 2) with 65536. cbn [le_bytes].
  rewrite !land_255, shiftr_div by lia. reflexivity.
Qed.

Lemma bytes32_le (v : Z) : DataView.bytes32 true (ToUint32 v) = le_bytes 4 v.
Proof.
  rewrite <- (le_bytes_mod 4 v). unfold DataView.bytes32, ToUint32.
  change (256 ^ Z.of_nat 4) with 4294967296. cbn [le_bytes].
  rewrite !land_255, !shiftr_div by lia.
  set (n := v `mod` 4294967296).
  change (2 ^ 8) with 256. change (2 ^ 16) with (256 * 256).
  change (2 ^ 24) with (256 * 256 * 256).
  rewrite <- !Z.div_div by lia. reflexivity.
Qed.

Lemma length_le_bytes (k : nat) (v : Z) : length (le_bytes k v) = k.
Proof. revert v; induction k; intros; cbn; auto. Qed.

Lemma le_value_le_bytes (k : nat) (v : Z) :
  0 <= v < 256 ^ Z.of_nat k -> le_value (le_bytes k v) = v.
Proof.
  revert v. induction k as [|k IH]; intros v Hv.
  - cbn in *. lia.
  - cbn [le_bytes le_value].
    rewrite Nat2Z.inj_succ, Z.pow_succ_r in Hv by lia.
    rewrite IH.
    + pose proof (Z.div_mod v 256). lia.
    + split; [apply Z.div_pos; lia|]. apply Z.div_lt_upper_bound; lia.
Qed.

Lemma poke_app (bs pre old post : list Z) :
  length old = length bs ->
  DataView.poke (pre ++ old ++ post) (length pre) bs = pre ++ bs ++ post.
Proof.
  revert pre old. induction bs as [|b bs IH]; intros pre old Hlen.
  - destruct old; [reflexivity | discriminate].
  - destruct old as [|o old]; [discriminate|]. cbn [DataView.poke].
    injection Hlen as Hlen.
    replace (<[length pre := b]> (pre ++ (o :: old) ++ post))
      with ((pre ++ [b]) ++ old ++ post).
    + replace (S (length pre)) with (length (pre ++ [b]))
        by (rewrite length_app; cbn; lia).
      rewrite IH by assumption. rewrite <- app_assoc. reflexivity.
    + rewrite insert_app_r_alt by lia. rewrite Nat.sub_diag. cbn.
      rewrite <- app_assoc. reflexivity.
Qed.

Lemma store_writing (c : Cursor) (written : list Z) (room : nat) (bs : list Z) :
  writing c written room -> (length bs <= room)%nat ->
  DataView.store (view c) (pos c) bs =
    Normal (written ++ bs ++ replicate (room - length bs) 0).
Proof.
  intros [Hv Hp] Hroom. unfold DataView.store, DataView.byteLength.
  rewrite bool_decide_true.
  - f_equal. rewrite Hp, Nat2Z.id, Hv.
    replace room with (length bs + (room - length bs))%nat at 1 by lia.
    rewrite replicate_add. apply poke_app. apply length_replicate.
  - rewrite Hv, Hp, length_app, length_replicate. lia.
Qed.

Lemma writing_next (v : DataView.t) (p : Z) (written bs : list Z) (room k : nat) :
  v = written ++ bs ++ replicate (room - length bs) 0 ->
  p = Z.of_nat (length written) -> length bs = k ->
  writing {| view := v; pos := p + Z.of_nat k |} (written ++ bs) (room - k).
Proof.
  intros -> -> <-. split; cbn.
  - rewrite <- app_assoc. reflexivity.
  - rewrite length_app. lia.
Qed.

Lemma setUint32_writing (c : Cursor) (written : list Z) (room : nat) (v : Z) :
  writing c written room -> (4 <= room)%nat ->
  exists c', setUint32 v c = Normal c' /\ writing c' (written ++ le_bytes 4 v) (room - 4).
Proof.
  intros Hw Hroom. unfold setUint32, DataView.setUint32.
  rewrite bytes32_le, (store_writing c written room) by (rewrite ?length_le_bytes; done).
  eexists; split; [reflexivity|].
  apply (writing_next _ _ _ _ _ 4 eq_refl); [apply Hw | apply length_le_bytes].
Qed.

Lemma setUint16_writing (c : Cursor) (written : list Z) (room : nat) (v : Z) :
  writing c written room -> (2 <= room)%nat ->
  exists c', setUint16 v c = Normal c' /\ writing c' (written ++ le_bytes 2 v) (room - 2).
Proof.
  intros Hw Hroom. unfold setUint16, DataView.setUint16.
  rewrite bytes16_le, (store_writing c written room) by (rewrite ?length_le_bytes; done).
  eexists; split; [reflexivity|].
  apply (writing_next _ _ _ _ _ 2 eq_refl); [apply Hw | apply length_le_bytes].
Qed.

Lemma writeSample_writing (chans : list (list Q)) (offset i : nat) (ch : list Q)
    (c : Cursor) (written : list Z) (room : nat) :
  chans !! i = Some ch -> writing c written room -> (2 <= room)%nat ->
  exists c', writeSample chans (Z.of_nat offset) (Z.of_nat i) c = Normal c' /\
             writing c' (written ++ sample_bytes offset ch) (room - 2).
Proof.
  intros Hch Hw Hroom. unfold writeSample, sampleAt.
  rewrite !Nat2Z.id, Hch. cbn [mbind completion_bind].
  unfold DataView.setInt16.
  rewrite bytes16_le, (store_writing c written room) by (rewrite ?length_le_bytes; done).
  eexists; split; [reflexivity|].
  unfold sample_bytes, pcm16. rewrite nth_lookup.
  apply (writing_next _ _ _ _ _ 2 eq_refl); [apply Hw | apply length_le_bytes].
Qed.

Lemma writeFrame_writing (chans : list (list Q)) (offset : nat) :
  forall (k i : nat) (c : Cursor) (written : list Z) (room : nat),
    (i + k)%nat = length chans -> writing c written room -> (2 * k <= room)%nat ->
    exists c',
      for_range k (Z.of_nat i) (writeSample chans (Z.of_nat offset)) c = Normal c' /\
      writing c' (written ++ flat_map (sample_bytes offset) (drop i chans)) (room - 2 * k).
Proof.
  induction k as [|k IH]; intros i c written room Hik Hw Hroom.
  - exists c. split; [reflexivity|].
    rewrite drop_ge by lia. cbn. rewrite app_nil_r, Nat.sub_0_r. exact Hw.
  - destruct (lookup_lt_is_Some_2 chans i) as [ch Hch]; [lia|].
    destruct (writeSample_writing chans offset i ch c written room Hch Hw) as (c1 & E1 & Hw1);
      [lia|].
    destruct (IH (S i) c1 _ _ ltac:(lia) Hw1 ltac:(lia)) as (c2 & E2 & Hw2).
    exists c2. split.
    + cbn [for_range]. rewrite E1. cbn [mbind completion_bind].
      replace (Z.of_nat i + 1) with (Z.of_nat (S i)) by lia. exact E2.
    + rewrite (drop_S _ _ _ Hch). cbn [flat_map].
      rewrite app_assoc. replace (room - 2 * S k)%nat with (room - 2 - 2 * k)%nat by lia.
      exact Hw2.
Qed.

Lemma frame_bytes_flat (chans : list (list Q)) (offset : nat) :
  frame_bytes chans offset = flat_map (sample_bytes offset) chans.
Proof. reflexivity. Qed.

Lemma length_frame_bytes (chans : list (list Q)) (offset : nat) :
  length (frame_bytes chans offset) = (2 * length chans)%nat.
Proof.
  unfold frame_bytes. induction chans as [|ch chans IH]; [reflexivity|].
  cbn [flat_map]. rewrite length_app, length_le_bytes, IH. cbn [length]. lia.
Qed.

Lemma length_frames (chans : list (list Q)) (frames offset : nat) :
  length (flat_map (frame_bytes chans) (seq offset frames))
  = (frames * (2 * length chans))%nat.
Proof.
  revert offset. induction frames as [|m IH]; intros offset; [reflexivity|].
  cbn [seq flat_map]. rewrite length_app, length_frame_bytes, IH. lia.
Qed.

Lemma length_interleaved (chans : list (list Q)) (frames : nat) :
  length (interleaved chans frames) = (frames * (2 * length chans))%nat.
Proof. apply length_frames. Qed.

Lemma writeFrames_writing (b : AudioBuffer) (chans : list (list Q)) (len : Z) :
  numberOfChannels b = Z.of_nat (length chans) ->
  forall (m fuel offset : nat) (c : Cursor) (written : list Z),
    (m <= fuel)%nat ->
    writing c written (m * (2 * length chans)) ->
    len = Z.of_nat (length written + m * (2 * length chans)) ->
    exists c',
      writeFrames fuel len b chans (Z.of_nat offset) c = Normal c' /\
      view c' = written ++ flat_map (frame_bytes chans) (seq offset m).
Proof.
  intros HC. induction m as [|m IH]; intros fuel offset c written Hfuel Hw Hlen.
  - exists c. split.
    + destruct fuel; cbn [writeFrames]; rewrite bool_decide_false; try reflexivity;
        destruct Hw as [_ Hp]; lia.
    + destruct Hw as [Hv _]. rewrite Hv. reflexivity.
  - destruct (length chans) as [|n] eqn:Hn.
    + (* no channel: the loop is not entered *)
      exists c. split.
      * destruct fuel; cbn [writeFrames]; rewrite bool_decide_false; try reflexivity;
          destruct Hw as [_ Hp]; lia.
      * destruct Hw as [Hv _]. rewrite Hv, Nat.mul_0_r. cbn [replicate].
        f_equal. apply length_zero_iff_nil in Hn. subst chans.
        generalize offset (S m). clear. intros off k. revert off.
        induction k; intros; cbn; auto.
    + destruct fuel as [|fuel]; [lia|].
      cbn [writeFrames]. rewrite bool_decide_true by (destruct Hw as [_ Hp]; lia).
      rewrite HC, Nat2Z.id.
      destruct (writeFrame_writing chans offset (S n) 0 c written _ ltac:(lia) Hw
                  ltac:(lia)) as (c1 & E1 & Hw1).
      change (Z.of_nat 0) with 0 in E1. rewrite E1. cbn [mbind completion_bind].
      rewrite drop_0, <- frame_bytes_flat in Hw1.
      destruct (IH fuel (S offset) c1 (written ++ frame_bytes chans offset))
        as (c2 & E2 & Hv2).
      * lia.
      * replace (m * (2 * S n))%nat with (S m * (2 * S n) - 2 * S n)%nat by lia.
        exact Hw1.
      * rewrite length_app, length_frame_bytes, Hn. lia.
      * exists c2. split.
        -- replace (Z.of_nat offset + 1) with (Z.of_nat (S offset)) by lia. exact E2.
        -- rewrite Hv2. cbn [seq flat_map]. rewrite app_assoc. reflexivity.
Qed.

Lemma getChannelData_lookup (b : AudioBuffer) (i : nat) (ch : list Q) :
  Z.of_nat (length (channelData b)) = numberOfChannels b ->
  channelData b !! i = Some ch ->
  getChannelData b (Z.of_nat i) = Normal ch.
Proof.
  intros HC Hch. unfold getChannelData.
  pose proof (lookup_lt_Some _ _ _ Hch).
  rewrite bool_decide_true by lia. rewrite Nat2Z.id, Hch. reflexivity.
Qed.

Lemma collect_channels (b : AudioBuffer) :
  Z.of_nat (length (channelData b)) = numberOfChannels b ->
  forall (k i : nat) (acc : list (list Q)),
    (i + k <= length (channelData b))%nat ->
    for_range k (Z.of_nat i)
      (fun i channels => d ← getChannelData b i; mret (channels ++ [d])) acc
    = Normal (acc ++ take k (drop i (channelData b))).
Proof.
  intros HC. induction k as [|k IH]; intros i acc Hik.
  - cbn. rewrite app_nil_r. reflexivity.
  - cbn [for_range].
    destruct (lookup_lt_is_Some_2 (channelData b) i) as [ch Hch]; [lia|].
    rewrite (getChannelData_lookup b i ch HC Hch).
    cbn [mbind completion_bind mret completion_ret].
    replace (Z.of_nat i + 1) with (Z.of_nat (S i)) by lia.
    rewrite IH by lia. rewrite (drop_S _ _ _ Hch). cbn [take].
    rewrite <- app_assoc. reflexivity.
Qed.

(** One header field: the next [setUint32] or [setUint16] of the goal,
    from the cursor a hypothesis describes. *)
Ltac header_field :=
  match goal with
  | Hw : writing ?c ?w ?r |- context [setUint32 ?v ?c] =>
      let c' := fresh "c" in let E := fresh "E" in let Hw' := fresh "Hw" in
      destruct (setUint32_writing c w r v Hw ltac:(lia)) as (c' & E & Hw');
      rewrite E; cbn [mbind completion_bind]; clear E
  | Hw : writing ?c ?w ?r |- context [setUint16 ?v ?c] =>
      let c' := fresh "c" in let E := fresh "E" in let Hw' := fresh "Hw" in
      destruct (setUint16_writing c w r v Hw ltac:(lia)) as (c' & E & Hw');
      rewrite E; cbn [mbind completion_bind]; clear E
  end.

Lemma audioBufferToWav_container (fuel : nat) (b : AudioBuffer) :
  wf_buffer b -> buf_length b <= Z.of_nat fuel ->
  audioBufferToWav fuel b = Normal (wav_container b).
Proof.
  intros (HC & HN & Hlen & _) Hfuel.
  unfold audioBufferToWav.
  set (len := buf_length b * numberOfChannels b * 2 + 44).
  assert (Hlen0 : 0 <= buf_length b * numberOfChannels b) by (apply Z.mul_nonneg_nonneg; lia).
  unfold DataView.create. rewrite bool_decide_true by lia.
  cbn [mbind completion_bind].
  assert (Hw0 : writing {| view := replicate (Z.to_nat len) 0; pos := 0 |} [] (Z.to_nat len))
    by (split; reflexivity).
  repeat header_field.
  match goal with
  | Hw : writing ?c _ _, Hw' : context [len - pos ?c - 4] |- _ =>
      destruct Hw as [_ Hp]; rewrite !length_app, !length_le_bytes in Hp;
      cbn in Hp; rewrite Hp in Hw'; clear Hp
  end.
  pose proof (collect_channels b Hlen (Z.to_nat (numberOfChannels b)) 0 []) as Hc.
  change (Z.of_nat 0) with 0 in Hc. rewrite Hc by lia. clear Hc.
  cbn [mbind completion_bind app]. rewrite drop_0, firstn_all2 by lia.
  match goal with
  | Hw : writing ?c ?w ?r |- context [writeFrames _ _ _ _ _ ?c] =>
      destruct (writeFrames_writing b (channelData b) len (eq_sym Hlen)
                  (Z.to_nat (buf_length b)) fuel 0 c w) as (c' & E & Hv)
  end.
  - lia.
  - match goal with Hw : writing ?c _ ?r |- writing ?c _ ?r' =>
      replace r' with r; [exact Hw|] end.
    subst len. nia.
  - rewrite !length_app, !length_le_bytes. cbn [length]. subst len. nia.
  - change (Z.of_nat 0) with 0 in E. rewrite E. cbn [mbind completion_bind mret completion_ret].
    rewrite Hv. unfold wav_container, wav_header, interleaved.
    f_equal. f_equal. change (Z.of_nat 40) with 40.
    replace (len - 40 - 4) with (buf_length b * numberOfChannels b * 2) by (subst len; lia).
    replace (len - 8) with (buf_length b * numberOfChannels b * 2 + 44 - 8)
      by (subst len; lia).
    cbn [app]. rewrite <- !app_assoc. reflexivity.
Qed.

Lemma length_wav_container (b : AudioBuffer) :
  wf_buffer b ->
  Z.of_nat (length (wav_container b)) = buf_length b * numberOfChannels b * 2 + 44.
Proof.
  intros (HC & HN & Hlen & _). unfold wav_container, wav_header.
  rewrite !length_app, !length_le_bytes, length_interleaved.
  cbn [ascii_bytes length map list_ascii_of_string].
  nia.
Qed.

Lemma ToIntegerQ_bounds (x : Q) (a b : Z) :
  a <= 0 <= b -> (inject_Z a <= x)%Q -> (x <= inject_Z b)%Q ->
  a <= ToIntegerQ x <= b.
Proof.
  intros Hab Ha Hb. destruct x as [n d]. unfold ToIntegerQ, Qle in *. cbn in *.
  rewrite Z.mul_1_r in Ha, Hb.
  destruct (Z.le_gt_cases 0 n) as [Hn|Hn].
  - rewrite Z.quot_div_nonneg by lia. split.
    + pose proof (Z.div_pos n (Z.pos d)). lia.
    + apply Z.div_le_upper_bound; lia.
  - replace n with (- (- n)) by lia. rewrite Z.quot_opp_l by lia.
    rewrite Z.quot_div_nonneg by lia. split.
    + assert (- n / Z.pos d <= - a); [|lia]. apply Z.div_le_upper_bound; lia.
    + pose proof (Z.div_pos (- n) (Z.pos d)). lia.
Qed.

Lemma pcm16_range (x : Q) : -32768 <= pcm16 x <= 32767.
Proof.
  unfold pcm16. set (s := Qmax (-1) (Qmin 1 x)).
  assert (Hs : (-1 <= s /\ s <= 1)%Q).
  { subst s. split; [apply Q.le_max_l|].
    apply Q.max_lub; [lra | apply Q.le_min_l]. }
  destruct (Qlt_le_dec s 0).
  - assert (-32768 <= ToIntegerQ (s * 32768) <= 0); [|lia].
    apply ToIntegerQ_bounds; [lia | |]; unfold inject_Z; lra.
  - assert (0 <= ToIntegerQ (s * 32767) <= 32767); [|lia].
    apply ToIntegerQ_bounds; [lia | |]; unfold inject_Z; lra.
Qed.

(** C4.  For a rendered buffer of C channels, sample rate R and N frames,
    [audioBufferToWav] returns, without a RangeError and within N
    iterations of its loop, exactly N*C*2 + 44 bytes: the 44-byte header
    "RIFF", u32 file length - 8, "WAVE", "fmt ", 16, PCM tag 1, C, R,
    byte rate R*2*C, block align C*2, 16 bits per sample, "data", u32
    N*C*2 (little-endian throughout), then the N*C interleaved samples,
    each clamped to [-1, 1], scaled by 32768 when negative and by 32767
    otherwise, as a signed 16-bit integer.  For 2 channels and 88200
    frames that is 88200*2*2 + 44 bytes. *)
Theorem wav_container_layout (fuel : nat) (b : AudioBuffer) :
  wf_buffer b -> buf_length b <= Z.of_nat fuel ->
  let C := numberOfChannels b in
  let R := sampleRate b in
  let N := buf_length b in
  exists bytes,
    audioBufferToWav fuel b = Normal bytes /\
    Z.of_nat (length bytes) = N * C * 2 + 44 /\
    bytes = wav_header C R N ++ interleaved (channelData b) (Z.to_nat N) /\
    Z.of_nat (length (wav_header C R N)) = 44 /\
    Z.of_nat (length (interleaved (channelData b) (Z.to_nat N))) = N * C * 2 /\
    (forall x, -32768 <= pcm16 x <= 32767) /\
    (N * C * 2 + 44 < 4294967296 ->
     le_value (le_bytes 4 (N * C * 2 + 44 - 8)) = N * C * 2 + 36) /\
    (C = 2 -> N = 88200 -> Z.of_nat (length bytes) = 88200 * 2 * 2 + 44).
Proof.
  intros Hwf Hfuel C R N. exists (wav_container b).
  pose proof (length_wav_container b Hwf) as Hlen.
  destruct Hwf as (HC & HN & HCl & Hch).
  split; [apply audioBufferToWav_container; [repeat split; assumption | assumption]|].
  split; [exact Hlen|]. split; [reflexivity|].
  split; [reflexivity|].
  split; [rewrite length_interleaved; subst C N; nia|].
  split; [exact pcm16_range|].
  split.
  - intros Hsmall. rewrite le_value_le_bytes.
    + subst C N. lia.
    + change (256 ^ Z.of_nat 4) with 4294967296. subst C N. nia.
  - intros HC2 HN2. rewrite Hlen. subst C N. rewrite HC2, HN2. reflexivity.
Qed.

Lemma wav_container_layout_witness :
  wf_buffer demoStereo /\ buf_length demoStereo <= Z.of_nat 3 /\
  exists bytes,
    audioBufferToWav 3 demoStereo = Normal bytes /\
    Z.of_nat (length bytes) = 3 * 2 * 2 + 44.
Proof.
  assert (Hwf : wf_buffer demoStereo).
  { unfold wf_buffer; simpl. repeat split; try lia. repeat constructor. }
  assert (Hfuel : buf_length demoStereo <= Z.of_nat 3) by (simpl; lia).
  split; [exact Hwf|]. split; [exact Hfuel|].
  destruct (wav_container_layout 3 demoStereo Hwf Hfuel) as (bytes & E & Hlen & _).
  exists bytes. split; [exact E | exact Hlen].
Defined.

End WavFacts.

(** ** The transport clock *)

Section AdvancedTransportFacts.
Import WebAudio AdvancedAudioEngine.
#[local] Open Scope Q_scope.

Lemma swallow_stop (field : Engine -> option AudioBufferSourceNode) (e : Engine) :
  js_try (stopAndDisconnect field) (fun _ => mret tt) e = (Normal tt, e).
Proof.
  unfold js_try, stopAndDisconnect. destruct (field e) as [node|]; [|reflexivity].
  unfold WebAudio.stop. destruct (startedAt node); reflexivity.
Qed.

Lemma advanced_stop_spec (e : Engine) :
  exists e',
    stop e = (Normal tt, e') /\
    sourceNode e' = None /\ nextSourceNode e' = None /\
    isPlaying e' = false /\ isCrossfading e' = false /\
    pauseTime e' = 0 /\ startTime e' = 0 /\ audioBuffer e' = audioBuffer e.
Proof.
  unfold stop, mbind, js_bind, js_get, js_modify.
  destruct (sourceNode e) as [s|] eqn:Hs; cbn.
  - rewrite swallow_stop. cbn.
    destruct (nextSourceNode e) as [n|] eqn:Hn; cbn.
    + rewrite swallow_stop. cbn. eexists; split; [reflexivity|]. cbn. auto 10.
    + eexists; split; [reflexivity|]. cbn. auto 10.
  - destruct (nextSourceNode e) as [n|] eqn:Hn; cbn.
    + rewrite swallow_stop. cbn. eexists; split; [reflexivity|]. cbn. auto 10.
    + eexists; split; [reflexivity|]. cbn. auto 10.
Qed.

Lemma advanced_stop_stopped (e : Engine) :
  sourceNode e = None -> nextSourceNode e = None ->
  isPlaying e = false -> isCrossfading e = false ->
  pauseTime e = 0 -> startTime e = 0 ->
  stop e = (Normal tt, e).
Proof.
  intros Hs Hn Hp Hx Hpt Hst. unfold stop, mbind, js_bind, js_get, js_modify.
  rewrite Hs. cbn. rewrite Hn. cbn. destruct e; cbn in *; subst. reflexivity.
Qed.

Lemma advanced_getCurrentTime_stopped (e : Engine) :
  isPlaying e = false -> pauseTime e = 0 -> getCurrentTime e = Normal 0.
Proof.
  intros Hp Hpt. unfold getCurrentTime. rewrite Hp, Hpt.
  destruct (audioBuffer e); reflexivity.
Qed.

End AdvancedTransportFacts.

Section TransportFacts.
Import WebAudio AudioEngine Props.
#[local] Open Scope Q_scope.

Variable Math_pow : Q -> Q -> Q.

(** Dropping the source node, the [try]/[catch] around [stop()] and
    [disconnect()] having swallowed whatever they threw. *)
Lemma drop_source_normal (e : Engine) :
  exists e',
    js_try (onSource WebAudio.stop;; onConnections (disconnect Source))
           (fun _ => mret tt) e = (Normal tt, e') /\
    audioBuffer e' = audioBuffer e /\ pauseTime e' = pauseTime e /\
    startTime e' = startTime e /\ isPlaying e' = isPlaying e /\
    (audioContext e = None -> audioContext e' = None) /\
    (forall ctx, audioContext e = Some ctx ->
       exists ctx', audioContext e' = Some ctx' /\ currentTime ctx' = currentTime ctx /\
                    params ctx' = params ctx /\ state ctx' = state ctx) /\
    actualPlaybackRate e' = actualPlaybackRate e /\
    pendingTimeouts e' = pendingTimeouts e.
Proof.
  unfold js_try, onSource, onConnections, mbind, js_bind, mret, js_ret.
  destruct (sourceNode e) as [s|] eqn:Hs.
  - unfold WebAudio.stop. destruct (startedAt s).
    + cbn. destruct (audioContext e) as [ctx|] eqn:Hc; cbn.
      * eexists; split; [reflexivity|]. cbn. repeat split; try congruence.
        intros ctx0 [= <-]. eexists; repeat split.
      * eexists; split; [reflexivity|]. cbn. rewrite Hc. repeat split; congruence.
    + eexists; split; [reflexivity|]. repeat split; eauto.
  - eexists; split; [reflexivity|]. repeat split; eauto.
Qed.

Lemma stop_spec (e : Engine) :
  exists e',
    stop e = (Normal tt, e') /\
    sourceNode e' = None /\ isPlaying e' = false /\
    pauseTime e' = 0 /\ startTime e' = 0 /\ audioBuffer e' = audioBuffer e.
Proof.
  unfold stop. unfold mbind at 1, js_bind at 1, js_get.
  destruct (sourceNode e) as [s|] eqn:Hs.
  - rewrite bool_decide_true by eauto.
    destruct (drop_source_normal e) as (e1 & E1 & Hb & _).
    unfold mbind, js_bind in *. rewrite E1. cbn.
    eexists; split; [reflexivity|]. cbn. auto.
  - rewrite bool_decide_false by (intros [? ?]; congruence).
    cbn. eexists; split; [reflexivity|]. cbn. auto.
Qed.

Lemma stop_stopped (e : Engine) :
  sourceNode e = None -> isPlaying e = false -> pauseTime e = 0 -> startTime e = 0 ->
  stop e = (Normal tt, e).
Proof.
  intros Hs Hp Hpt Hst. unfold stop. unfold mbind at 1, js_bind at 1, js_get.
  rewrite bool_decide_false by (rewrite Hs; intros [? ?]; congruence).
  cbn. destruct e; cbn in *. subst. reflexivity.
Qed.

Lemma getCurrentTime_not_playing (e : Engine) :
  isPlaying e = false -> is_Some (audioBuffer e) ->
  getCurrentTime e = Normal (pauseTime e).
Proof.
  intros Hp [buf Hb]. unfold getCurrentTime. rewrite Hb, Hp. reflexivity.
Qed.

Lemma seek_spec (e : Engine) (buf : AudioBuffer) (ctx : AudioContext) (t : Q) :
  audioBuffer e = Some buf -> audioContext e = Some ctx ->
  exists e',
    seek t e = (Normal tt, e') /\
    isPlaying e' = false /\ audioBuffer e' = Some buf /\
    pauseTime e' = Qmax 0 (Qmin t (duration buf)) /\
    startTime e' = currentTime ctx /\
    pendingTimeouts e' =
      pendingTimeouts e ++
      (if isPlaying e then [{| delayMs := 10; callback := CallPlay |}] else []).
Proof.
  intros Hb Hc. unfold seek. unfold mbind at 1, js_bind at 1, js_get. rewrite Hb.
  destruct (isPlaying e) eqn:Hp.
  - destruct (drop_source_normal e) as (e1 & E1 & Hb1 & Hpt1 & Hst1 & Hp1 & _ & Hc1 & _ & Hto1).
    destruct (Hc1 ctx Hc) as (ctx1 & Hctx1 & Hnow & _).
    unfold mbind, js_bind in *. rewrite E1. cbn. unfold getContextTime. cbn.
    rewrite Hctx1. cbn. eexists; split; [reflexivity|]. cbn.
    rewrite Hb1, Hb, Hto1, Hnow. auto.
  - unfold mbind, js_bind. cbn. unfold getContextTime. cbn. rewrite Hc. cbn.
    eexists; split; [reflexivity|]. cbn. rewrite Hb, app_nil_r. auto.
Qed.

Lemma clamp_spec (t d : Q) :
  0 <= d ->
  let p := Qmax 0 (Qmin t d) in
  0 <= p /\ p <= d /\ (t < 0 -> p == 0) /\ (d < t -> p == d) /\
  (0 <= t -> t <= d -> p == t).
Proof.
  intros Hd p. subst p.
  destruct (Q.max_spec 0 (Qmin t d)) as [[H1 ->]|[H1 ->]];
    destruct (Q.min_spec t d) as [[H2 E2]|[H2 E2]]; rewrite ?E2 in *;
    repeat split; intros; lra.
Qed.

Lemma setupAudioChain_keeps (e : Engine) (ctx : AudioContext) :
  audioContext e = Some ctx ->
  exists ctx',
    audioContext (setupAudioChain e) = Some ctx' /\
    currentTime ctx' = currentTime ctx /\ params ctx' = params ctx /\
    sourceNode (setupAudioChain e) = sourceNode e /\
    audioBuffer (setupAudioChain e) = audioBuffer e /\
    startTime (setupAudioChain e) = startTime e /\
    pauseTime (setupAudioChain e) = pauseTime e /\
    isPlaying (setupAudioChain e) = isPlaying e /\
    actualPlaybackRate (setupAudioChain e) = actualPlaybackRate e.
Proof.
  intros Hc. unfold setupAudioChain. rewrite Hc. destruct (chainConfigured e).
  - exists ctx. repeat split; assumption.
  - eexists. split; [reflexivity|]. repeat split.
Qed.

#[local] Opaque setupAudioChain connect.

Lemma play_spec (e : Engine) (buf : AudioBuffer) (ctx : AudioContext) :
  audioBuffer e = Some buf -> audioContext e = Some ctx ->
  isPlaying e = false -> 0 <= pauseTime e ->
  exists e' ctx',
    play Math_pow e = (Normal tt, e') /\
    isPlaying e' = true /\ is_Some (sourceNode e') /\ audioBuffer e' = Some buf /\
    audioContext e' = Some ctx' /\ currentTime ctx' = currentTime ctx /\
    pauseTime e' = pauseTime e /\
    actualPlaybackRate e' = actualPlaybackRate (updateActualPlaybackRate Math_pow e) /\
    startTime e' = currentTime ctx - pauseTime e / actualPlaybackRate e'.
Proof.
  intros Hb Hc Hp Hoff. destruct e. cbn in *. subst.
  unfold play, mbind, js_bind, js_get, getContextTime, js_modify, onSource,
    onConnections, mret, js_ret. cbn.
  unfold updateActualPlaybackRate. cbn.
  destruct preservePitch0; cbn;
    [destruct (Qeq_bool pitchShift0 0); cbn|].
  all: match goal with |- context [setupAudioChain ?s] =>
         destruct (setupAudioChain_keeps s _ eq_refl)
           as (ctx' & Hc' & Hnow & Hpar & Hs & Hb & Hst & Hpt & Hpl & Hr);
         cbn in Hs, Hb, Hst, Hpt, Hpl, Hr;
         generalize dependent (setupAudioChain s); intros e1 **
       end.
  all: rewrite ?Hpt, ?Hs, ?Hc'; cbn; unfold WebAudio.start; cbn;
    (destruct (Qlt_le_dec pauseTime0 0); [lra|]); cbn; rewrite ?Hc'; cbn;
    eexists _, _; (split; [reflexivity|]); cbn;
    rewrite ?Hb, ?Hc', ?Hr, ?Hnow, ?Hpt; repeat split; eauto.
Qed.

#[local] Transparent setupAudioChain connect.

Lemma getCurrentTime_playing (e : Engine) (buf : AudioBuffer) (ctx : AudioContext) :
  audioBuffer e = Some buf -> audioContext e = Some ctx ->
  isPlaying e = true -> is_Some (sourceNode e) ->
  getCurrentTime e =
    Normal (Qmin (pauseTime e + (currentTime ctx - startTime e) * actualPlaybackRate e)
                 (duration buf)).
Proof.
  intros Hb Hc Hp Hs. unfold getCurrentTime.
  rewrite Hb, Hc, Hp, bool_decide_true by assumption. reflexivity.
Qed.

Lemma advance_spec (e : Engine) (ctx : AudioContext) (dt : Q) :
  audioContext e = Some ctx ->
  exists ctx',
    audioContext (advance dt e) = Some ctx' /\
    currentTime ctx' = currentTime ctx + dt /\
    (forall id, params ctx' id = render (currentTime ctx + dt) (params ctx id)) /\
    audioBuffer (advance dt e) = audioBuffer e /\
    isPlaying (advance dt e) = isPlaying e /\
    pauseTime (advance dt e) = pauseTime e /\
    startTime (advance dt e) = startTime e /\
    actualPlaybackRate (advance dt e) = actualPlaybackRate e /\
    (is_Some (sourceNode e) -> is_Some (sourceNode (advance dt e))).
Proof.
  intros Hc. unfold advance. rewrite Hc. eexists; cbn. repeat split; eauto.
  intros [s ->]. cbn. eauto.
Qed.

(** What [getCurrentTime] reports [dt] seconds after [play()] resumed
    from [pauseTime]: the offset counted twice. *)
Lemma getCurrentTime_after_play (e : Engine) (buf : AudioBuffer) (ctx : AudioContext)
    (dt : Q) :
  audioBuffer e = Some buf -> audioContext e = Some ctx ->
  isPlaying e = false -> preservePitch e = true ->
  0 <= pauseTime e -> 0 < playbackRate e ->
  exists e' p,
    play Math_pow e = (Normal tt, e') /\
    getCurrentTime (advance dt e') = Normal p /\
    p == Qmin (2 * pauseTime e + dt * playbackRate e) (duration buf).
Proof.
  intros Hb Hc Hp Hpp Hoff Hrate.
  destruct (play_spec e buf ctx Hb Hc Hp Hoff)
    as (e1 & ctx1 & E1 & Hp1 & Hs1 & Hb1 & Hc1 & Hnow1 & Hpt1 & Hr1 & Hst1).
  destruct (advance_spec e1 ctx1 dt Hc1)
    as (ctx2 & Hc2 & Hnow2 & _ & Hb2 & Hp2 & Hpt2 & Hst2 & Hr2 & Hs2).
  exists e1. eexists. split; [exact E1|]. split.
  - apply (getCurrentTime_playing _ buf ctx2); try congruence. auto.
  - rewrite Hpt2, Hst2, Hr2, Hnow2, Hst1, Hnow1, Hpt1, Hr1.
    unfold updateActualPlaybackRate. rewrite Hpp.
    cbn [actualPlaybackRate set_actualPlaybackRate].
    apply Q.min_compat; [|reflexivity]. field. lra.
Qed.
Lemma stop_keeps_context (e : Engine) (ctx : AudioContext) :
  audioContext e = Some ctx ->
  exists e' ctx',
    stop e = (Normal tt, e') /\ audioContext e' = Some ctx' /\
    currentTime ctx' = currentTime ctx /\ params ctx' = params ctx /\
    sourceNode e' = None /\ isPlaying e' = false /\ pauseTime e' = 0 /\
    startTime e' = 0 /\ audioBuffer e' = audioBuffer e.
Proof.
  intros Hc. unfold stop. unfold mbind at 1, js_bind at 1, js_get.
  destruct (sourceNode e) as [s|] eqn:Hs.
  - rewrite bool_decide_true by eauto.
    destruct (drop_source_normal e) as (e1 & E1 & Hb & _ & _ & _ & _ & Hc1 & _).
    destruct (Hc1 ctx Hc) as (ctx1 & Hctx1 & Hnow & Hpar & _).
    unfold mbind, js_bind in *. rewrite E1. cbn.
    eexists _, ctx1; split; [reflexivity|]. cbn. auto 10.
  - rewrite bool_decide_false by (intros [? ?]; congruence).
    cbn. eexists _, ctx; split; [reflexivity|]. cbn. auto 10.
Qed.

(** From the start of the track the reported position is the elapsed
    time times the speed. *)
Lemma getCurrentTime_after_first_play (e : Engine) (buf : AudioBuffer)
    (ctx : AudioContext) (dt : Q) :
  audioBuffer e = Some buf -> audioContext e = Some ctx ->
  isPlaying e = false -> preservePitch e = true ->
  pauseTime e = 0 -> 0 < playbackRate e ->
  exists e' p,
    play Math_pow e = (Normal tt, e') /\
    getCurrentTime (advance dt e') = Normal p /\
    p == Qmin (dt * playbackRate e) (duration buf).
Proof.
  intros Hb Hc Hp Hpp Hoff Hrate.
  destruct (getCurrentTime_after_play e buf ctx dt Hb Hc Hp Hpp ltac:(rewrite Hoff; lra) Hrate)
    as (e' & p & E & Hg & Hpos).
  exists e', p. split; [exact E|]. split; [exact Hg|].
  rewrite Hpos, Hoff. apply Q.min_compat; [lra | reflexivity].
Qed.

(** A source node that was never started throws at [stop()]; both engines
    swallow it. *)
Example stop_swallows_stop_error :
  WebAudio.stop (createBufferSource 0) = Throw InvalidStateError /\
  (stop (set_sourceNode (Some (createBufferSource 0)) demoLoaded)).1 = Normal tt /\
  (AdvancedAudioEngine.stop demoAdvanced).1 = Normal tt.
Proof. repeat split. Qed.

(** Once the timer [seek] leaves behind has run [play()], the resumed
    engine reports twice the target. *)
Example resumed_seek_doubles_target :
  let sought := (seek 30 (play demoPow demoLoaded).2).2 in
  pendingTimeouts sought = [{| delayMs := 10; callback := CallPlay |}] /\
  (exists p0, getCurrentTime sought = Normal p0 /\ p0 == 30) /\
  (exists p,
     getCurrentTime (runTimeout demoPow {| delayMs := 10; callback := CallPlay |} sought).2
     = Normal p /\ p == 60).
Proof.
  intros sought. split; [reflexivity|]. split.
  - eexists. split; [vm_compute; reflexivity | reflexivity].
  - eexists. split; [vm_compute; reflexivity | reflexivity].
Qed.

(** C9.  [stop()] raises no error from any state of either engine, leaves
    the position at 0 and the engine not playing, and a second [stop()]
    raises no error and changes nothing. *)
Theorem stop_twice (e : Engine) (a : AdvancedAudioEngine.Engine) :
  (exists e1,
     stop e = (Normal tt, e1) /\ stop e1 = (Normal tt, e1) /\
     pauseTime e1 = 0 /\ isPlaying e1 = false /\ sourceNode e1 = None /\
     getCurrentTime e1 = Normal 0) /\
  (exists a1,
     AdvancedAudioEngine.stop a = (Normal tt, a1) /\
     AdvancedAudioEngine.stop a1 = (Normal tt, a1) /\
     AdvancedAudioEngine.pauseTime a1 = 0 /\
     AdvancedAudioEngine.isPlaying a1 = false /\
     AdvancedAudioEngine.sourceNode a1 = None /\
     AdvancedAudioEngine.nextSourceNode a1 = None /\
     AdvancedAudioEngine.getCurrentTime a1 = Normal 0).
Proof.
  split.
  - destruct (stop_spec e) as (e1 & E1 & Hs & Hp & Hpt & Hst & _).
    exists e1. split; [exact E1|]. split; [apply stop_stopped; assumption|].
    repeat split; try assumption.
    unfold getCurrentTime. rewrite Hp, Hpt. destruct (audioBuffer e1); reflexivity.
  - destruct (advanced_stop_spec a) as (a1 & E1 & Hs & Hn & Hp & Hx & Hpt & Hst & _).
    exists a1. split; [exact E1|].
    split; [apply advanced_stop_stopped; assumption|].
    repeat split; try assumption.
    apply advanced_getCurrentTime_stopped; assumption.
Qed.

(** C8.  With a track of duration D loaded, [seek(t)] puts the position
    at t clamped to [0, D], and [getCurrentTime()] right after returns
    it, whether the engine was playing or paused. *)
Theorem seek_then_position (e : Engine) (buf : AudioBuffer) (ctx : AudioContext) (t : Q) :
  audioBuffer e = Some buf -> audioContext e = Some ctx -> 0 <= duration buf ->
  exists e' p,
    seek t e = (Normal tt, e') /\ getCurrentTime e' = Normal p /\
    p = Qmax 0 (Qmin t (duration buf)) /\
    0 <= p /\ p <= duration buf /\
    (t < 0 -> p == 0) /\ (duration buf < t -> p == duration buf) /\
    (0 <= t -> t <= duration buf -> p == t).
Proof.
  intros Hb Hc Hd.
  destruct (seek_spec e buf ctx t Hb Hc) as (e' & E & Hp & Hb' & Hpt & _).
  exists e', (Qmax 0 (Qmin t (duration buf))). split; [exact E|]. split.
  - rewrite getCurrentTime_not_playing by (rewrite ?Hb'; eauto). rewrite Hpt. reflexivity.
  - split; [reflexivity|]. apply (clamp_spec t (duration buf) Hd).
Qed.

Lemma seek_then_position_witness :
  let e := (play demoPow demoLoaded).2 in
  audioBuffer e = Some demoTrack /\ is_Some (audioContext e) /\ isPlaying e = true /\
  0 <= duration demoTrack /\
  exists e' p, seek 250 e = (Normal tt, e') /\ getCurrentTime e' = Normal p /\
               p == duration demoTrack.
Proof.
  intros e.
  assert (Hb : audioBuffer e = Some demoTrack) by reflexivity.
  assert (Hd : 0 <= duration demoTrack) by (unfold Qle; simpl; lia).
  assert (Ht : duration demoTrack < 250) by (unfold Qlt; simpl; lia).
  destruct (audioContext e) as [ctx|] eqn:Hc; [|discriminate].
  split; [exact Hb|]. split; [eexists; reflexivity|]. split; [reflexivity|].
  split; [exact Hd|].
  destruct (seek_then_position e demoTrack ctx 250 Hb Hc Hd)
    as (e' & p & E & Hg & _ & _ & _ & _ & Hhigh & _).
  exists e', p. split; [exact E|]. split; [exact Hg|]. exact (Hhigh Ht).
Defined.

(** C1.  The position reported after a resume counts the offset twice:
    playing 5 s from the start and pausing gives position 5, and 1 s
    after [play()] resumes at speed 1.0 [getCurrentTime()] returns 11
    where the offset plus the elapsed time is 6. *)
Theorem resume_counts_offset_twice :
  let paused := (pause (advance 5 (play demoPow demoLoaded).2)).2 in
  let resumed := (play demoPow paused).2 in
  (pause (advance 5 (play demoPow demoLoaded).2)).1 = Normal tt /\
  (play demoPow paused).1 = Normal tt /\
  playbackRate paused == 1 /\
  (exists p0, getCurrentTime paused = Normal p0 /\ p0 == 5) /\
  (exists p, getCurrentTime (advance 1 resumed) = Normal p /\
             p == 11 /\ ~ p == 5 + 1 * 1).
Proof.
  intros paused resumed.
  split; [reflexivity|]. split; [reflexivity|]. split; [reflexivity|].
  split.
  - eexists. split; [vm_compute; reflexivity|]. reflexivity.
  - eexists. split; [vm_compute; reflexivity|]. split; [reflexivity|].
    unfold Qeq. simpl. lia.
Qed.

End TransportFacts.

(** ** Parameter automation *)

Section AutomationFacts.
Import WebAudio Props.
#[local] Open Scope Q_scope.

Lemma earlier_before (t : Q) (evs : list AutomationEvent) :
  Forall (fun ev => eventTime ev < t) (earlier t evs).
Proof.
  unfold earlier. induction evs as [|ev evs IH]; cbn; [constructor|].
  destruct (Qlt_le_dec (eventTime ev) t); [constructor|]; assumption.
Qed.

Lemma insertEvent_last (ev : AutomationEvent) (evs : list AutomationEvent) :
  Forall (fun ev' => eventTime ev' <= eventTime ev) evs ->
  insertEvent ev evs = evs ++ [ev].
Proof.
  induction 1 as [|ev' evs Hle _ IH]; [reflexivity|]. cbn.
  destruct (Qlt_le_dec (eventTime ev) (eventTime ev')); [lra|].
  rewrite IH. reflexivity.
Qed.

(** The three calls every ramping setter makes. *)
Lemma schedule_ramp (p : AudioParam) (now target d : Q) :
  0 <= d ->
  let p1 := cancelScheduledValues now p in
  let p2 := setValueAtTime (value p1) now p1 in
  rampScheduled p (linearRampToValueAtTime target (now + d) p2) now target d.
Proof.
  intros Hd. split; [|reflexivity]. cbn.
  fold (earlier now (events p)).
  pose proof (earlier_before now (events p)) as Hpast.
  rewrite (insertEvent_last (SetValueAtTime _ now)).
  - rewrite insertEvent_last; [rewrite <- app_assoc; reflexivity|].
    apply Forall_app; split.
    + eapply List.Forall_impl; [|exact Hpast]. cbn. intros; lra.
    + repeat constructor. cbn. lra.
  - eapply List.Forall_impl; [|exact Hpast]. cbn. intros; lra.
Qed.

Lemma timeline_past (evs rest : list AutomationEvent) (v T t pT pV : Q) :
  Forall (fun ev => eventTime ev <= t) evs -> T <= t ->
  timeline pT pV (evs ++ SetValueAtTime v T :: rest) t = timeline T v rest t.
Proof.
  intros Hpast HT. revert pT pV.
  induction Hpast as [|ev evs Hev _ IH]; intros pT pV; cbn.
  - destruct (Qlt_le_dec t T); [lra | reflexivity].
  - destruct ev as [v' T'|v' T']; cbn in Hev;
      (destruct (Qlt_le_dec t T'); [lra | apply IH]).
Qed.

Lemma timeline_ramp (v T target d a : Q) :
  0 <= a -> 0 < d ->
  timeline T v [LinearRampToValueAtTime target (T + d)] (T + a) == rampValue v target d a.
Proof.
  intros Ha Hd. cbn. unfold rampValue.
  destruct (Qlt_le_dec (T + a) (T + d)); destruct (Qlt_le_dec a d); try lra.
  field. lra.
Qed.

Lemma ramped_value (before after : AudioParam) (now target d a : Q) :
  rampScheduled before after now target d -> 0 <= a -> 0 < d ->
  valueAtTime after (now + a) == rampValue (value before) target d a.
Proof.
  intros [Hev _] Ha Hd. unfold valueAtTime. rewrite Hev.
  rewrite timeline_past.
  - apply timeline_ramp; assumption.
  - eapply List.Forall_impl; [|apply earlier_before]. cbn. intros; lra.
  - lra.
Qed.

Lemma rampValue_start (v0 target d : Q) : 0 < d -> rampValue v0 target d 0 == v0.
Proof.
  intros Hd. unfold rampValue. destruct (Qlt_le_dec 0 d); [|lra]. field. lra.
Qed.

Lemma rampValue_end (v0 target d a : Q) : d <= a -> rampValue v0 target d a == target.
Proof.
  intros Hd. unfold rampValue. destruct (Qlt_le_dec a d); [lra | reflexivity].
Qed.

(** Along a ramp the value moves from where it is toward the target, and
    no faster than the ramp's slope. *)
#[global] Instance rampValue_compat :
  Proper (Qeq ==> Qeq ==> Qeq ==> Qeq ==> Qeq) rampValue.
Proof.
  intros v v' Hv t t' Ht d d' Hd a a' Ha. unfold rampValue.
  destruct (Qlt_le_dec a d); destruct (Qlt_le_dec a' d'); try lra.
  rewrite Hv, Ht, Hd, Ha. reflexivity.
Qed.

(** Along a ramp the value moves from where it is toward the target, and
    no faster than the ramp's slope. *)
Lemma rampValue_up (v0 target d a b : Q) :
  0 < d -> 0 <= a -> a <= b -> v0 <= target ->
  rampValue v0 target d a <= rampValue v0 target d b /\
  rampValue v0 target d b <= target /\
  (rampValue v0 target d b - rampValue v0 target d a) * d <= (target - v0) * (b - a).
Proof.
  intros Hd Ha Hab Hv. unfold rampValue.
  assert (Hu : 0 <= (target - v0) / d).
  { apply Qle_shift_div_l; lra. }
  set (u := (target - v0) / d) in *.
  assert (Ed : forall x, (target - v0) * (x / d) == u * x).
  { intros x. subst u. field. lra. }
  assert (Et : target - v0 == u * d).
  { subst u. field. lra. }
  destruct (Qlt_le_dec a d); destruct (Qlt_le_dec b d); rewrite ?Ed; try lra; nra.
Qed.

Lemma rampValue_down (v0 target d a b : Q) :
  0 < d -> 0 <= a -> a <= b -> target <= v0 ->
  rampValue v0 target d b <= rampValue v0 target d a /\
  target <= rampValue v0 target d b /\
  (rampValue v0 target d a - rampValue v0 target d b) * d <= (v0 - target) * (b - a).
Proof.
  intros Hd Ha Hab Hv. unfold rampValue.
  assert (Hu : 0 <= (v0 - target) / d).
  { apply Qle_shift_div_l; lra. }
  set (u := (v0 - target) / d) in *.
  assert (Ed : forall x, (target - v0) * (x / d) == - u * x).
  { intros x. subst u. field. lra. }
  assert (Et : v0 - target == u * d).
  { subst u. field. lra. }
  destruct (Qlt_le_dec a d); destruct (Qlt_le_dec b d); rewrite ?Ed; try lra; nra.
Qed.

End AutomationFacts.

Section KnobFacts.
Import WebAudio AudioEngine Props.
#[local] Open Scope Q_scope.

Lemma advance_params (e : Engine) (ctx : AudioContext) (dt : Q) :
  audioContext e = Some ctx ->
  exists ctx',
    audioContext (advance dt e) = Some ctx' /\
    currentTime ctx' = (currentTime ctx + dt)%Q /\
    (forall id, params ctx' id = render (currentTime ctx + dt) (params ctx id)).
Proof. intros Hc. unfold advance. rewrite Hc. eexists; cbn. repeat split; eauto. Qed.

Lemma setVolume_ramp (e : Engine) (ctx : AudioContext) (v : Q) :
  audioContext e = Some ctx ->
  exists ctx',
    audioContext (setVolume v e) = Some ctx' /\
    currentTime ctx' = currentTime ctx /\
    rampScheduled (params ctx GainNode_gain) (params ctx' GainNode_gain)
      (currentTime ctx) (v / 100) 0.05 /\
    forall id, id <> GainNode_gain -> params ctx' id = params ctx id.
Proof.
  intros Hc. unfold setVolume. rewrite Hc. eexists. split; [reflexivity|].
  split; [reflexivity|]. split.
  - cbn. rewrite fn_lookup_insert. apply schedule_ramp. lra.
  - intros id Hid. cbn. apply fn_lookup_insert_ne. congruence.
Qed.

Lemma gain_after_setVolume (e : Engine) (ctx : AudioContext) (v a : Q) :
  audioContext e = Some ctx -> 0 <= a ->
  gainValue (advance a (setVolume v e)) == rampValue (gainValue e) (v / 100) 0.05 a.
Proof.
  intros Hc Ha.
  destruct (setVolume_ramp e ctx v Hc) as (ctx1 & Hc1 & Hnow1 & Hramp & _).
  destruct (advance_params (setVolume v e) ctx1 a Hc1) as (ctx2 & Hc2 & _ & Hp2).
  unfold gainValue. rewrite Hc2, Hc, Hp2. cbn [value render].
  rewrite Hnow1. apply (ramped_value _ _ _ _ _ _ Hramp); lra.
Qed.

(** C7.  [setVolume(80)] and then, before its ramp is over,
    [setVolume(20)]: the gain does not jump when the second call is made;
    from the value [r] the first ramp had reached it only moves toward
    0.2, at the slope of the new ramp at most, reaches 0.2 after 50 ms
    and stays there.  The first ramp's target plays no part any more. *)
Theorem volume_retarget (e : Engine) (ctx : AudioContext) (d1 : Q) :
  audioContext e = Some ctx -> 0 <= d1 -> d1 < 0.05 ->
  let e2 := advance d1 (setVolume 80 e) in
  let e3 := setVolume 20 e2 in
  let r := gainValue e2 in
  let g := fun a => gainValue (advance a e3) in
  r == rampValue (gainValue e) 0.8 0.05 d1 /\
  gainValue e3 = r /\ g 0 == r /\
  (forall a b, 0 <= a -> a <= b ->
     (r <= 0.2 -> g a <= g b /\ g b <= 0.2 /\ g b - g a <= 20 * (0.2 - r) * (b - a)) /\
     (0.2 <= r -> g b <= g a /\ 0.2 <= g b /\ g a - g b <= 20 * (r - 0.2) * (b - a))) /\
  (forall a, 0.05 <= a -> g a == 0.2).
Proof.
  intros Hc Hd1 Hd1' e2 e3 r g.
  destruct (setVolume_ramp e ctx 80 Hc) as (ctx1 & Hc1 & _).
  destruct (advance_params (setVolume 80 e) ctx1 d1 Hc1) as (ctx2 & Hc2 & _).
  fold e2 in Hc2.
  assert (E20 : 20 / 100 == 0.2) by reflexivity.
  assert (E80 : 80 / 100 == 0.8) by reflexivity.
  assert (Hg : forall a, 0 <= a -> g a == rampValue r 0.2 0.05 a).
  { intros a Ha. rewrite <- E20. apply (gain_after_setVolume e2 ctx2 20 a Hc2 Ha). }
  split; [|split; [|split; [|split]]].
  - subst r e2. rewrite <- E80. apply (gain_after_setVolume e ctx 80 d1 Hc Hd1).
  - destruct (setVolume_ramp e2 ctx2 20 Hc2) as (ctx3 & Hc3 & _ & [_ Hv] & _).
    subst r. unfold gainValue. subst e3. rewrite Hc3, Hc2. exact Hv.
  - rewrite Hg by lra. rewrite rampValue_start by lra. reflexivity.
  - intros a b Ha Hab. rewrite !Hg by lra. split; intros Hr.
    + destruct (rampValue_up r 0.2 0.05 a b) as (H1 & H2 & H3); lra.
    + destruct (rampValue_down r 0.2 0.05 a b) as (H1 & H2 & H3); lra.
  - intros a Ha. rewrite Hg by lra. rewrite rampValue_end by lra. reflexivity.
Qed.

Lemma volume_retarget_witness :
  is_Some (audioContext demoEngine) /\ 0 <= 0.02 /\ 0.02 < 0.05 /\
  gainValue (setVolume 20 (advance 0.02 (setVolume 80 demoEngine)))
  = gainValue (advance 0.02 (setVolume 80 demoEngine)) /\
  gainValue (advance 0.07 (setVolume 20 (advance 0.02 (setVolume 80 demoEngine)))) == 0.2.
Proof.
  assert (H0 : 0 <= 0.02) by (unfold Qle; simpl; lia).
  assert (H1 : 0.02 < 0.05) by (unfold Qlt; simpl; lia).
  assert (H2 : 0.05 <= 0.07) by (unfold Qle; simpl; lia).
  destruct (audioContext demoEngine) as [ctx|] eqn:Hc; [|discriminate].
  split; [eexists; reflexivity|]. split; [exact H0|]. split; [exact H1|].
  destruct (volume_retarget demoEngine ctx 0.02 Hc H0 H1) as (_ & Hsame & _ & _ & Hend).
  split; [exact Hsame | exact (Hend 0.07 H2)].
Defined.

(** C6 as stated fails: [setCompressor] leaves no ramp on the
    compressor's threshold. *)
Lemma compressor_jumps : ~ knobRamps CompressorKnob 100 demoEngine.
Proof.
  intros H.
  destruct (audioContext demoEngine) as [ctx|] eqn:Hc; [|discriminate].
  destruct (audioContext (knobSetter CompressorKnob 100 demoEngine)) as [ctx'|] eqn:Hc';
    [|discriminate].
  destruct (H ctx ctx' Compressor_threshold Hc Hc') as [Heq|(target & d & Hd & Hev & _)].
  - injection Hc as <-. injection Hc' as <-.
    apply (f_equal events) in Heq. vm_compute in Heq. discriminate.
  - injection Hc as <-. injection Hc' as <-.
    vm_compute in Hev. discriminate.
Qed.

(** The threshold is at its new value at the very instant of the call. *)
Example compressor_threshold_steps :
  (exists v, liveValue demoEngine Compressor_threshold = Some v /\ v == -24) /\
  (exists v, liveValue (advance 0 (setCompressor 100 demoEngine)) Compressor_threshold
             = Some v /\ v == -10).
Proof.
  split; eexists; (split; [vm_compute; reflexivity | reflexivity]).
Qed.

(** C6, amended.  With the nodes created, [setVolume], [setReverbMix],
    [setBassBoost], [setDelayMix] and [setChorusMix] give every parameter
    they touch, the chorus LFO rate apart, a linear ramp from its current
    value to the new target over a fixed window (50, 100, 100, 120 and
    120 ms); [setCompressor] sets the compressor's threshold and ratio,
    and [setChorusMix] the LFO rate, at the current time with
    [setValueAtTime], without a ramp.  The parameters touched and their
    targets are those listed; every other parameter is left as it is. *)
Theorem knobs_ramp_or_set (e : Engine) (ctx : AudioContext) (value : Q) :
  audioContext e = Some ctx ->
  let now := currentTime ctx in
  let before := params ctx in
  let mix := Qmax 0 (Qmin 100 value) / 100 in
  (exists ctx',
     audioContext (setVolume value e) = Some ctx' /\
     rampScheduled (before GainNode_gain) (params ctx' GainNode_gain) now (value / 100) 0.05 /\
     forall id, id <> GainNode_gain -> params ctx' id = before id) /\
  (exists ctx',
     audioContext (setReverbMix value e) = Some ctx' /\
     rampScheduled (before DryGain_gain) (params ctx' DryGain_gain) now (1 - value / 100) 0.1 /\
     rampScheduled (before WetGain_gain) (params ctx' WetGain_gain) now (value / 100) 0.1 /\
     forall id, id <> DryGain_gain -> id <> WetGain_gain -> params ctx' id = before id) /\
  (exists ctx',
     audioContext (setBassBoost value e) = Some ctx' /\
     rampScheduled (before BassFilter_gain) (params ctx' BassFilter_gain) now
       (value / 100 * 20) 0.1 /\
     forall id, id <> BassFilter_gain -> params ctx' id = before id) /\
  (exists ctx',
     audioContext (setDelayMix value e) = Some ctx' /\
     rampScheduled (before DelayNode_delayTime) (params ctx' DelayNode_delayTime) now
       (0.08 + (0.6 - 0.08) * mix) 0.12 /\
     rampScheduled (before DelayFeedback_gain) (params ctx' DelayFeedback_gain) now
       (0.1 + mix * 0.6) 0.12 /\
     rampScheduled (before DelayWetGain_gain) (params ctx' DelayWetGain_gain) now
       (mix * 0.9) 0.12 /\
     forall id, id <> DelayNode_delayTime -> id <> DelayFeedback_gain ->
                id <> DelayWetGain_gain -> params ctx' id = before id) /\
  (exists ctx',
     audioContext (setChorusMix value e) = Some ctx' /\
     rampScheduled (before ChorusDepth_gain) (params ctx' ChorusDepth_gain) now
       (0.001 + mix * 0.004) 0.12 /\
     rampScheduled (before ChorusWetGain_gain) (params ctx' ChorusWetGain_gain) now
       (mix * 0.8) 0.12 /\
     jumpScheduled (before ChorusLFO_frequency) (params ctx' ChorusLFO_frequency) now
       (0.3 + mix * 1.2) /\
     forall id, id <> ChorusDepth_gain -> id <> ChorusWetGain_gain ->
                id <> ChorusLFO_frequency -> params ctx' id = before id) /\
  (exists ctx',
     audioContext (setCompressor value e) = Some ctx' /\
     jumpScheduled (before Compressor_threshold) (params ctx' Compressor_threshold) now
       (-50 + value / 100 * 40) /\
     jumpScheduled (before Compressor_ratio) (params ctx' Compressor_ratio) now
       (4 + value / 100 * 16) /\
     forall id, id <> Compressor_threshold -> id <> Compressor_ratio ->
                params ctx' id = before id).
Proof.
  intros Hc now before mix.
  assert (H05 : 0 <= 0.05) by lra. assert (H1 : 0 <= 0.1) by lra.
  assert (H12 : 0 <= 0.12) by lra.
  split; [|split; [|split; [|split; [|split]]]].
  - unfold setVolume. rewrite Hc. eexists. split; [reflexivity|]. split.
    + exact (schedule_ramp (params ctx GainNode_gain) now (value / 100) 0.05 H05).
    + intros id Hid. destruct id; try congruence; reflexivity.
  - unfold setReverbMix. cbn [audioContext set_reverbMix]. rewrite Hc.
    eexists. split; [reflexivity|]. split; [|split].
    + exact (schedule_ramp (params ctx DryGain_gain) now (1 - value / 100) 0.1 H1).
    + exact (schedule_ramp (params ctx WetGain_gain) now (value / 100) 0.1 H1).
    + intros id Hd Hw. destruct id; try congruence; reflexivity.
  - unfold setBassBoost. cbn [audioContext set_bassBoost]. rewrite Hc.
    eexists. split; [reflexivity|]. split.
    + exact (schedule_ramp (params ctx BassFilter_gain) now (value / 100 * 20) 0.1 H1).
    + intros id Hid. destruct id; try congruence; reflexivity.
  - unfold setDelayMix. cbn [audioContext set_delayMix]. rewrite Hc.
    eexists. split; [reflexivity|]. split; [|split; [|split]].
    + exact (schedule_ramp (params ctx DelayNode_delayTime) now
               (0.08 + (0.6 - 0.08) * mix) 0.12 H12).
    + exact (schedule_ramp (params ctx DelayFeedback_gain) now (0.1 + mix * 0.6) 0.12 H12).
    + exact (schedule_ramp (params ctx DelayWetGain_gain) now (mix * 0.9) 0.12 H12).
    + intros id Ht Hf Hw. destruct id; try congruence; reflexivity.
  - unfold setChorusMix. cbn [audioContext set_chorusMix]. rewrite Hc.
    eexists. split; [reflexivity|]. split; [|split; [|split]].
    + exact (schedule_ramp (params ctx ChorusDepth_gain) now
               (0.001 + mix * 0.004) 0.12 H12).
    + exact (schedule_ramp (params ctx ChorusWetGain_gain) now (mix * 0.8) 0.12 H12).
    + split; reflexivity.
    + intros id Hd Hw Hl. destruct id; try congruence; reflexivity.
  - unfold setCompressor. cbn [audioContext set_compressorThreshold]. rewrite Hc.
    eexists. split; [reflexivity|]. split; [|split].
    + split; reflexivity.
    + split; reflexivity.
    + intros id Ht Hr. destruct id; try congruence; reflexivity.
Qed.

Lemma knobs_ramp_or_set_witness :
  is_Some (audioContext demoEngine) /\
  exists ctx volume compressor chorus,
    audioContext demoEngine = Some ctx /\
    audioContext (setVolume 50 demoEngine) = Some volume /\
    rampScheduled (params ctx GainNode_gain) (params volume GainNode_gain)
      (currentTime ctx) (50 / 100) 0.05 /\
    audioContext (setCompressor 50 demoEngine) = Some compressor /\
    jumpScheduled (params ctx Compressor_threshold) (params compressor Compressor_threshold)
      (currentTime ctx) (-50 + 50 / 100 * 40) /\
    jumpScheduled (params ctx Compressor_ratio) (params compressor Compressor_ratio)
      (currentTime ctx) (4 + 50 / 100 * 16) /\
    audioContext (setChorusMix 50 demoEngine) = Some chorus /\
    jumpScheduled (params ctx ChorusLFO_frequency) (params chorus ChorusLFO_frequency)
      (currentTime ctx) (0.3 + Qmax 0 (Qmin 100 50) / 100 * 1.2).
Proof.
  destruct (audioContext demoEngine) as [ctx|] eqn:Hc; [|discriminate].
  split; [eexists; reflexivity|].
  destruct (knobs_ramp_or_set demoEngine ctx 50 Hc)
    as ((volume & Hv & Hgain & _) & _ & _ & _ &
        (chorus & Hch & _ & _ & Hlfo & _) & (compressor & Hcp & Hth & Hra & _)).
  exists ctx, volume, compressor, chorus.
  split; [reflexivity|]. split; [exact Hv|]. split; [exact Hgain|].
  split; [exact Hcp|]. split; [exact Hth|]. split; [exact Hra|].
  split; [exact Hch | exact Hlfo].
Defined.

End KnobFacts.

(** ** Presets *)

Section PresetFacts.
Import WebAudio AudioEngine Props.
#[local] Open Scope Q_scope.
Variable Math_pow : Q -> Q -> Q.

Lemma applyPlaybackRate_normal (e : Engine) :
  sourceHasContext e -> exists e', applyPlaybackRate Math_pow e = (Normal tt, e').
Proof.
  intros Hs. unfold applyPlaybackRate, mbind, js_bind, js_modify, js_get.
  set (e1 := updateActualPlaybackRate Math_pow e).
  assert (Hs1 : sourceNode e1 = sourceNode e)
    by (subst e1; unfold updateActualPlaybackRate; destruct (preservePitch e); reflexivity).
  assert (Hc1 : audioContext e1 = audioContext e)
    by (subst e1; unfold updateActualPlaybackRate; destruct (preservePitch e); reflexivity).
  clearbody e1.
  destruct (sourceNode e) as [s|] eqn:Es.
  - destruct (Hs ltac:(eauto)) as [ctx Ec].
    rewrite bool_decide_true by (rewrite Hs1; eauto).
    destruct (isPlaying e1); cbn; [|eauto].
    unfold getContextTime, onSource. rewrite Hc1, Ec. cbn. rewrite Hs1. cbn.
    destruct (preservePitch e1); cbn; eauto.
  - rewrite bool_decide_false by (rewrite Hs1; intros [? ?]; congruence).
    cbn. eauto.
Qed.

Lemma setters_keep_source (e : Engine) (v : Q) :
  sourceHasContext e ->
  sourceHasContext (setReverbMix v e) /\ sourceHasContext (setDelayMix v e) /\
  sourceHasContext (setChorusMix v e).
Proof.
  unfold sourceHasContext, setReverbMix, setDelayMix, setChorusMix. cbn.
  destruct (audioContext e); cbn; intros H; repeat split; intros Hs;
    try (eexists; reflexivity); auto;
    destruct (H Hs) as [? ?]; discriminate.
Qed.

Lemma applyPreset_returns (e : Engine) (name : string) (config : Preset) :
  sourceHasContext e -> lookupPreset name = Normal config ->
  exists e', applyPreset Math_pow name e = (Normal config, e').
Proof.
  intros Hs Hl. unfold applyPreset. unfold mbind at 1, js_bind at 1, js_lift.
  rewrite Hl. unfold mbind, js_bind, js_modify. 
  set (e1 := setChorusMix _ (setDelayMix _ (set_playbackRate _ (set_pitchShift _
               (setReverbMix _ e))))).
  destruct (applyPlaybackRate_normal e1) as [e2 E2].
  { subst e1. apply setters_keep_source.
    assert (H1 : sourceHasContext (setReverbMix (reverb config) e))
      by (apply setters_keep_source; exact Hs).
    set (e0 := setReverbMix (reverb config) e) in *.
    assert (H2 : sourceHasContext
                   (set_playbackRate (speed config) (set_pitchShift (pitch config) e0)))
      by exact H1.
    apply setters_keep_source. exact H2. }
  rewrite E2. exists e2. destruct config; reflexivity.
Qed.

Lemma basic_applyPreset_returns (e : Engine) (name : string)
    (config : BasicAudioEngine.Preset) :
  sourceHasContext e -> BasicAudioEngine.lookupPreset name = Normal config ->
  exists e', BasicAudioEngine.applyPreset Math_pow name e = (Normal config, e').
Proof.
  intros Hs Hl. unfold BasicAudioEngine.applyPreset.
  unfold mbind at 1, js_bind at 1, js_lift. rewrite Hl.
  unfold mbind, js_bind, js_modify. cbn [fst snd].
  match goal with |- context [applyPlaybackRate Math_pow ?s] => set (e1 := s) end.
  destruct (applyPlaybackRate_normal e1) as [e2 E2].
  { subst e1. unfold sourceHasContext in *. cbn.
    destruct (audioContext e) as [ctx|] eqn:Hc; cbn; intros Hsrc.
    - eexists. reflexivity.
    - rewrite Hc. apply Hs. exact Hsrc. }
  rewrite E2. exists e2. reflexivity.
Qed.

(** C5, amended.  [applyPreset] of the engine with delay and chorus
    returns, for each of the six preset names, the five resolved values:
    for "nightcore" reverb 10, pitch 4, speed 1.25, delay 8, chorus 30.
    [applyPreset] of the earlier copy returns, for each name, the same
    reverb, pitch and speed and nothing else: the object has no delay and
    no chorus. *)
Theorem applyPreset_resolved (e : Engine) :
  sourceHasContext e ->
  ((applyPreset Math_pow "nightcore" e).1 =
     Normal {| reverb := 10; pitch := 4; speed := 1.25; delay := 8; chorus := 30 |} /\
   (applyPreset Math_pow "concert" e).1 =
     Normal {| reverb := 40; pitch := 0; speed := 1.0; delay := 25; chorus := 12 |} /\
   (applyPreset Math_pow "studio" e).1 =
     Normal {| reverb := 15; pitch := 0; speed := 1.0; delay := 10; chorus := 8 |} /\
   (applyPreset Math_pow "radio" e).1 =
     Normal {| reverb := 5; pitch := 1; speed := 1.0; delay := 0; chorus := 0 |} /\
   (applyPreset Math_pow "slowed" e).1 =
     Normal {| reverb := 60; pitch := -2; speed := 0.75; delay := 45; chorus := 16 |} /\
   (applyPreset Math_pow "default" e).1 =
     Normal {| reverb := 0; pitch := 0; speed := 1.0; delay := 0; chorus := 0 |}) /\
  ((BasicAudioEngine.applyPreset Math_pow "nightcore" e).1 =
     Normal {| BasicAudioEngine.reverb := 10; BasicAudioEngine.pitch := 4;
               BasicAudioEngine.speed := 1.25 |} /\
   (BasicAudioEngine.applyPreset Math_pow "concert" e).1 =
     Normal {| BasicAudioEngine.reverb := 40; BasicAudioEngine.pitch := 0;
               BasicAudioEngine.speed := 1.0 |} /\
   (BasicAudioEngine.applyPreset Math_pow "studio" e).1 =
     Normal {| BasicAudioEngine.reverb := 15; BasicAudioEngine.pitch := 0;
               BasicAudioEngine.speed := 1.0 |} /\
   (BasicAudioEngine.applyPreset Math_pow "radio" e).1 =
     Normal {| BasicAudioEngine.reverb := 5; BasicAudioEngine.pitch := 1;
               BasicAudioEngine.speed := 1.0 |} /\
   (BasicAudioEngine.applyPreset Math_pow "slowed" e).1 =
     Normal {| BasicAudioEngine.reverb := 60; BasicAudioEngine.pitch := -2;
               BasicAudioEngine.speed := 0.75 |} /\
   (BasicAudioEngine.applyPreset Math_pow "default" e).1 =
     Normal {| BasicAudioEngine.reverb := 0; BasicAudioEngine.pitch := 0;
               BasicAudioEngine.speed := 1.0 |}) /\
  (forall name,
     name ∈ ["concert"; "studio"; "radio"; "nightcore"; "slowed"; "default"]%string ->
     exists config basic,
       (applyPreset Math_pow name e).1 = Normal config /\
       (BasicAudioEngine.applyPreset Math_pow name e).1 = Normal basic /\
       fst <$> entries config = ["reverb"; "pitch"; "speed"; "delay"; "chorus"]%string /\
       fst <$> BasicAudioEngine.entries basic = ["reverb"; "pitch"; "speed"]%string /\
       BasicAudioEngine.reverb basic = reverb config /\
       BasicAudioEngine.pitch basic = pitch config /\
       BasicAudioEngine.speed basic = speed config).
Proof.
  intros Hs. split; [|split].
  - repeat split;
      match goal with
      | |- (applyPreset _ ?n _).1 = Normal ?c =>
          destruct (applyPreset_returns e n c Hs eq_refl) as [e' ->]; reflexivity
      end.
  - repeat split;
      match goal with
      | |- (BasicAudioEngine.applyPreset _ ?n _).1 = Normal ?c =>
          destruct (basic_applyPreset_returns e n c Hs eq_refl) as [e' ->]; reflexivity
      end.
  - intros name Hin.
    repeat (apply elem_of_cons in Hin as [->|Hin]);
      [..|apply elem_of_nil in Hin; contradiction];
      match goal with
      | |- exists _ _, (applyPreset _ ?n _).1 = _ /\ _ =>
          edestruct (applyPreset_returns e n _ Hs eq_refl) as [e1 E1];
          edestruct (basic_applyPreset_returns e n _ Hs eq_refl) as [e2 E2];
          eexists _, _; rewrite E1, E2; repeat split
      end.
Qed.

End PresetFacts.

Lemma applyPreset_resolved_witness :
  Props.sourceHasContext Props.demoLoaded /\
  (AudioEngine.applyPreset Props.demoPow "nightcore" Props.demoLoaded).1 =
    Normal {| AudioEngine.reverb := 10; AudioEngine.pitch := 4; AudioEngine.speed := 1.25;
             AudioEngine.delay := 8; AudioEngine.chorus := 30 |} /\
  (BasicAudioEngine.applyPreset Props.demoPow "nightcore" Props.demoLoaded).1 =
    Normal {| BasicAudioEngine.reverb := 10; BasicAudioEngine.pitch := 4;
              BasicAudioEngine.speed := 1.25 |}.
Proof.
  assert (Hs : Props.sourceHasContext Props.demoLoaded).
  { intros _. vm_compute. eexists. reflexivity. }
  split; [exact Hs|].
  destruct (applyPreset_resolved Props.demoPow Props.demoLoaded Hs)
    as ((Hnight & _) & (Hbasic & _) & _).
  split; [exact Hnight | exact Hbasic].
Defined.

(** C5 as stated fails for the earlier copy: the object its
    [applyPreset("nightcore")] returns has the three properties of its
    table, so it is not the configuration with [delay: 8] and
    [chorus: 30]. *)
Lemma basic_applyPreset_has_three_entries :
  exists config e',
    BasicAudioEngine.applyPreset Props.demoPow "nightcore" Props.demoLoaded
    = (Normal config, e') /\
    BasicAudioEngine.entries config
    = [("reverb"%string, 10%Q); ("pitch"%string, 4%Q); ("speed"%string, 1.25%Q)] /\
    BasicAudioEngine.entries config
    <> [("reverb"%string, 10%Q); ("pitch"%string, 4%Q); ("speed"%string, 1.25%Q);
        ("delay"%string, 8%Q); ("chorus"%string, 30%Q)].
Proof.
  assert (Hs : Props.sourceHasContext Props.demoLoaded).
  { intros _. vm_compute. eexists. reflexivity. }
  destruct (basic_applyPreset_returns Props.demoPow Props.demoLoaded "nightcore"
              {| BasicAudioEngine.reverb := 10; BasicAudioEngine.pitch := 4;
                 BasicAudioEngine.speed := 1.25 |} Hs eq_refl) as [e' E].
  eexists _, e'. split; [exact E|]. split; [reflexivity | discriminate].
Qed.

(** ** Offline export *)

Section ExportFacts.
Import WebAudio AudioEngine Props.
#[local] Open Scope Q_scope.
Variable Math_pow : Q -> Q -> Q.
Variable startRendering : OfflineGraph -> Completion AudioBuffer.

(** C10.  With no track loaded [exportProcessedAudio] returns null, starts
    no offline rendering and does not call the progress callback. *)
Theorem export_without_buffer (e : Engine) (progressCallback : bool) :
  audioBuffer e = None ->
  exportProcessedAudio Math_pow startRendering progressCallback e = (Normal None, [], e).
Proof. intros Hb. unfold exportProcessedAudio. rewrite Hb. reflexivity. Qed.

Lemma connect_here (a b : NodeId) (g : Connections) : (a, b) ∈ connect a b g.
Proof.
  unfold connect. case_bool_decide; [assumption|]. apply elem_of_app. right.
  apply list_elem_of_singleton. reflexivity.
Qed.

Lemma connect_keeps (a b : NodeId) (g : Connections) (c : NodeId * NodeId) :
  c ∈ g -> c ∈ connect a b g.
Proof.
  intros Hc. unfold connect. case_bool_decide; [assumption|]. apply elem_of_app. auto.
Qed.

Lemma setupAudioChain_path (e : Engine) (ctx : AudioContext) :
  audioContext e = Some ctx -> chainConfigured e = false ->
  let g := liveConnections (setupAudioChain e) in
  (GainNode, BassFilter) ∈ g /\ (BassFilter, Compressor) ∈ g /\
  (Compressor, DryGain) ∈ g /\ (Compressor, ConvolverNode) ∈ g /\
  (Compressor, DelayInput) ∈ g /\ (Compressor, ChorusInput) ∈ g.
Proof.
  intros Hc Hcfg. unfold liveConnections, setupAudioChain. rewrite Hc, Hcfg. cbn.
  repeat split; repeat (first [apply connect_here | apply connect_keeps]).
Qed.

Lemma export_renders (e : Engine) (ctx : AudioContext) (buf rendered : AudioBuffer)
    (progressCallback : bool) :
  audioBuffer e = Some buf -> audioContext e = Some ctx ->
  let e' := updateActualPlaybackRate Math_pow e in
  startRendering (offlineGraph e' ctx buf) = Normal rendered ->
  exportProcessedAudio Math_pow startRendering progressCallback e =
    (Normal (Some rendered),
     StartRendering (offlineGraph e' ctx buf) ::
       (if progressCallback then [ProgressCallback 100] else []),
     e').
Proof.
  intros Hb Hc e' Hr. unfold exportProcessedAudio. rewrite Hb. fold e'.
  assert (Hc' : audioContext e' = Some ctx)
    by (subst e'; unfold updateActualPlaybackRate; destruct (preservePitch e); exact Hc).
  rewrite Hc', Hr. reflexivity.
Qed.

(** Closes [~ In x l] for a closed list [l] of constructors without [x]. *)
Ltac not_in_closed_list :=
  let H := fresh "H" in
  intros H; vm_compute in H; repeat (destruct H as [H|H]; [discriminate|]); exact H.

Lemma offline_graph_stages (e : Engine) (ctx : AudioContext) (buf : AudioBuffer) :
  let g := offlineGraph e ctx buf in
  seriesPath (offlineConnections g) = [GainNode] /\
  splitAfter (offlineConnections g) = [DryGain; ConvolverNode; DelayInput; ChorusInput] /\
  ~ In BassFilter (graphNodes (offlineConnections g)) /\
  ~ In Compressor (graphNodes (offlineConnections g)) /\
  map fst (offlineValues g) =
    [GainNode_gain; DryGain_gain; WetGain_gain; DelayInput_gain; DelayNode_delayTime;
     DelayFeedback_gain; DelayWetGain_gain; ChorusInput_gain; ChorusDelay_delayTime;
     ChorusDepth_gain; ChorusWetGain_gain; ChorusLFO_frequency].
Proof.
  split; [reflexivity|]. split; [reflexivity|].
  split; [|split; [|reflexivity]]; not_in_closed_list.
Qed.

Lemma settled_value (p : AudioParam) (now target d a : Q) :
  0 < d -> d <= a ->
  let p1 := cancelScheduledValues now p in
  let p2 := setValueAtTime (value p1) now p1 in
  valueAtTime (linearRampToValueAtTime target (now + d) p2) (now + a) == target.
Proof.
  intros Hd Ha p1 p2.
  rewrite (ramped_value p _ now target d a); [apply rampValue_end; exact Ha | | lra | exact Hd].
  apply schedule_ramp. lra.
Qed.

Ltac shared_stage :=
  eexists _, _, _; split; [reflexivity|]; split; [reflexivity|];
  split; [reflexivity|]; cbn; first [reflexivity | apply settled_value; lra].

(** Where the export and the live chain share a stage they agree once the
    live ramps are over: the export assigns the setters' targets, and the
    gain's current value. *)
Lemma export_values_of_shared_stages (e : Engine) (ctx : AudioContext) (buf : AudioBuffer)
    (reverb delay chorus a : Q) (id : ParamId) :
  audioContext e = Some ctx -> 0.12 <= a ->
  In id [GainNode_gain; DryGain_gain; WetGain_gain; DelayNode_delayTime; DelayFeedback_gain;
         DelayWetGain_gain; ChorusDepth_gain; ChorusWetGain_gain] ->
  let e' := advance a (setChorusMix chorus (setDelayMix delay (setReverbMix reverb e))) in
  exists ctx' live offline,
    audioContext e' = Some ctx' /\
    liveValue e' id = Some live /\
    offlineValue (offlineGraph e' ctx' buf) id = Some offline /\
    live == offline.
Proof.
  intros Hc Ha Hid e'. subst e'.
  unfold setChorusMix, setDelayMix, setReverbMix, advance, liveValue. cbn.
  rewrite Hc. cbn. cbn in Hid.
  repeat (destruct Hid as [<-|Hid]; [shared_stage|]); contradiction.
Qed.

End ExportFacts.

Section ExportExample.
Import WebAudio AudioEngine Props.
#[local] Open Scope Q_scope.

(** C2.  The offline graph is not the live chain.  With a track playing
    and the bass boost at 50, the live chain runs source, gain, bass
    filter (+10 dB once its ramp is over), compressor, and splits after
    the compressor into dry, reverb, delay and chorus; the graph
    [exportProcessedAudio] renders runs source, gain, and splits after the
    gain into the same four branches: it has no bass filter and no
    compressor, and assigns no value to either. *)
Theorem export_graph_lacks_bass_and_compressor :
  let e := advance 1 (play demoPow (setBassBoost 50 demoLoaded)).2 in
  seriesPath (liveConnections e) = [GainNode; BassFilter; Compressor] /\
  splitAfter (liveConnections e) = [DryGain; ConvolverNode; DelayInput; ChorusInput] /\
  (exists v, liveValue e BassFilter_gain = Some v /\ v == 10) /\
  exists g rendered e',
    exportProcessedAudio demoPow demoRender true e
    = (Normal (Some rendered), [StartRendering g; ProgressCallback 100], e') /\
    seriesPath (offlineConnections g) = [GainNode] /\
    splitAfter (offlineConnections g) = [DryGain; ConvolverNode; DelayInput; ChorusInput] /\
    ~ In BassFilter (graphNodes (offlineConnections g)) /\
    ~ In Compressor (graphNodes (offlineConnections g)) /\
    ~ In BassFilter_gain (map fst (offlineValues g)) /\
    ~ In Compressor_threshold (map fst (offlineValues g)).
Proof.
  intros e.
  split; [vm_compute; reflexivity|]. split; [vm_compute; reflexivity|].
  split; [eexists; split; [vm_compute; reflexivity | reflexivity]|].
  assert (Hb : audioBuffer e = Some demoTrack) by (vm_compute; reflexivity).
  destruct (audioContext e) as [ctx|] eqn:Hc; [|discriminate].
  clearbody e.
  pose proof (export_renders demoPow demoRender e ctx demoTrack demoTrack true Hb Hc eq_refl)
    as Hexp.
  destruct (offline_graph_stages (updateActualPlaybackRate demoPow e) ctx demoTrack)
    as (H1 & H2 & H3 & H4 & H5).
  eexists _, _, _. split; [exact Hexp|].
  repeat split; try assumption; rewrite H5; intros H; simpl in H; intuition discriminate.
Qed.

End ExportExample.

Lemma export_without_buffer_witness :
  AudioEngine.audioBuffer Props.demoEngine = None /\
  AudioEngine.exportProcessedAudio Props.demoPow Props.demoRender true Props.demoEngine
  = (Normal None, [], Props.demoEngine).
Proof.
  assert (Hb : AudioEngine.audioBuffer Props.demoEngine = None) by reflexivity.
  split; [exact Hb|].
  exact (export_without_buffer Props.demoPow Props.demoRender Props.demoEngine true Hb).
Defined.

(** ** Loading a track *)

Section LoadingFacts.
Import WebAudio AudioEngine Props.
#[local] Open Scope Q_scope.
Variable Math_pow : Q -> Q -> Q.
Variable decodeAudioData : list Z -> Completion AudioBuffer.

Lemma loadAudioFile_rejected (e : Engine) (ctx : AudioContext) (bytes : list Z)
    (err : JsError) :
  audioContext e = Some ctx -> decodeAudioData bytes = Throw err ->
  exists e',
    loadAudioFile decodeAudioData bytes e = (Throw err, e') /\
    audioBuffer e' = audioBuffer e /\ pauseTime e' = pauseTime e /\
    startTime e' = startTime e /\ isPlaying e' = isPlaying e /\
    sourceNode e' = sourceNode e /\ actualPlaybackRate e' = actualPlaybackRate e /\
    (exists ctx', audioContext e' = Some ctx' /\ currentTime ctx' = currentTime ctx /\
                  params ctx' = params ctx /\ connections ctx' = connections ctx).
Proof.
  intros Hc Hd.
  unfold loadAudioFile, js_try, mbind, js_bind, js_get, js_lift, js_throw, js_modify.
  rewrite Hc, Hd. destruct (state ctx); cbn;
    (eexists; split; [reflexivity|]); cbn; repeat split; eauto.
Qed.

(** C3 as stated fails: a failed decode is thrown at the caller, not
    returned. *)
Lemma load_failure_is_thrown : ~ loadReturns demoDecode [] demoEngine.
Proof.
  intros (info & e' & H). vm_compute in H. discriminate.
Qed.

End LoadingFacts.

Section PlayTrackFacts.
Import App.
#[local] Open Scope Q_scope.
Variable Math_pow : Q -> Q -> Q.
Variable decodeAudioData : list Z -> Completion AudioBuffer.
Variable readFile : string -> option (list Z).

Lemma playTrackAt_decode_failure (app : DeskSongApp) (index : nat) (track : Track)
    (bytes : list Z) (err : JsError) (ctx : AudioEngine.AudioContext) :
  tracks (playlistManager app) !! index = Some track ->
  readFile (path track) = Some bytes ->
  decodeAudioData bytes = Throw err ->
  AudioEngine.audioContext (audioEngine app) = Some ctx ->
  exists app',
    playTrackAt Math_pow decodeAudioData readFile (Z.of_nat index) app = (Normal tt, app') /\
    notifications (uiController app') =
      notifications (uiController app) ++ [("Failed to play track"%string, "error"%string)] /\
    AudioEngine.isPlaying (audioEngine app') = false /\
    AudioEngine.pauseTime (audioEngine app') = 0 /\
    AudioEngine.sourceNode (audioEngine app') = None /\
    AudioEngine.audioBuffer (audioEngine app') = AudioEngine.audioBuffer (audioEngine app).
Proof.
  intros Ht Hr Hd Hc.
  pose proof (lookup_lt_Some _ _ _ Ht) as Hlt.
  destruct (stop_keeps_context (audioEngine app) ctx Hc)
    as (e1 & ctx1 & E1 & Hc1 & _ & _ & Hs1 & Hp1 & Hpt1 & _ & Hb1).
  destruct (loadAudioFile_rejected decodeAudioData e1 ctx1 bytes err Hc1 Hd)
    as (e2 & E2 & Hb2 & Hpt2 & _ & Hp2 & Hs2 & _).
  unfold playTrackAt. unfold mbind at 1, js_bind at 1, setCurrentIndex.
  rewrite bool_decide_true by lia. cbn [negb].
  unfold mbind at 1, js_bind at 1, js_get. cbn [playlistManager set_playlistManager].
  unfold getCurrentTrack. cbn [currentIndex tracks].
  rewrite bool_decide_true by lia. rewrite Nat2Z.id, Ht.
  unfold js_try, mbind, js_bind, onEngine. cbn [audioEngine set_playlistManager].
  rewrite E1. cbn [fst snd]. rewrite Hr. cbn [audioEngine set_audioEngine].
  rewrite E2. cbn [fst snd]. unfold showNotification, js_modify.
  eexists; split; [reflexivity|]. cbn.
  rewrite Hp2, Hpt2, Hs2, Hb2. auto.
Qed.

(** C3, amended.  When the decode fails, [loadAudioFile] throws the
    decoder's error at its caller and leaves the loaded buffer, the
    position and the playing flag as they were.  [playTrackAt], which has
    stopped the engine before loading, catches the error and shows
    "Failed to play track": nothing is thrown out of it, the engine is
    left stopped at 0 with the buffer it had. *)
Theorem load_failure_rethrown_and_caught :
  (forall (e : AudioEngine.Engine) (ctx : AudioEngine.AudioContext) (bytes : list Z)
          (err : JsError),
     AudioEngine.audioContext e = Some ctx -> decodeAudioData bytes = Throw err ->
     exists e',
       AudioEngine.loadAudioFile decodeAudioData bytes e = (Throw err, e') /\
       AudioEngine.audioBuffer e' = AudioEngine.audioBuffer e /\
       AudioEngine.pauseTime e' = AudioEngine.pauseTime e /\
       AudioEngine.startTime e' = AudioEngine.startTime e /\
       AudioEngine.isPlaying e' = AudioEngine.isPlaying e /\
       AudioEngine.sourceNode e' = AudioEngine.sourceNode e /\
       AudioEngine.getCurrentTime e' = AudioEngine.getCurrentTime e) /\
  (forall (app : DeskSongApp) (index : nat) (track : Track) (bytes : list Z)
          (err : JsError) (ctx : AudioEngine.AudioContext),
     tracks (playlistManager app) !! index = Some track ->
     readFile (path track) = Some bytes ->
     decodeAudioData bytes = Throw err ->
     AudioEngine.audioContext (audioEngine app) = Some ctx ->
     exists app',
       playTrackAt Math_pow decodeAudioData readFile (Z.of_nat index) app
       = (Normal tt, app') /\
       notifications (uiController app') =
         notifications (uiController app) ++
         [("Failed to play track"%string, "error"%string)] /\
       AudioEngine.isPlaying (audioEngine app') = false /\
       AudioEngine.pauseTime (audioEngine app') = 0 /\
       AudioEngine.audioBuffer (audioEngine app') =
         AudioEngine.audioBuffer (audioEngine app)).
Proof.
  split.
  - intros e ctx bytes err Hc Hd.
    destruct (loadAudioFile_rejected decodeAudioData e ctx bytes err Hc Hd)
      as (e' & E & Hb & Hpt & Hst & Hp & Hs & Hr & (ctx' & Hc' & Hnow & _)).
    exists e'. repeat split; try assumption.
    unfold AudioEngine.getCurrentTime. rewrite Hb, Hp, Hs, Hc, Hc', Hpt, Hst, Hr, Hnow.
    reflexivity.
  - intros app index track bytes err ctx Ht Hr Hd Hc.
    destruct (playTrackAt_decode_failure app index track bytes err ctx Ht Hr Hd Hc)
      as (app' & E & Hn & Hp & Hpt & _ & Hb).
    exists app'. repeat split; assumption.
Qed.

End PlayTrackFacts.

Lemma load_failure_rethrown_and_caught_witness :
  is_Some (AudioEngine.audioContext Props.demoLoaded) /\
  Props.demoDecode [] = Throw EncodingError /\
  (exists e',
     AudioEngine.loadAudioFile Props.demoDecode [] Props.demoLoaded
     = (Throw EncodingError, e') /\
     AudioEngine.audioBuffer e' = Some Props.demoTrack) /\
  (exists app',
     App.playTrackAt Props.demoPow Props.demoDecode Props.demoReadFile 0 Props.demoApp
     = (Normal tt, app') /\
     App.notifications (App.uiController app')
     = [("Failed to play track"%string, "error"%string)]).
Proof.
  assert (Hd : Props.demoDecode [] = Throw EncodingError) by reflexivity.
  destruct (AudioEngine.audioContext Props.demoLoaded) as [ctx|] eqn:Hc; [|discriminate].
  split; [eexists; reflexivity|]. split; [exact Hd|].
  destruct (load_failure_rethrown_and_caught Props.demoPow Props.demoDecode Props.demoReadFile)
    as [Hload Hplay].
  split.
  - destruct (Hload Props.demoLoaded ctx [] EncodingError Hc Hd) as (e' & E & Hb & _).
    exists e'. split; [exact E|]. rewrite Hb. reflexivity.
  - destruct (Hplay Props.demoApp 0%nat _ [] EncodingError ctx eq_refl eq_refl Hd Hc)
      as (app' & E & Hn & _).
    exists app'. split; [exact E | exact Hn].
Defined.

(** ** Pausing and changing the rate *)

Section PauseFacts.
Import WebAudio AudioEngine Props.
#[local] Open Scope Q_scope.

Lemma pause_spec (e : Engine) (ctx : AudioContext) :
  audioContext e = Some ctx -> isPlaying e = true -> is_Some (sourceNode e) ->
  exists e' ctx',
    pause e = (Normal tt, e') /\ isPlaying e' = false /\ sourceNode e' = None /\
    audioBuffer e' = audioBuffer e /\
    pauseTime e' = pauseTime e + (currentTime ctx - startTime e) * actualPlaybackRate e /\
    startTime e' = startTime e /\ actualPlaybackRate e' = actualPlaybackRate e /\
    audioContext e' = Some ctx' /\ currentTime ctx' = currentTime ctx /\
    params ctx' = params ctx /\ pendingTimeouts e' = pendingTimeouts e.
Proof.
  intros Hc Hp Hs. unfold pause. unfold mbind at 1, js_bind at 1, js_get.
  rewrite Hp, bool_decide_true by assumption. cbn [negb orb].
  unfold mbind at 1, js_bind at 1, getContextTime. rewrite Hc.
  unfold mbind at 1, js_bind at 1, js_modify.
  set (e0 := set_pauseTime _ e).
  destruct (drop_source_normal e0) as (e1 & E1 & Hb1 & Hpt1 & Hst1 & Hp1 & _ & Hc1 & Hr1 & Hto1).
  destruct (Hc1 ctx Hc) as (ctx1 & Hctx1 & Hnow & Hpar & _).
  unfold mbind, js_bind in *. rewrite E1.
  eexists _, ctx1. split; [reflexivity|]. cbn. rewrite Hb1, Hpt1, Hst1, Hr1, Hto1, Hctx1.
  repeat split; auto.
Qed.

Lemma pause_not_playing (e : Engine) : isPlaying e = false -> pause e = (Normal tt, e).
Proof.
  intros Hp. unfold pause. unfold mbind at 1, js_bind at 1, js_get. rewrite Hp. reflexivity.
Qed.

(** X1.  [pause()] on a playing engine stops and drops the source and
    stores as the position what was played up to now: the anchor
    position plus the time since the anchor times the rate in use.
    After it [getCurrentTime()] returns that position however long the
    clock runs on, a second [pause()] changes nothing, and as long as the
    position is inside the track it is the position [getCurrentTime()]
    reported just before the pause. *)
Theorem pause_holds_position (e : Engine) (buf : AudioBuffer) (ctx : AudioContext) :
  audioBuffer e = Some buf -> audioContext e = Some ctx ->
  isPlaying e = true -> is_Some (sourceNode e) ->
  let p := pauseTime e + (currentTime ctx - startTime e) * actualPlaybackRate e in
  exists e',
    pause e = (Normal tt, e') /\ isPlaying e' = false /\ sourceNode e' = None /\
    pause e' = (Normal tt, e') /\
    (forall dt, getCurrentTime (advance dt e') = Normal p) /\
    (p <= duration buf -> exists q, getCurrentTime e = Normal q /\ q == p).
Proof.
  intros Hb Hc Hp Hs p.
  destruct (pause_spec e ctx Hc Hp Hs)
    as (e' & ctx' & E & Hp' & Hs' & Hb' & Hpt' & _ & _ & Hc' & _).
  exists e'. split; [exact E|]. split; [exact Hp'|]. split; [exact Hs'|].
  split; [apply pause_not_playing; exact Hp'|]. split.
  - intros dt.
    destruct (advance_spec e' ctx' dt Hc') as (ctx2 & _ & _ & _ & Hb2 & Hp2 & Hpt2 & _).
    rewrite getCurrentTime_not_playing by (rewrite ?Hb2, ?Hb', ?Hb; eauto; congruence).
    rewrite Hpt2, Hpt'. reflexivity.
  - intros Hle. eexists. split.
    + apply (getCurrentTime_playing e buf ctx); assumption.
    + fold p. apply Q.min_l. exact Hle.
Qed.

End PauseFacts.

Lemma pause_holds_position_witness :
  AudioEngine.audioBuffer Notions.demoPlaying = Some Props.demoTrack /\
  is_Some (AudioEngine.audioContext Notions.demoPlaying) /\
  AudioEngine.isPlaying Notions.demoPlaying = true /\
  is_Some (AudioEngine.sourceNode Notions.demoPlaying) /\
  exists e',
    AudioEngine.pause Notions.demoPlaying = (Normal tt, e') /\
    AudioEngine.isPlaying e' = false /\ AudioEngine.sourceNode e' = None.
Proof.
  assert (Hb : AudioEngine.audioBuffer Notions.demoPlaying = Some Props.demoTrack)
    by reflexivity.
  assert (Hp : AudioEngine.isPlaying Notions.demoPlaying = true) by reflexivity.
  assert (Hs : is_Some (AudioEngine.sourceNode Notions.demoPlaying))
    by (vm_compute; eexists; reflexivity).
  destruct (AudioEngine.audioContext Notions.demoPlaying) as [ctx|] eqn:Hc; [|discriminate].
  split; [exact Hb|]. split; [eexists; reflexivity|]. split; [exact Hp|]. split; [exact Hs|].
  destruct (pause_holds_position Notions.demoPlaying Props.demoTrack ctx Hb Hc Hp Hs)
    as (e' & E & Hp' & Hs' & _).
  exists e'. split; [exact E|]. split; [exact Hp' | exact Hs'].
Defined.

Section RateFacts.
Import WebAudio AudioEngine Props.
#[local] Open Scope Q_scope.
Variable Math_pow : Q -> Q -> Q.

Lemma updateActualPlaybackRate_keeps (e : Engine) :
  let e' := updateActualPlaybackRate Math_pow e in
  audioContext e' = audioContext e /\ sourceNode e' = sourceNode e /\
  audioBuffer e' = audioBuffer e /\ startTime e' = startTime e /\
  pauseTime e' = pauseTime e /\ isPlaying e' = isPlaying e /\
  preservePitch e' = preservePitch e /\ pitchShift e' = pitchShift e /\
  pendingTimeouts e' = pendingTimeouts e.
Proof.
  unfold updateActualPlaybackRate. destruct (preservePitch e) eqn:E; cbn; rewrite ?E; auto 10.
Qed.

Lemma applyPlaybackRate_spec (e : Engine) (ctx : AudioContext) (s : AudioBufferSourceNode) :
  audioContext e = Some ctx -> isPlaying e = true -> sourceNode e = Some s ->
  let r := actualPlaybackRate (updateActualPlaybackRate Math_pow e) in
  exists e' s',
    applyPlaybackRate Math_pow e = (Normal tt, e') /\
    actualPlaybackRate e' = r /\
    pauseTime e' = pauseTime e + (currentTime ctx - startTime e) * r /\
    startTime e' = currentTime ctx /\ isPlaying e' = true /\
    audioBuffer e' = audioBuffer e /\ audioContext e' = Some ctx /\
    sourceNode e' = Some s' /\
    rampScheduled (WebAudio.playbackRate s) (WebAudio.playbackRate s') (currentTime ctx) r 0.1 /\
    (preservePitch e = true ->
     rampScheduled (detune s) (detune s') (currentTime ctx) (pitchShift e * 100) 0.1).
Proof.
  intros Hc Hp Hs r.
  destruct (updateActualPlaybackRate_keeps e)
    as (Hc1 & Hs1 & Hb1 & Hst1 & Hpt1 & Hp1 & Hpp1 & Hps1 & _).
  unfold applyPlaybackRate. unfold mbind at 1, js_bind at 1, js_modify.
  fold r. revert Hc1 Hs1 Hb1 Hst1 Hpt1 Hp1 Hpp1 Hps1. subst r.
  generalize (updateActualPlaybackRate Math_pow e).
  intros e1 Hc1 Hs1 Hb1 Hst1 Hpt1 Hp1 Hpp1 Hps1.
  unfold mbind at 1, js_bind at 1, js_get.
  rewrite Hp1, Hp, Hs1, Hs, bool_decide_true by eauto. cbn [andb].
  unfold mbind, js_bind, getContextTime, js_modify, onSource, mret, js_ret.
  rewrite Hc1, Hc. cbn. rewrite Hs1, Hs. cbn.
  destruct (preservePitch e1) eqn:Hpp; cbn; rewrite ?Hs1, ?Hs; cbn.
  - eexists _, _. split; [reflexivity|]. cbn. rewrite Hpt1, Hst1, Hb1, Hc1, Hc, Hps1.
    repeat split; try (apply schedule_ramp; lra); congruence.
  - eexists _, _. split; [reflexivity|]. cbn. rewrite Hpt1, Hst1, Hb1, Hc1, Hc.
    repeat split; try (apply schedule_ramp; lra); congruence.
Qed.

(** X2.  [applyPlaybackRate()] on a playing engine anchors the clock
    anew at the current time.  The rate is updated first, so the position
    it stores is the old anchor position plus the time since the old
    anchor times the new rate (where [getCurrentTime()] had counted that
    time at the rate in use until then), and the source's playback rate
    ramps to the new rate over 100 ms.  Left to itself, the engine
    reports a position that advances from there at the new rate, capped
    at the duration, for as long as no [ended] event is delivered; when
    one is delivered, the handler of [play()] stops the engine: it is not
    playing, has no source, and the position is 0. *)
Theorem rate_change_reanchors (e : Engine) (buf : AudioBuffer) (ctx : AudioContext)
    (s : AudioBufferSourceNode) :
  audioBuffer e = Some buf -> audioContext e = Some ctx ->
  isPlaying e = true -> sourceNode e = Some s ->
  let r := actualPlaybackRate (updateActualPlaybackRate Math_pow e) in
  let elapsed := currentTime ctx - startTime e in
  let p := pauseTime e + elapsed * r in
  getCurrentTime e =
    Normal (Qmin (pauseTime e + elapsed * actualPlaybackRate e) (duration buf)) /\
  exists e' s',
    applyPlaybackRate Math_pow e = (Normal tt, e') /\
    actualPlaybackRate e' = r /\ pauseTime e' = p /\ startTime e' = currentTime ctx /\
    isPlaying e' = true /\ sourceNode e' = Some s' /\
    rampScheduled (WebAudio.playbackRate s) (WebAudio.playbackRate s') (currentTime ctx) r 0.1 /\
    (exists q, getCurrentTime e' = Normal q /\ q == Qmin p (duration buf)) /\
    (forall onEnded ended dt,
       0 <= dt -> (forall t, ended = Some t -> t < 0 \/ dt < t) ->
       exists e2 q,
         Playback.elapse onEnded ended dt e' = (Normal tt, e2) /\
         getCurrentTime e2 = Normal q /\ q == Qmin (p + dt * r) (duration buf)) /\
    (forall onEnded t dt,
       0 <= t -> t <= dt ->
       exists e0,
         isPlaying e0 = false /\ sourceNode e0 = None /\ getCurrentTime e0 = Normal 0 /\
         Playback.elapse onEnded (Some t) dt e' =
           ((match onEnded with Some callback => callback | None => mret tt end);;
            js_modify (advance (dt - t))) e0 /\
         (onEnded = None ->
          exists e2,
            Playback.elapse onEnded (Some t) dt e' = (Normal tt, e2) /\
            isPlaying e2 = false /\ getCurrentTime e2 = Normal 0)).
Proof.
  intros Hb Hc Hp Hs r elapsed p.
  split; [apply (getCurrentTime_playing e buf ctx); eauto|].
  destruct (applyPlaybackRate_spec e ctx s Hc Hp Hs)
    as (e' & s' & E & Hr & Hpt & Hst & Hp' & Hb' & Hc' & Hs' & Hramp & _).
  exists e', s'. split; [exact E|]. split; [exact Hr|]. split; [exact Hpt|].
  split; [exact Hst|]. split; [exact Hp'|]. split; [exact Hs'|]. split; [exact Hramp|].
  assert (Hlater : forall dt, exists q,
            getCurrentTime (advance dt e') = Normal q /\
            q == Qmin (p + dt * r) (duration buf)).
  { intros dt.
    destruct (advance_spec e' ctx dt Hc')
      as (ctx2 & Hc2 & Hnow2 & _ & Hb2 & Hp2 & Hpt2 & Hst2 & Hr2 & Hs2).
    eexists. split.
    - apply (getCurrentTime_playing _ buf ctx2); try congruence. apply Hs2. eauto.
    - rewrite Hpt2, Hst2, Hr2, Hnow2, Hst, Hpt, Hr. fold r. fold elapsed. fold p.
      apply Q.min_compat; [|reflexivity]. ring. }
  split; [|split].
  - eexists. split.
    + apply (getCurrentTime_playing e' buf ctx); try congruence. eauto.
    + rewrite Hpt, Hst. fold r. fold elapsed. fold p.
      apply Q.min_compat; [|reflexivity]. ring.
  - intros onEnded ended dt _ Hnone.
    assert (Hrun : Playback.elapse onEnded ended dt e' = (Normal tt, advance dt e')).
    { unfold Playback.elapse. destruct ended as [t|]; [|reflexivity].
      destruct (Qle_bool 0 t) eqn:H0; [|reflexivity].
      destruct (Qle_bool t dt) eqn:H1; [|reflexivity].
      apply Qle_bool_iff in H0. apply Qle_bool_iff in H1.
      destruct (Hnone t eq_refl); lra. }
    destruct (Hlater dt) as (q & Hq & Hval).
    exists (advance dt e'), q. split; [exact Hrun|]. split; [exact Hq | exact Hval].
  - intros onEnded t dt Ht Htdt.
    destruct (advance_spec e' ctx t Hc')
      as (ctx2 & Hc2 & _ & _ & Hb2 & Hp2 & _).
    destruct (stop_keeps_context (advance t e') ctx2 Hc2)
      as (e0 & ctx0 & E0 & Hc0 & _ & _ & Hs0 & Hp0 & Hpt0 & _ & Hb0).
    assert (Hzero : getCurrentTime e0 = Normal 0).
    { rewrite (getCurrentTime_not_playing e0 Hp0) by (rewrite Hb0, Hb2, Hb', Hb; eauto).
      rewrite Hpt0. reflexivity. }
    assert (Hrun : Playback.elapse onEnded (Some t) dt e' =
              ((match onEnded with Some callback => callback | None => mret tt end);;
               js_modify (advance (dt - t))) e0).
    { unfold Playback.elapse.
      rewrite (proj2 (Qle_bool_iff 0 t) Ht), (proj2 (Qle_bool_iff t dt) Htdt). cbn [andb].
      unfold Playback.onended.
      unfold mbind at 1, js_bind at 1, js_modify at 1. cbn [fst snd].
      unfold mbind at 1, js_bind at 1. unfold mbind at 1, js_bind at 1, js_get.
      cbn [fst snd]. rewrite Hp2, Hp'.
      unfold mbind at 1, js_bind at 1. rewrite E0. cbn [fst snd].
      destruct onEnded; reflexivity. }
    exists e0. split; [exact Hp0|]. split; [exact Hs0|]. split; [exact Hzero|].
    split; [exact Hrun|].
    intros ->. rewrite Hrun. unfold mbind, js_bind, js_modify, mret, js_ret. cbn [fst snd].
    eexists. split; [reflexivity|].
    destruct (advance_spec e0 ctx0 (dt - t) Hc0) as (ctx3 & _ & _ & _ & Hb3 & Hp3 & Hpt3 & _).
    assert (Hp3' : isPlaying (advance (dt - t) e0) = false) by congruence.
    split; [exact Hp3'|].
    rewrite (getCurrentTime_not_playing _ Hp3') by (rewrite Hb3, Hb0, Hb2, Hb', Hb; eauto).
    rewrite Hpt3, Hpt0. reflexivity.
Qed.

End RateFacts.

Lemma rate_change_reanchors_witness :
  let e := AudioEngine.set_playbackRate 2 Notions.demoPlaying in
  AudioEngine.audioBuffer e = Some Props.demoTrack /\
  is_Some (AudioEngine.audioContext e) /\ AudioEngine.isPlaying e = true /\
  is_Some (AudioEngine.sourceNode e) /\
  (0 <= 1)%Q /\ (1 <= 3)%Q /\
  exists e' q e2,
    AudioEngine.applyPlaybackRate Props.demoPow e = (Normal tt, e') /\
    AudioEngine.isPlaying e' = true /\
    AudioEngine.getCurrentTime e' = Normal q /\ (q == 10)%Q /\
    Playback.elapse None (Some 1%Q) 3 e' = (Normal tt, e2) /\
    AudioEngine.isPlaying e2 = false /\ AudioEngine.getCurrentTime e2 = Normal 0%Q.
Proof.
  intros e.
  assert (Hb : AudioEngine.audioBuffer e = Some Props.demoTrack) by reflexivity.
  assert (Hp : AudioEngine.isPlaying e = true) by reflexivity.
  assert (H0 : (0 <= 1)%Q) by (unfold Qle; simpl; lia).
  assert (H1 : (1 <= 3)%Q) by (unfold Qle; simpl; lia).
  destruct (AudioEngine.audioContext e) as [ctx|] eqn:Hc; [|discriminate].
  destruct (AudioEngine.sourceNode e) as [s|] eqn:Hs; [|discriminate].
  split; [exact Hb|]. split; [eexists; reflexivity|]. split; [exact Hp|].
  split; [eexists; reflexivity|]. split; [exact H0|]. split; [exact H1|].
  destruct (rate_change_reanchors Props.demoPow e Props.demoTrack ctx s Hb Hc Hp Hs)
    as (_ & e' & s' & E & _ & _ & _ & Hp' & _ & _ & (q & Hq & Hval) & _ & Hended).
  destruct (Hended None 1%Q 3%Q H0 H1) as (e0 & _ & _ & _ & _ & Hnone).
  destruct (Hnone eq_refl) as (e2 & E2 & Hp2 & Hq2).
  exists e', q, e2. split; [exact E|]. split; [exact Hp'|]. split; [exact Hq|].
  split.
  - rewrite Hval. injection Hc as <-. vm_compute. reflexivity.
  - split; [exact E2|]. split; [exact Hp2 | exact Hq2].
Defined.

(** ** The range of the delay and chorus settings *)

Section MixFacts.
Import WebAudio AudioEngine Props.
#[local] Open Scope Q_scope.

Lemma clamp100 (v : Q) :
  let c := Qmax 0 (Qmin 100 v) / 100 in
  0 <= c /\ c <= 1 /\ (v <= 0 -> c == 0) /\ (100 <= v -> c == 1) /\
  (0 <= v -> v <= 100 -> c * 100 == v).
Proof.
  intros c. subst c.
  assert (E : forall x, x / 100 == x * 0.01) by (intros; field).
  rewrite !E.
  destruct (Q.max_spec 0 (Qmin 100 v)) as [[H1 ->]|[H1 ->]];
    destruct (Q.min_spec 100 v) as [[H2 E2]|[H2 E2]]; rewrite ?E2 in *;
    repeat split; intros; lra.
Qed.

(** X3.  Whatever number [setDelayMix] and [setChorusMix] are given, the
    value is clamped to [0, 100] first, so what they schedule stays in
    range: the delay time ramps to a target in [0.08, 0.6] s, the
    feedback gain to one in [0.1, 0.7] (below 1: the echo decays), the
    delay's wet gain to one in [0, 0.9]; the chorus depth to [0.001,
    0.005], its wet gain to [0, 0.8], and the LFO rate is set in [0.3,
    1.5] Hz.  A value of 0 or less gives a wet gain of 0, and inside
    [0, 100] the wet gains are proportional to the value. *)
Theorem delay_and_chorus_stay_in_range (e : Engine) (ctx : AudioContext) (v : Q) :
  audioContext e = Some ctx ->
  let now := currentTime ctx in
  (exists ctx' time feedback wet,
     audioContext (setDelayMix v e) = Some ctx' /\
     rampScheduled (params ctx DelayNode_delayTime) (params ctx' DelayNode_delayTime)
       now time 0.12 /\
     rampScheduled (params ctx DelayFeedback_gain) (params ctx' DelayFeedback_gain)
       now feedback 0.12 /\
     rampScheduled (params ctx DelayWetGain_gain) (params ctx' DelayWetGain_gain)
       now wet 0.12 /\
     0.08 <= time /\ time <= 0.6 /\ 0.1 <= feedback /\ feedback <= 0.7 /\
     0 <= wet /\ wet <= 0.9 /\
     (v <= 0 -> wet == 0) /\ (0 <= v -> v <= 100 -> wet * 100 == v * 0.9)) /\
  (exists ctx' depth rate wet,
     audioContext (setChorusMix v e) = Some ctx' /\
     rampScheduled (params ctx ChorusDepth_gain) (params ctx' ChorusDepth_gain)
       now depth 0.12 /\
     jumpScheduled (params ctx ChorusLFO_frequency) (params ctx' ChorusLFO_frequency)
       now rate /\
     rampScheduled (params ctx ChorusWetGain_gain) (params ctx' ChorusWetGain_gain)
       now wet 0.12 /\
     0.001 <= depth /\ depth <= 0.005 /\ 0.3 <= rate /\ rate <= 1.5 /\
     0 <= wet /\ wet <= 0.8 /\
     (v <= 0 -> wet == 0) /\ (0 <= v -> v <= 100 -> wet * 100 == v * 0.8)).
Proof.
  intros Hc now. destruct (clamp100 v) as (H0 & H1 & Hlo & Hhi & Hmid).
  split.
  - unfold setDelayMix. cbn. rewrite Hc. cbn.
    eexists _, _, _, _. split; [reflexivity|]. cbn.
    split; [apply schedule_ramp; lra|]. split; [apply schedule_ramp; lra|].
    split; [apply schedule_ramp; lra|].
    set (c := Qmax 0 (Qmin 100 v) / 100) in *.
    repeat split; try lra; intros; try (rewrite Hlo by assumption; lra).
  - unfold setChorusMix. cbn. rewrite Hc. cbn.
    eexists _, _, _, _. split; [reflexivity|]. cbn.
    split; [apply schedule_ramp; lra|]. split; [split; reflexivity|].
    split; [apply schedule_ramp; lra|].
    set (c := Qmax 0 (Qmin 100 v) / 100) in *.
    repeat split; try lra; intros; try (rewrite Hlo by assumption; lra).
Qed.

Lemma delay_and_chorus_stay_in_range_witness :
  is_Some (audioContext demoEngine) /\
  exists ctx ctx' feedback,
    audioContext demoEngine = Some ctx /\
    audioContext (setDelayMix 250 demoEngine) = Some ctx' /\
    rampScheduled (params ctx DelayFeedback_gain) (params ctx' DelayFeedback_gain)
      (currentTime ctx) feedback 0.12 /\
    feedback <= 0.7.
Proof.
  destruct (audioContext demoEngine) as [ctx|] eqn:Hc; [|discriminate].
  split; [eexists; reflexivity|].
  destruct (delay_and_chorus_stay_in_range demoEngine ctx 250 Hc)
    as ((ctx' & time & feedback & wet & Hc' & _ & Hfb & _ & _ & _ & _ & Hle & _) & _).
  exists ctx, ctx', feedback. split; [reflexivity|]. split; [exact Hc'|].
  split; [exact Hfb | exact Hle].
Defined.

End MixFacts.

(** ** Starting a track, the play/pause button and the progress bar *)

Section PlayTrackSuccess.
Import App Notions.
#[local] Open Scope Q_scope.
Variable Math_pow : Q -> Q -> Q.
Variable decodeAudioData : list Z -> Completion AudioBuffer.
Variable readFile : string -> option (list Z).






(** X7.  With a track loaded, [togglePlayPause()] flips the engine
    between playing and paused and sets the play button to the state the
    engine is in afterwards; a playing engine has a source node and a
    paused one has none; the loaded buffer, the playlist and the
    notifications are left alone. *)
Theorem togglePlayPause_flips_the_state (a : DeskSongApp) (buf : AudioBuffer)
    (ctx : AudioEngine.AudioContext) :
  AudioEngine.audioBuffer (audioEngine a) = Some buf ->
  AudioEngine.audioContext (audioEngine a) = Some ctx ->
  0 <= AudioEngine.pauseTime (audioEngine a) ->
  (AudioEngine.isPlaying (audioEngine a) = true ->
   is_Some (AudioEngine.sourceNode (audioEngine a))) ->
  exists a',
    AppActions.togglePlayPause Math_pow decodeAudioData readFile a = (Normal tt, a') /\
    AudioEngine.isPlaying (audioEngine a') = negb (AudioEngine.isPlaying (audioEngine a)) /\
    playButton (uiController a') = AudioEngine.isPlaying (audioEngine a') /\
    (AudioEngine.isPlaying (audioEngine a') = true ->
     is_Some (AudioEngine.sourceNode (audioEngine a'))) /\
    (AudioEngine.isPlaying (audioEngine a') = false ->
     AudioEngine.sourceNode (audioEngine a') = None) /\
    AudioEngine.audioBuffer (audioEngine a') = Some buf /\
    playlistManager a' = playlistManager a /\
    notifications (uiController a') = notifications (uiController a).
Proof.
  intros Hb Hc Hoff Hsrc. unfold AppActions.togglePlayPause.
  unfold mbind at 1, js_bind at 1, js_get. rewrite Hb.
  destruct (AudioEngine.isPlaying (audioEngine a)) eqn:Hp.
  - destruct (pause_spec (audioEngine a) ctx Hc Hp (Hsrc eq_refl))
      as (e' & ctx' & E & Hp' & Hs' & Hb' & _).
    unfold mbind, js_bind, onEngine, updatePlayButton, js_modify. rewrite E.
    eexists. split; [reflexivity|]. cbn. rewrite Hp', Hs', Hb', Hb. repeat split; auto.
    discriminate.
  - destruct (play_spec Math_pow (audioEngine a) buf ctx Hb Hc Hp Hoff)
      as (e' & ctx' & E & Hp' & Hs' & Hb' & _).
    unfold mbind, js_bind, onEngine, updatePlayButton, js_modify. rewrite E.
    eexists. split; [reflexivity|]. cbn. rewrite Hp', Hb'. repeat split; auto.
    discriminate.
Qed.

End PlayTrackSuccess.


Lemma togglePlayPause_flips_the_state_witness :
  let a := App.set_audioEngine Notions.demoPlaying Props.demoApp in
  AudioEngine.audioBuffer (App.audioEngine a) = Some Props.demoTrack /\
  is_Some (AudioEngine.audioContext (App.audioEngine a)) /\
  (0 <= AudioEngine.pauseTime (App.audioEngine a))%Q /\
  is_Some (AudioEngine.sourceNode (App.audioEngine a)) /\
  exists a',
    AppActions.togglePlayPause Props.demoPow Props.demoDecode Props.demoReadFile a
    = (Normal tt, a') /\
    AudioEngine.isPlaying (App.audioEngine a') = false /\
    App.playButton (App.uiController a') = false.
Proof.
  intros a.
  assert (Hb : AudioEngine.audioBuffer (App.audioEngine a) = Some Props.demoTrack)
    by reflexivity.
  assert (Hoff : (0 <= AudioEngine.pauseTime (App.audioEngine a))%Q)
    by (vm_compute; discriminate).
  assert (Hs : is_Some (AudioEngine.sourceNode (App.audioEngine a)))
    by (vm_compute; eexists; reflexivity).
  destruct (AudioEngine.audioContext (App.audioEngine a)) as [ctx|] eqn:Hc; [|discriminate].
  split; [exact Hb|]. split; [eexists; reflexivity|]. split; [exact Hoff|].
  split; [exact Hs|].
  destruct (togglePlayPause_flips_the_state Props.demoPow Props.demoDecode Props.demoReadFile
              a Props.demoTrack ctx Hb Hc Hoff (fun _ => Hs))
    as (a' & E & Hp & Hbtn & _).
  exists a'. split; [exact E|]. split; [exact Hp|]. rewrite Hbtn. exact Hp.
Defined.

Section ProgressFacts.
Import App AppActions.
#[local] Open Scope Q_scope.

Lemma clamp01 (x : Q) :
  let percent := Qmax 0 (Qmin 1 x) in
  0 <= percent /\ percent <= 1 /\ (x <= 0 -> percent == 0) /\
  (1 <= x -> percent == 1) /\ (0 <= x -> x <= 1 -> percent == x).
Proof.
  intros percent. subst percent.
  destruct (Q.max_spec 0 (Qmin 1 x)) as [[H1 ->]|[H1 ->]];
    destruct (Q.min_spec 1 x) as [[H2 E2]|[H2 E2]]; rewrite ?E2 in *;
    repeat split; intros; lra.
Qed.

(** X8.  A click on the progress bar, with a track of duration D > 0
    loaded: [handleProgressClick] turns the click into a fraction of the
    bar clamped to [0, 1], [onSeek] multiplies it by D and the engine
    seeks there.  The position reported afterwards is inside [0, D]: 0
    for a click at or left of the bar's left edge, D at or right of its
    right edge, and in between in proportion to the distance from the
    left edge. *)
Theorem progress_click_seeks_in_proportion (a : DeskSongApp) (buf : AudioBuffer)
    (ctx : AudioEngine.AudioContext) (clientX left width : Q) :
  AudioEngine.audioBuffer (audioEngine a) = Some buf ->
  AudioEngine.audioContext (audioEngine a) = Some ctx ->
  0 < duration buf -> 0 < width ->
  exists a' p,
    handleProgressClick clientX left width a = (Normal tt, a') /\
    AudioEngine.getCurrentTime (audioEngine a') = Normal p /\
    0 <= p /\ p <= duration buf /\
    (clientX <= left -> p == 0) /\
    (left + width <= clientX -> p == duration buf) /\
    (left <= clientX -> clientX <= left + width ->
     p * width == duration buf * (clientX - left)).
Proof.
  intros Hb Hc Hd Hw. unfold handleProgressClick, onSeek.
  unfold mbind at 1, js_bind at 1, js_get. unfold getDuration. rewrite Hb.
  destruct (Qlt_le_dec 0 (duration buf)) as [_|Hle]; [|lra].
  set (x := (clientX - left) / width).
  set (percent := Qmax 0 (Qmin 1 x)).
  destruct (seek_spec (audioEngine a) buf ctx (duration buf * percent) Hb Hc)
    as (e' & E & Hp' & Hb' & Hpt' & _).
  unfold onEngine. rewrite E. cbn [fst snd].
  exists (set_audioEngine e' a), (AudioEngine.pauseTime e').
  split; [reflexivity|]. cbn [audioEngine set_audioEngine].
  split; [apply getCurrentTime_not_playing; [exact Hp' | rewrite Hb'; eauto]|].
  assert (Hx : x * width == clientX - left) by (subst x; field; lra).
  destruct (clamp01 x) as (H0 & H1 & Hlo & Hhi & Hmid). fold percent in H0, H1, Hlo, Hhi, Hmid.
  assert (Hpos : AudioEngine.pauseTime e' == duration buf * percent).
  { rewrite Hpt'. rewrite Q.min_l by nra. apply Q.max_r. nra. }
  rewrite Hpos. split; [nra|]. split; [nra|].
  split; [|split].
  - intros Hleft. rewrite Hlo by nra. ring.
  - intros Hright. rewrite Hhi by nra. ring.
  - intros Hl Hr. rewrite Hmid by nra. rewrite <- Hx. ring.
Qed.

Lemma progress_click_seeks_in_proportion_witness :
  AudioEngine.audioBuffer (audioEngine Props.demoApp) = Some Props.demoTrack /\
  is_Some (AudioEngine.audioContext (audioEngine Props.demoApp)) /\
  0 < duration Props.demoTrack /\ 0 < 200 /\
  exists a' p,
    handleProgressClick 60 10 200 Props.demoApp = (Normal tt, a') /\
    AudioEngine.getCurrentTime (audioEngine a') = Normal p /\
    p * 200 == duration Props.demoTrack * (60 - 10).
Proof.
  assert (Hb : AudioEngine.audioBuffer (audioEngine Props.demoApp) = Some Props.demoTrack)
    by reflexivity.
  assert (Hd : 0 < duration Props.demoTrack) by (unfold Qlt; simpl; lia).
  assert (Hw : 0 < 200) by (unfold Qlt; simpl; lia).
  assert (Hl : 10 <= 60) by (unfold Qle; simpl; lia).
  assert (Hr : 60 <= 10 + 200) by (unfold Qle; simpl; lia).
  destruct (AudioEngine.audioContext (audioEngine Props.demoApp)) as [ctx|] eqn:Hc;
    [|discriminate].
  split; [exact Hb|]. split; [eexists; reflexivity|]. split; [exact Hd|]. split; [exact Hw|].
  destruct (progress_click_seeks_in_proportion Props.demoApp Props.demoTrack ctx 60 10 200
              Hb Hc Hd Hw) as (a' & p & E & Hg & _ & _ & _ & _ & Hmid).
  exists a', p. split; [exact E|]. split; [exact Hg | exact (Hmid Hl Hr)].
Defined.

End ProgressFacts.

(** ** Exporting to a file *)

Section ExportAudioFacts.
Import App AppActions Notions.
#[local] Open Scope Q_scope.
Variable Math_pow : Q -> Q -> Q.
Variable startRendering : AudioEngine.OfflineGraph -> Completion AudioBuffer.
Variable saveAudioFile : string -> option string.
Variable writeFile : string -> list Z -> bool.
Variable Buffer_from : list Z -> Completion (list Z).

Lemma updateActualPlaybackRate_context (e : AudioEngine.Engine) :
  AudioEngine.audioContext (AudioEngine.updateActualPlaybackRate Math_pow e)
  = AudioEngine.audioContext e /\
  AudioEngine.audioBuffer (AudioEngine.updateActualPlaybackRate Math_pow e)
  = AudioEngine.audioBuffer e /\
  AudioEngine.isPlaying (AudioEngine.updateActualPlaybackRate Math_pow e)
  = AudioEngine.isPlaying e.
Proof.
  unfold AudioEngine.updateActualPlaybackRate.
  destruct (AudioEngine.preservePitch e); auto.
Qed.

(** X5.  [exportAudio()] with a track loaded, a path chosen in the save
    dialog, a rendering that succeeds and a [Buffer] in scope whose
    [Buffer.from] copies the bytes: the one file it asks the main process
    to write, at the chosen path, is the WAV container of the rendered
    buffer (44-byte header and 16-bit interleaved samples); it notifies
    "Exporting audio..." and then "Audio exported successfully", or
    "Export failed" when the write is refused; the playlist, the loaded
    buffer and the playing state are as before. *)
Theorem exportAudio_writes_the_rendered_wav (a : DeskSongApp) (disk : Disk)
    (buf rendered : AudioBuffer) (ctx : AudioEngine.AudioContext) (savePath : string)
    (fuel : nat) :
  AudioEngine.audioBuffer (audioEngine a) = Some buf ->
  AudioEngine.audioContext (audioEngine a) = Some ctx ->
  saveAudioFile (exportName a) = Some savePath -> savePath <> ""%string ->
  startRendering
    (AudioEngine.offlineGraph (AudioEngine.updateActualPlaybackRate Math_pow (audioEngine a))
       ctx buf) = Normal rendered ->
  wf_buffer rendered -> (buf_length rendered <= Z.of_nat fuel)%Z ->
  Buffer_from (Wav.wav_container rendered) = Normal (Wav.wav_container rendered) ->
  exists a',
    exportAudio Math_pow startRendering saveAudioFile writeFile Buffer_from fuel (a, disk)
    = (Normal tt, (a', disk ++ [(savePath, Wav.wav_container rendered)])) /\
    notifications (uiController a') =
      notifications (uiController a) ++
      [("Exporting audio..."%string, "info"%string);
       if writeFile savePath (Wav.wav_container rendered)
       then ("Audio exported successfully"%string, "success"%string)
       else ("Export failed"%string, "error"%string)] /\
    playlistManager a' = playlistManager a /\
    AudioEngine.audioBuffer (audioEngine a') = Some buf /\
    AudioEngine.isPlaying (audioEngine a') = AudioEngine.isPlaying (audioEngine a).
Proof.
  intros Hb Hc Hsave Hpath Hrender Hwf Hfuel Hcopy.
  pose proof (export_renders Math_pow startRendering (audioEngine a) ctx buf rendered true
                Hb Hc Hrender) as Hexp.
  pose proof (audioBufferToWav_container fuel rendered Hwf Hfuel) as Hwav.
  destruct (updateActualPlaybackRate_context (audioEngine a)) as (_ & Hb1 & Hp1).
  unfold exportAudio. unfold mbind at 1, js_bind at 1, js_get. cbn [fst].
  rewrite Hb. fold (exportName a). rewrite Hsave.
  rewrite (proj2 (String.eqb_neq savePath "") Hpath).
  unfold js_try, mbind, js_bind, onApp, showNotification, js_modify, js_lift. cbn [fst snd].
  cbn [audioEngine set_uiController]. rewrite Hexp. cbn [fst snd]. rewrite Hwav.
  cbn [fst snd]. rewrite Hcopy. cbn [fst snd].
  destruct (writeFile savePath (Wav.wav_container rendered)) eqn:Hw.
  - eexists. split; [reflexivity|]. cbn. rewrite <- app_assoc.
    split; [reflexivity|]. split; [reflexivity|]. rewrite Hb1, Hp1. auto.
  - unfold js_throw. eexists. split; [reflexivity|]. cbn. rewrite <- app_assoc.
    split; [reflexivity|]. split; [reflexivity|]. rewrite Hb1, Hp1. auto.
Qed.

(** X6.  [exportAudio()] throws at no one and writes at most one file,
    whose bytes are always a WAV that [audioBufferToWav] completed and
    [Buffer.from] copied.  Without a loaded track it notifies "No audio
    loaded" and writes nothing; when the save dialog is cancelled or
    gives an empty path it does nothing at all; when the offline
    rendering fails, or when [Buffer.from] throws because no [Buffer] is
    in scope, it notifies "Exporting audio..." and "Export failed" and
    writes nothing. *)
Theorem exportAudio_failure_writes_nothing (a : DeskSongApp) (disk : Disk) (fuel : nat) :
  let r := exportAudio Math_pow startRendering saveAudioFile writeFile Buffer_from fuel
             (a, disk) in
  (forall err, r.1 <> Throw err) /\
  (r.2.2 = disk \/
   exists savePath rendered bytes data,
     r.2.2 = disk ++ [(savePath, data)] /\
     saveAudioFile (exportName a) = Some savePath /\
     Wav.audioBufferToWav fuel rendered = Normal bytes /\
     Buffer_from bytes = Normal data) /\
  (AudioEngine.audioBuffer (audioEngine a) = None ->
   r.1 = Normal tt /\ r.2.2 = disk /\
   notifications (uiController r.2.1) =
     notifications (uiController a) ++ [("No audio loaded"%string, "error"%string)]) /\
  (saveAudioFile (exportName a) = None \/ saveAudioFile (exportName a) = Some ""%string ->
   is_Some (AudioEngine.audioBuffer (audioEngine a)) ->
   r = (Normal tt, (a, disk))) /\
  (forall buf ctx savePath,
     AudioEngine.audioBuffer (audioEngine a) = Some buf ->
     AudioEngine.audioContext (audioEngine a) = Some ctx ->
     saveAudioFile (exportName a) = Some savePath -> savePath <> ""%string ->
     (exists err,
        startRendering
          (AudioEngine.offlineGraph
             (AudioEngine.updateActualPlaybackRate Math_pow (audioEngine a)) ctx buf)
        = Throw err) \/
     (exists rendered bytes err,
        startRendering
          (AudioEngine.offlineGraph
             (AudioEngine.updateActualPlaybackRate Math_pow (audioEngine a)) ctx buf)
        = Normal rendered /\
        Wav.audioBufferToWav fuel rendered = Normal bytes /\
        Buffer_from bytes = Throw err) ->
     r.1 = Normal tt /\ r.2.2 = disk /\
     notifications (uiController r.2.1) =
       notifications (uiController a) ++
       [("Exporting audio..."%string, "info"%string);
        ("Export failed"%string, "error"%string)]).
Proof.
  intros r.
  assert (Hgen : (forall err, r.1 <> Throw err) /\
                 (r.2.2 = disk \/
                  exists savePath rendered bytes data,
                    r.2.2 = disk ++ [(savePath, data)] /\
                    saveAudioFile (exportName a) = Some savePath /\
                    Wav.audioBufferToWav fuel rendered = Normal bytes /\
                    Buffer_from bytes = Normal data)).
  { subst r.
    unfold exportAudio, js_try, mbind, js_bind, onApp, showNotification, js_modify, js_lift,
      js_get, js_throw.
    cbn [fst snd]. fold (exportName a).
    destruct (AudioEngine.audioBuffer (audioEngine a)) as [buf|] eqn:Hb;
      [|split; [discriminate | left; reflexivity]].
    destruct (saveAudioFile (exportName a)) as [savePath|] eqn:Hsave;
      [|split; [discriminate | left; reflexivity]].
    destruct (String.eqb savePath ""); [split; [discriminate | left; reflexivity]|].
    cbn [fst snd audioEngine set_uiController].
    unfold AudioEngine.exportProcessedAudio. rewrite Hb.
    destruct (AudioEngine.audioContext _) as [ctx|];
      [|split; [discriminate | left; reflexivity]].
    destruct (startRendering _) as [rendered| |] eqn:Hr; cbn [fst snd];
      try (split; [discriminate | left; reflexivity]).
    destruct (Wav.audioBufferToWav fuel rendered) as [bytes| |] eqn:Hw; cbn [fst snd];
      try (split; [discriminate | left; reflexivity]).
    destruct (Buffer_from bytes) as [data| |] eqn:Hcopy; cbn [fst snd];
      try (split; [discriminate | left; reflexivity]).
    destruct (writeFile savePath data); cbn [fst snd];
      (split; [discriminate | right; exists savePath, rendered, bytes, data; auto]). }
  destruct Hgen as [Hno Hone]. split; [exact Hno|]. split; [exact Hone|].
  split; [|split].
  - intros Hb.
    assert (E : exists a', r = (Normal tt, (a', disk)) /\
                  notifications (uiController a') =
                    notifications (uiController a) ++
                    [("No audio loaded"%string, "error"%string)]).
    { subst r. unfold exportAudio. unfold mbind at 1, js_bind at 1, js_get. cbn [fst].
      rewrite Hb. eexists. split; reflexivity. }
    destruct E as (a' & -> & Hn). auto.
  - intros Hsave [buf Hb]. subst r.
    unfold exportAudio. unfold mbind at 1, js_bind at 1, js_get. cbn [fst].
    rewrite Hb. fold (exportName a). destruct Hsave as [-> | ->]; reflexivity.
  - intros buf ctx savePath Hb Hc Hsave Hpath Hfail.
    destruct (updateActualPlaybackRate_context (audioEngine a)) as (Hc' & _ & _).
    rewrite Hc in Hc'.
    assert (E : exists a', r = (Normal tt, (a', disk)) /\
                  notifications (uiController a') =
                    notifications (uiController a) ++
                    [("Exporting audio..."%string, "info"%string);
                     ("Export failed"%string, "error"%string)]).
    { subst r. unfold exportAudio. unfold mbind at 1, js_bind at 1, js_get. cbn [fst].
      rewrite Hb. fold (exportName a). rewrite Hsave.
      rewrite (proj2 (String.eqb_neq savePath "") Hpath).
      unfold js_try, mbind, js_bind, onApp, showNotification, js_modify, js_lift. cbn [fst snd].
      cbn [audioEngine set_uiController].
      unfold AudioEngine.exportProcessedAudio. rewrite Hb. rewrite Hc'.
      destruct Hfail as [[err Hrender] | (rendered & bytes & err & Hrender & Hwav & Hcopy)];
        rewrite Hrender; cbn [fst snd]; rewrite ?Hwav; cbn [fst snd]; rewrite ?Hcopy;
        (eexists; split; [reflexivity|]); cbn; rewrite <- app_assoc; reflexivity. }
    destruct E as (a' & -> & Hn). auto.
Qed.

End ExportAudioFacts.

Lemma exportAudio_writes_the_rendered_wav_witness :
  let a := App.set_audioEngine Notions.demoPlaying Props.demoApp in
  AudioEngine.audioBuffer (App.audioEngine a) = Some Props.demoTrack /\
  is_Some (AudioEngine.audioContext (App.audioEngine a)) /\
  Notions.demoSave (Notions.exportName a) = Some "out.wav"%string /\
  "out.wav"%string <> ""%string /\
  wf_buffer Props.demoTrack /\ buf_length Props.demoTrack <= Z.of_nat 100 /\
  exists a',
    AppActions.exportAudio Props.demoPow Props.demoRender Notions.demoSave Notions.demoWrite
      Notions.demoBufferFrom 100 (a, [])
    = (Normal tt, (a', [("out.wav"%string, Wav.wav_container Props.demoTrack)])) /\
    length (Wav.wav_container Props.demoTrack) = 244%nat.
Proof.
  intros a.
  assert (Hb : AudioEngine.audioBuffer (App.audioEngine a) = Some Props.demoTrack)
    by reflexivity.
  assert (Hpath : "out.wav"%string <> ""%string) by discriminate.
  assert (Hwf : wf_buffer Props.demoTrack).
  { unfold wf_buffer; simpl. repeat split; try lia. repeat constructor. }
  assert (Hfuel : buf_length Props.demoTrack <= Z.of_nat 100) by (simpl; lia).
  destruct (AudioEngine.audioContext (App.audioEngine a)) as [ctx|] eqn:Hc; [|discriminate].
  split; [exact Hb|]. split; [eexists; reflexivity|]. split; [reflexivity|].
  split; [exact Hpath|]. split; [exact Hwf|]. split; [exact Hfuel|].
  destruct (exportAudio_writes_the_rendered_wav Props.demoPow Props.demoRender Notions.demoSave
              Notions.demoWrite Notions.demoBufferFrom a [] Props.demoTrack Props.demoTrack
              ctx "out.wav" 100 Hb Hc eq_refl Hpath eq_refl Hwf Hfuel eq_refl)
    as (a' & E & _).
  exists a'. split; [exact E | reflexivity].
Defined.

Lemma exportAudio_failure_writes_nothing_witness :
  let a := App.set_audioEngine Notions.demoPlaying Props.demoApp in
  let r := AppActions.exportAudio Props.demoPow Props.demoRender Notions.demoSave
             Notions.demoWrite Notions.demoBufferMissing 100 (a, []) in
  AudioEngine.audioBuffer (App.audioEngine a) = Some Props.demoTrack /\
  is_Some (AudioEngine.audioContext (App.audioEngine a)) /\
  Notions.demoSave (Notions.exportName a) = Some "out.wav"%string /\
  r.1 = Normal tt /\ r.2.2 = [] /\
  App.notifications (App.uiController r.2.1) =
    App.notifications (App.uiController a) ++
    [("Exporting audio..."%string, "info"%string); ("Export failed"%string, "error"%string)].
Proof.
  intros a r.
  assert (Hb : AudioEngine.audioBuffer (App.audioEngine a) = Some Props.demoTrack)
    by reflexivity.
  destruct (AudioEngine.audioContext (App.audioEngine a)) as [ctx|] eqn:Hc; [|discriminate].
  split; [exact Hb|]. split; [eexists; reflexivity|]. split; [reflexivity|].
  destruct (exportAudio_failure_writes_nothing Props.demoPow Props.demoRender Notions.demoSave
              Notions.demoWrite Notions.demoBufferMissing a [] 100)
    as (_ & _ & _ & _ & Hfail).
  apply (Hfail Props.demoTrack ctx "out.wav"%string Hb Hc eq_refl).
  - discriminate.
  - right. exists Props.demoTrack, (Wav.wav_container Props.demoTrack),
      (GenericError "Buffer is not defined").
    split; [reflexivity|]. split; [|reflexivity].
    apply audioBufferToWav_container.
    + unfold wf_buffer; simpl. repeat split; try lia. repeat constructor.
    + simpl; lia.
Defined.

(** ** Throttled speed changes *)

Section ThrottleFacts.
Import WebAudio AudioEngine Throttle Notions Props.
Variable Math_pow : Q -> Q -> Q.

Lemma applyPlaybackRate_fields (e : Engine) :
  sourceHasContext e ->
  exists e',
    applyPlaybackRate Math_pow e = (Normal tt, e') /\
    actualPlaybackRate e' = actualPlaybackRate (updateActualPlaybackRate Math_pow e) /\
    playbackRate e' = playbackRate e /\ pitchShift e' = pitchShift e /\
    preservePitch e' = preservePitch e /\ sourceHasContext e'.
Proof.
  intros Hs. unfold applyPlaybackRate, mbind, js_bind, js_modify, js_get.
  set (e1 := updateActualPlaybackRate Math_pow e).
  assert (H1 : sourceNode e1 = sourceNode e /\ audioContext e1 = audioContext e /\
               playbackRate e1 = playbackRate e /\ pitchShift e1 = pitchShift e /\
               preservePitch e1 = preservePitch e)
    by (subst e1; unfold updateActualPlaybackRate; destruct (preservePitch e) eqn:E;
        cbn; rewrite ?E; auto).
  clearbody e1. destruct H1 as (Hs1 & Hc1 & Hr1 & Hp1 & Hpp1).
  unfold sourceHasContext in *.
  destruct (sourceNode e) as [s|] eqn:Es.
  - destruct (Hs ltac:(eauto)) as [ctx Ec].
    rewrite bool_decide_true by (rewrite Hs1; eauto).
    destruct (isPlaying e1); cbn.
    + unfold getContextTime, onSource. rewrite Hc1, Ec. cbn. rewrite Hs1. cbn.
      destruct (preservePitch e1) eqn:Epp; cbn;
        (eexists; split; [reflexivity|]); cbn; rewrite ?Hc1, ?Ec; repeat split; eauto; congruence.
    + eexists; split; [reflexivity|]. rewrite Hc1, Ec. repeat split; eauto.
  - rewrite bool_decide_false by (rewrite Hs1; intros [? ?]; congruence).
    cbn. eexists; split; [reflexivity|]. rewrite Hs1. repeat split; auto.
    intros [? ?]; discriminate.
Qed.

Lemma applied_is_upToDate (e e' : Engine) :
  actualPlaybackRate e' = actualPlaybackRate (updateActualPlaybackRate Math_pow e) ->
  playbackRate e' = playbackRate e -> pitchShift e' = pitchShift e ->
  preservePitch e' = preservePitch e -> upToDate Math_pow e'.
Proof.
  intros Ha Hr Hp Hpp. unfold upToDate. rewrite Ha. unfold updateActualPlaybackRate.
  rewrite Hpp, Hr, Hp. destruct (preservePitch e); reflexivity.
Qed.

(** X9.  [setPlaybackRate(rate)] stores the rate and never loses the
    update of the rate in use.  At least [effectUpdateThrottle] ms after
    the last update it applies the rate at once and records the time;
    sooner, it replaces the pending timer, if any, by one timer due
    [effectUpdateThrottle] ms later, and when that timer fires the rate
    in use is brought up to date and no timer is left.  At most one timer
    is ever live, and it is the pending one. *)
Theorem throttle_never_drops_an_update (t : ThrottledEngine) (rate : Q) (now : Z) :
  timersMatch t -> sourceHasContext (engine t) ->
  exists t',
    setPlaybackRate Math_pow rate now t = (Normal tt, t') /\
    playbackRate (engine t') = rate /\
    timersMatch t' /\ (length (timers t') <= 1)%nat /\
    (effectUpdateThrottle t <= now - lastEffectUpdate t ->
     upToDate Math_pow (engine t') /\ lastEffectUpdate t' = now /\ timers t' = timers t) /\
    (now - lastEffectUpdate t < effectUpdateThrottle t ->
     exists id,
       pendingEffectUpdate t' = Some id /\
       timers t' = [(id, now + effectUpdateThrottle t)] /\
       forall now', exists t'',
         effectUpdateDue Math_pow id now' t' = (Normal tt, t'') /\
         upToDate Math_pow (engine t'') /\ playbackRate (engine t'') = rate /\
         pendingEffectUpdate t'' = None /\ timers t'' = [] /\
         lastEffectUpdate t'' = now' /\ timersMatch t'').
Proof.
  intros [Hnext Hmatch] Hs.
  unfold setPlaybackRate. unfold mbind at 1, js_bind at 1, onEngine, js_modify. cbn [fst snd].
  set (e0 := set_playbackRate rate (engine t)).
  assert (Hs0 : sourceHasContext e0) by exact Hs.
  unfold updatePlaybackRateThrottled. unfold mbind at 1, js_bind at 1, js_get.
  cbn [lastEffectUpdate effectUpdateThrottle set_engine pendingEffectUpdate].
  case_bool_decide as Hwin.
  - (* inside the throttle window *)
    assert (Hclear : exists t1,
              (match pendingEffectUpdate t with
               | Some id => if id =? 0 then mret tt else clearTimeout id
               | None => mret tt
               end) (set_engine e0 t) = (Normal tt, t1) /\
              engine t1 = e0 /\ timers t1 = [] /\ nextTimerId t1 = nextTimerId t /\
              effectUpdateThrottle t1 = effectUpdateThrottle t).
    { destruct (pendingEffectUpdate t) as [id|] eqn:Hp.
      - destruct Hmatch as [Hid [due Ht]].
        rewrite (proj2 (Z.eqb_neq id 0)) by lia.
        eexists. split; [reflexivity|]. cbn. rewrite Ht. cbn. rewrite Z.eqb_refl. auto.
      - eexists. split; [reflexivity|]. cbn. auto. }
    destruct Hclear as (t1 & E1 & He1 & Ht1 & Hn1 & Hth1).
    unfold mbind, js_bind. rewrite E1. unfold setTimeout, js_modify. cbn [fst snd].
    eexists. split; [reflexivity|]. cbn. rewrite He1, Ht1, Hn1. cbn.
    split; [reflexivity|]. split.
    { unfold timersMatch. cbn. split; [lia|]. split; [lia|]. eexists. reflexivity. }
    split; [lia|]. split; [intros; lia|]. intros _.
    exists (nextTimerId t). split; [reflexivity|]. split; [reflexivity|].
    intros now'. unfold effectUpdateDue, mbind, js_bind, js_modify, onEngine. cbn.
    rewrite Z.eqb_refl. cbn.
    destruct (applyPlaybackRate_fields e0 Hs0) as (e' & E & Ha & Hr & Hp & Hpp & _).
    rewrite E. cbn. eexists. split; [reflexivity|]. cbn.
    split; [eapply applied_is_upToDate; eassumption|].
    split; [rewrite Hr; reflexivity|]. unfold timersMatch. cbn. repeat split; lia.
  - (* outside: applied at once *)
    unfold mbind, js_bind, onEngine, js_modify. cbn [engine set_engine].
    destruct (applyPlaybackRate_fields e0 Hs0) as (e' & E & Ha & Hr & Hp & Hpp & _).
    rewrite E. cbn [fst snd]. eexists. split; [reflexivity|]. cbn.
    split; [rewrite Hr; reflexivity|]. split; [split; assumption|].
    split.
    { destruct (pendingEffectUpdate t); [destruct Hmatch as [_ [due ->]]|rewrite Hmatch]; cbn; lia. }
    split; [|intros; lia]. intros _.
    split; [eapply applied_is_upToDate; eassumption|]. auto.
Qed.

End ThrottleFacts.

Lemma throttle_never_drops_an_update_witness :
  Notions.timersMatch Notions.demoThrottled /\
  Props.sourceHasContext (Throttle.engine Notions.demoThrottled) /\
  exists t',
    Throttle.setPlaybackRate Props.demoPow 2 1000 Notions.demoThrottled = (Normal tt, t') /\
    AudioEngine.playbackRate (Throttle.engine t') = 2%Q /\
    Throttle.lastEffectUpdate t' = 1000 /\ Throttle.timers t' = [].
Proof.
  assert (Hm : Notions.timersMatch Notions.demoThrottled).
  { unfold Notions.timersMatch. cbn. split; [lia | reflexivity]. }
  assert (Hs : Props.sourceHasContext (Throttle.engine Notions.demoThrottled)).
  { intros _. vm_compute. eexists; reflexivity. }
  split; [exact Hm|]. split; [exact Hs|].
  destruct (throttle_never_drops_an_update Props.demoPow Notions.demoThrottled 2%Q 1000 Hm Hs)
    as (t' & E & Hr & _ & _ & Hout & _).
  exists t'. split; [exact E|]. split; [exact Hr|].
  destruct Hout as (_ & Hl & Ht); [cbn; lia|]. split; [exact Hl | exact Ht].
Defined.

(** ** The samples of the WAV file *)

Section SampleFacts.
Import Wav Props Notions.

Lemma ToIntegerQ_nonneg (q : Q) : (0 <= q)%Q -> ToIntegerQ q = Qfloor q.
Proof.
  destruct q as [n d]. unfold Qle, ToIntegerQ, Qfloor. cbn. intros H.
  apply Z.quot_div_nonneg; lia.
Qed.

Lemma ToIntegerQ_nonpos (q : Q) : (q <= 0)%Q -> ToIntegerQ q = - Qfloor (- q).
Proof.
  destruct q as [n d]. unfold Qle, ToIntegerQ, Qfloor. cbn. intros H.
  replace n with (- - n) at 1 by lia. rewrite Z.quot_opp_l by lia.
  rewrite Z.quot_div_nonneg by lia. reflexivity.
Qed.

Lemma ToIntegerQ_le (x y : Q) : (x <= y)%Q -> ToIntegerQ x <= ToIntegerQ y.
Proof.
  intros Hxy. destruct (Qlt_le_dec x 0) as [Hx|Hx]; destruct (Qlt_le_dec y 0) as [Hy|Hy].
  - rewrite !ToIntegerQ_nonpos by lra.
    assert (Qfloor (- y) <= Qfloor (- x)) by (apply Qfloor_resp_le; lra). lia.
  - rewrite (ToIntegerQ_nonpos x), (ToIntegerQ_nonneg y) by lra.
    assert (0 <= Qfloor (- x)) by (change 0 with (Qfloor 0); apply Qfloor_resp_le; lra).
    assert (0 <= Qfloor y) by (change 0 with (Qfloor 0); apply Qfloor_resp_le; lra). lia.
  - lra.
  - rewrite !ToIntegerQ_nonneg by lra. apply Qfloor_resp_le. exact Hxy.
Qed.

Lemma ToIntegerQ_Z (q : Q) (k : Z) : (q == inject_Z k)%Q -> ToIntegerQ q = k.
Proof.
  intros E. destruct (Z.le_gt_cases 0 k) as [Hk|Hk].
  - rewrite ToIntegerQ_nonneg by (rewrite E, <- (Zle_Qle 0); exact Hk).
    rewrite E. apply Qfloor_Z.
  - rewrite ToIntegerQ_nonpos by (rewrite E; change 0%Q with (inject_Z 0); rewrite <- Zle_Qle; lia).
    rewrite E. rewrite <- inject_Z_opp, Qfloor_Z. lia.
Qed.

Lemma scaled_spec (x : Q) :
  let s := Qmax (-1) (Qmin 1 x) in
  (-1 <= s)%Q /\ (s <= 1)%Q /\
  ((x <= -1)%Q -> (s == -1)%Q) /\ ((1 <= x)%Q -> (s == 1)%Q) /\
  ((-1 <= x)%Q -> (x <= 1)%Q -> (s == x)%Q).
Proof.
  intros s. subst s.
  destruct (Q.max_spec (-1) (Qmin 1 x)) as [[H1 ->]|[H1 ->]];
    destruct (Q.min_spec 1 x) as [[H2 E2]|[H2 E2]]; rewrite ?E2 in *;
    repeat split; intros; lra.
Qed.

Lemma scaled_le (x y : Q) : (x <= y)%Q -> (scaled x <= scaled y)%Q.
Proof.
  intros Hxy. unfold scaled.
  assert (Hs : (Qmax (-1) (Qmin 1 x) <= Qmax (-1) (Qmin 1 y))%Q).
  { apply Q.max_le_compat_l. apply Q.min_le_compat_l. exact Hxy. }
  set (a := Qmax (-1) (Qmin 1 x)) in *. set (b := Qmax (-1) (Qmin 1 y)) in *.
  destruct (Qlt_le_dec a 0); destruct (Qlt_le_dec b 0); lra.
Qed.

Lemma pcm16_scaled (x : Q) : pcm16 x = ToIntegerQ (scaled x).
Proof. reflexivity. Qed.

Lemma int16_le_bytes (v : Z) :
  -32768 <= v <= 32767 -> int16 (le_value (le_bytes 2 v)) = v.
Proof.
  intros Hr. rewrite <- (le_bytes_mod 2 v). change (256 ^ Z.of_nat 2) with 65536.
  rewrite le_value_le_bytes
    by (change (256 ^ Z.of_nat 2) with 65536; apply Z.mod_pos_bound; lia).
  unfold int16. destruct (Z.le_gt_cases 0 v) as [Hp|Hn].
  - rewrite Z.mod_small by lia. destruct (Z.ltb_spec v 32768); lia.
  - replace (v `mod` 65536) with (v + 65536).
    + destruct (Z.ltb_spec (v + 65536) 32768); lia.
    + apply Z.mod_unique with (q := -1); lia.
Qed.

Lemma Qfloor_between (q : Q) (n : Z) :
  (inject_Z n <= q)%Q -> (q < inject_Z n + 1)%Q -> Qfloor q = n.
Proof.
  intros Hlo Hhi.
  pose proof (Qfloor_le q) as H1. pose proof (Qlt_floor q) as H2.
  rewrite inject_Z_plus in H2. change (inject_Z 1) with 1%Q in H2.
  assert (Ha : (inject_Z n < inject_Z (Qfloor q) + 1)%Q) by lra.
  assert (Hb : (inject_Z (Qfloor q) < inject_Z n + 1)%Q) by lra.
  change 1%Q with (inject_Z 1) in Ha, Hb. rewrite <- inject_Z_plus in Ha, Hb.
  rewrite <- Zlt_Qlt in Ha, Hb. lia.
Qed.

(** X10.  The 16-bit conversion of [audioBufferToWav]: a sample is
    clipped to [-1, 1], scaled by 32768 below zero and by 32767 from
    zero up, and truncated toward zero on storing.  The code is monotone
    in the sample, silence gives 0, full scale gives 32767 and -32768,
    and the code is within one unit of the scaled sample on the side of
    zero.  The two scales differ: of the samples k/32768, which a
    [Float32Array] holds exactly, the negative ones get the code k and
    the positive ones the code k - 1 (0.5 gives 16383, -0.5 gives
    -16384).  The two bytes stored read back, as a signed little-endian
    word, as the code. *)
Theorem pcm16_rounds_toward_zero (x y : Q) :
  (x <= y)%Q ->
  pcm16 x <= pcm16 y /\
  pcm16 0 = 0 /\
  ((1 <= x)%Q -> pcm16 x = 32767) /\
  ((x <= -1)%Q -> pcm16 x = -32768) /\
  ((0 <= x)%Q -> (x <= 1)%Q ->
   (inject_Z (pcm16 x) <= x * 32767)%Q /\ (x * 32767 < inject_Z (pcm16 x) + 1)%Q) /\
  ((-1 <= x)%Q -> (x < 0)%Q ->
   (inject_Z (pcm16 x) - 1 < x * 32768)%Q /\ (x * 32768 <= inject_Z (pcm16 x))%Q) /\
  (forall k, 0 < k <= 32768 -> pcm16 (inject_Z k / 32768) = k - 1) /\
  (forall k, -32768 <= k < 0 -> pcm16 (inject_Z k / 32768) = k) /\
  int16 (le_value (le_bytes 2 (pcm16 x))) = pcm16 x.
Proof.
  intros Hxy. rewrite !pcm16_scaled.
  destruct (scaled_spec x) as (Hlo & Hhi & Hmin & Hmax & Hmid).
  split; [apply ToIntegerQ_le, scaled_le, Hxy|].
  split; [reflexivity|].
  split.
  { intros H1. apply ToIntegerQ_Z. unfold scaled.
    destruct (Qlt_le_dec (Qmax (-1) (Qmin 1 x)) 0) as [Hneg|_]; rewrite (Hmax H1) in *;
      [lra | reflexivity]. }
  split.
  { intros H1. apply ToIntegerQ_Z. unfold scaled.
    destruct (Qlt_le_dec (Qmax (-1) (Qmin 1 x)) 0) as [_|Hpos]; rewrite (Hmin H1) in *;
      [reflexivity | lra]. }
  split.
  { intros H0 H1. unfold scaled.
    destruct (Qlt_le_dec (Qmax (-1) (Qmin 1 x)) 0) as [Hneg|_];
      [rewrite (Hmid ltac:(lra) H1) in Hneg; lra|].
    rewrite ToIntegerQ_nonneg by (rewrite (Hmid ltac:(lra) H1); lra).
    rewrite (Hmid ltac:(lra) H1). split; [apply Qfloor_le|].
    pose proof (Qlt_floor (x * 32767)) as Hf. rewrite inject_Z_plus in Hf. exact Hf. }
  split.
  { intros H0 H1. unfold scaled.
    destruct (Qlt_le_dec (Qmax (-1) (Qmin 1 x)) 0) as [_|Hpos];
      [|rewrite (Hmid H0 ltac:(lra)) in Hpos; lra].
    rewrite ToIntegerQ_nonpos by (rewrite (Hmid H0 ltac:(lra)); lra).
    rewrite (Hmid H0 ltac:(lra)).
    pose proof (Qfloor_le (- (x * 32768))) as Hf1.
    pose proof (Qlt_floor (- (x * 32768))) as Hf2.
    rewrite inject_Z_plus in Hf2. change (inject_Z 1) with 1%Q in Hf2.
    rewrite inject_Z_opp. split; lra. }
  split.
  { intros k Hk. rewrite pcm16_scaled. unfold scaled.
    assert (H0 : (0 < inject_Z k)%Q) by (unfold Qlt; cbn; lia).
    assert (H1 : (inject_Z k <= 32768)%Q) by (unfold Qle; cbn; lia).
    assert (E : (inject_Z k / 32768 == inject_Z k * (1 # 32768))%Q) by reflexivity.
    assert (Ek : (inject_Z (k - 1) == inject_Z k - 1)%Q)
      by (unfold Z.sub; rewrite inject_Z_plus, inject_Z_opp; reflexivity).
    destruct (scaled_spec (inject_Z k / 32768)) as (_ & _ & _ & _ & Hm).
    specialize (Hm ltac:(rewrite E; lra) ltac:(rewrite E; lra)).
    destruct (Qlt_le_dec (Qmax (-1) (Qmin 1 (inject_Z k / 32768))) 0) as [Hneg|_].
    - rewrite Hm, E in Hneg. lra.
    - rewrite ToIntegerQ_nonneg by (rewrite Hm, E; lra).
      apply Qfloor_between; rewrite Hm, E, Ek; lra. }
  split.
  { intros k Hk. apply ToIntegerQ_Z. unfold scaled.
    assert (H0 : (inject_Z k < 0)%Q) by (unfold Qlt; cbn; lia).
    assert (H1 : (-32768 <= inject_Z k)%Q) by (unfold Qle; cbn; lia).
    assert (E : (inject_Z k / 32768 == inject_Z k * (1 # 32768))%Q) by reflexivity.
    destruct (scaled_spec (inject_Z k / 32768)) as (_ & _ & _ & _ & Hm).
    specialize (Hm ltac:(rewrite E; lra) ltac:(rewrite E; lra)).
    destruct (Qlt_le_dec (Qmax (-1) (Qmin 1 (inject_Z k / 32768))) 0) as [_|Hpos].
    - rewrite Hm, E. field.
    - rewrite Hm, E in Hpos. lra. }
  rewrite <- pcm16_scaled. apply int16_le_bytes, pcm16_range.
Qed.

Lemma le_bytes_are_bytes (k : nat) (v : Z) : Forall (fun b => 0 <= b < 256) (le_bytes k v).
Proof.
  revert v. induction k as [|k IH]; intros v; cbn [le_bytes]; constructor.
  - apply Z.mod_pos_bound. lia.
  - apply IH.
Qed.

Lemma Forall_flat_map {A B} (P : B -> Prop) (f : A -> list B) (l : list A) :
  (forall x, Forall P (f x)) -> Forall P (flat_map f l).
Proof.
  intros Hf. induction l as [|x l IH]; cbn; [constructor|].
  apply Forall_app. split; [apply Hf | exact IH].
Qed.

Lemma wav_container_bytes (b : AudioBuffer) :
  Forall (fun v => 0 <= v < 256) (wav_container b).
Proof.
  unfold wav_container, wav_header.
  repeat (apply Forall_app; split); try apply le_bytes_are_bytes;
    try (repeat constructor; lia).
  unfold interleaved. apply Forall_flat_map. intros frame.
  unfold frame_bytes. apply Forall_flat_map. intros ch. apply le_bytes_are_bytes.
Qed.

Lemma drop_flat_map {A B} (f : A -> list B) (m : nat) (l : list A) (k : nat) :
  (forall x, length (f x) = m) ->
  drop (k * m) (flat_map f l) = flat_map f (drop k l).
Proof.
  intros Hf. revert l. induction k as [|k IH]; intros l; [reflexivity|].
  destruct l as [|x l]; [cbn; apply drop_nil|].
  cbn [flat_map drop]. rewrite <- IH.
  replace (S k * m)%nat with (length (f x) + k * m)%nat by (rewrite Hf; lia).
  apply drop_app_add.
Qed.

Lemma sample_in_interleaved (chans : list (list Q)) (frames frame ch : nat)
    (samples : list Q) :
  (frame < frames)%nat -> chans !! ch = Some samples ->
  take 2 (drop (2 * (frame * length chans + ch)) (interleaved chans frames))
  = le_bytes 2 (pcm16 (nth frame samples 0%Q)).
Proof.
  intros Hframe Hch. unfold interleaved.
  replace (2 * (frame * length chans + ch))%nat
    with (frame * (2 * length chans) + ch * 2)%nat by lia.
  rewrite <- drop_drop.
  rewrite (drop_flat_map (frame_bytes chans) (2 * length chans)) by (apply length_frame_bytes).
  rewrite drop_seq. replace (frames - frame)%nat with (S (frames - frame - 1)) by lia.
  cbn [seq flat_map]. rewrite Nat.add_0_l.
  rewrite drop_app_le by (rewrite length_frame_bytes; apply lookup_lt_Some in Hch; lia).
  unfold frame_bytes at 1.
  rewrite (drop_flat_map _ 2) by (intros; apply length_le_bytes).
  rewrite (drop_S _ _ _ Hch). cbn [flat_map]. rewrite <- !app_assoc.
  rewrite take_app_length' by (symmetry; apply length_le_bytes). reflexivity.
Qed.

(** X11.  Reading the exported file back: every byte of the result of
    [audioBufferToWav] is in 0..255, and the two bytes at offset
    44 + 2 * (frame * numberOfChannels + channel) are, as a signed
    little-endian 16-bit word, the code of sample [frame] of channel
    [channel]: samples are interleaved frame by frame after the 44-byte
    header. *)
Theorem wav_samples_read_back (fuel : nat) (b : AudioBuffer) :
  wf_buffer b -> buf_length b <= Z.of_nat fuel ->
  exists bytes,
    audioBufferToWav fuel b = Normal bytes /\
    Forall (fun v => 0 <= v < 256) bytes /\
    forall (frame ch : nat) (samples : list Q) (x : Q),
      channelData b !! ch = Some samples -> samples !! frame = Some x ->
      int16 (le_value (take 2 (drop (44 + 2 * (frame * Z.to_nat (numberOfChannels b) + ch))
                                    bytes)))
      = pcm16 x.
Proof.
  intros Hwf Hfuel. exists (wav_container b).
  split; [apply audioBufferToWav_container; assumption|].
  split; [apply wav_container_bytes|].
  intros frame ch samples x Hch Hx. destruct Hwf as (HC & HN & Hlen & Hall).
  assert (Hs : Z.of_nat (length samples) = buf_length b).
  { rewrite Forall_lookup in Hall. exact (Hall ch samples Hch). }
  pose proof (lookup_lt_Some _ _ _ Hx) as Hlt.
  unfold wav_container.
  assert (Hh : length (wav_header (numberOfChannels b) (sampleRate b) (buf_length b)) = 44%nat)
    by reflexivity.
  rewrite <- drop_drop, <- Hh, drop_app_length.
  replace (Z.to_nat (numberOfChannels b)) with (length (channelData b)) by lia.
  rewrite (sample_in_interleaved _ _ _ _ samples) by (assumption || lia).
  rewrite (nth_lookup_Some _ _ _ _ Hx).
  apply int16_le_bytes, pcm16_range.
Qed.

End SampleFacts.

Lemma pcm16_rounds_toward_zero_witness :
  ((1 # 2) <= (3 # 4))%Q /\
  Wav.pcm16 (1 # 2) <= Wav.pcm16 (3 # 4) /\ Wav.pcm16 (1 # 2) = 16383.
Proof.
  assert (H : ((1 # 2) <= (3 # 4))%Q) by (unfold Qle; simpl; lia).
  split; [exact H|].
  split; [exact (proj1 (pcm16_rounds_toward_zero (1 # 2) (3 # 4) H)) | reflexivity].
Defined.

Lemma wav_samples_read_back_witness :
  wf_buffer Props.demoStereo /\ buf_length Props.demoStereo <= Z.of_nat 3 /\
  exists bytes,
    Wav.audioBufferToWav 3 Props.demoStereo = Normal bytes /\
    Forall (fun v => 0 <= v < 256) bytes.
Proof.
  assert (Hwf : wf_buffer Props.demoStereo).
  { unfold wf_buffer; simpl. repeat split; try lia. repeat constructor. }
  assert (Hfuel : buf_length Props.demoStereo <= Z.of_nat 3) by (simpl; lia).
  split; [exact Hwf|]. split; [exact Hfuel|].
  destruct (wav_samples_read_back 3 Props.demoStereo Hwf Hfuel) as (bytes & E & Hb & _).
  exists bytes. split; [exact E | exact Hb].
Defined.

(** ** [AdvancedAudioEngine]: seeking *)

Section AdvancedSeekFacts.
Import WebAudio AdvancedAudioEngine AdvancedTransport.
#[local] Open Scope Q_scope.

Lemma advanced_pause_spec (e : Engine) (now : Q) :
  audioContextTime e = Some now -> isPlaying e = true -> is_Some (sourceNode e) ->
  exists e',
    pause e = (Normal tt, e') /\ isPlaying e' = false /\ sourceNode e' = None /\
    nextSourceNode e' = None /\ audioBuffer e' = audioBuffer e /\
    pauseTime e' = pauseTime e + (now - startTime e) * rateOr1 e /\
    startTime e' = startTime e /\ audioContextTime e' = Some now /\
    playbackRate e' = playbackRate e.
Proof.
  intros Hc Hp Hs. unfold pause. unfold mbind at 1, js_bind at 1, js_get.
  rewrite Hp, bool_decide_true by assumption. cbn [negb orb].
  unfold mbind at 1, js_bind at 1, getContextTime. rewrite Hc.
  unfold mbind at 1, js_bind at 1, js_modify.
  unfold mbind at 1, js_bind at 1.
  match goal with |- context [js_try ?b ?h ?s] =>
    assert (Htry : js_try b h s = (Normal tt, s)) end.
  { unfold js_try, mbind, js_bind, stopAndDisconnect, js_get. cbn [sourceNode set_pauseTime].
    destruct Hs as [s Hs]. rewrite Hs. unfold WebAudio.stop.
    destruct (startedAt s); [|reflexivity].
    cbn [nextSourceNode set_pauseTime].
    destruct (nextSourceNode e) as [n|] eqn:Hn; cbn; rewrite ?Hn; [|reflexivity].
    destruct (startedAt n); reflexivity. }
  rewrite Htry. eexists. split; [reflexivity|]. cbn. auto 10.
Qed.

(** X12.  [AdvancedAudioEngine.seek(time)] with a buffer loaded: the
    position read by [getCurrentTime()] right after it is [time] clamped
    to [0, duration], whether the engine was playing or paused; when it
    was playing, the source is stopped and dropped and one timer, due in
    10 ms, is set to call [play()]. *)
Theorem advanced_seek_lands_clamped (e : Engine) (buf : AudioBuffer) (t : Q) :
  audioBuffer e = Some buf ->
  (isPlaying e = true -> is_Some (sourceNode e) -> is_Some (audioContextTime e)) ->
  0 <= duration buf ->
  exists e' p,
    seek t e =
      (Normal (if isPlaying e
               then [{| AudioEngine.delayMs := 10%Z;
                        AudioEngine.callback := AudioEngine.CallPlay |}]
               else []), e') /\
    getCurrentTime e' = Normal p /\
    p = Qmax 0 (Qmin t (duration buf)) /\
    0 <= p /\ p <= duration buf /\
    (t < 0 -> p == 0) /\ (duration buf < t -> p == duration buf) /\
    (0 <= t -> t <= duration buf -> p == t) /\
    (is_Some (sourceNode e') -> sourceNode e' = sourceNode e /\ isPlaying e = false).
Proof.
  intros Hb Hctx Hd.
  assert (Hseek : exists e',
            seek t e =
              (Normal (if isPlaying e
                       then [{| AudioEngine.delayMs := 10%Z;
                                AudioEngine.callback := AudioEngine.CallPlay |}]
                       else []), e') /\
            audioBuffer e' = Some buf /\ pauseTime e' = Qmax 0 (Qmin t (duration buf)) /\
            (isPlaying e' = true -> sourceNode e' = None) /\
            (is_Some (sourceNode e') -> sourceNode e' = sourceNode e /\ isPlaying e = false)).
  { unfold seek. unfold mbind at 1, js_bind at 1, js_get. rewrite Hb.
    destruct (isPlaying e) eqn:Hp.
    - destruct (sourceNode e) as [s|] eqn:Hs.
      + destruct (Hctx eq_refl ltac:(eauto)) as [now Hnow].
        destruct (advanced_pause_spec e now Hnow Hp ltac:(rewrite Hs; eauto))
          as (e1 & E1 & Hp1 & Hs1 & _ & Hb1 & _).
        unfold mbind, js_bind, js_modify. rewrite E1.
        eexists. split; [reflexivity|]. cbn. rewrite Hp1, Hs1, Hb1, Hb.
        repeat split; auto; try discriminate; try (intros [? ?]; discriminate);
          try match goal with H : is_Some None |- _ => destruct H; discriminate end.
      + unfold pause. unfold mbind, js_bind, js_get, js_modify. rewrite Hp, Hs.
        rewrite bool_decide_false by (intros [? ?]; discriminate). cbn.
        eexists. split; [reflexivity|]. cbn. rewrite Hs, Hb.
        repeat split; auto; try discriminate; try (intros [? ?]; discriminate);
          try match goal with H : is_Some None |- _ => destruct H; discriminate end.
    - unfold mbind, js_bind, js_modify. cbn.
      eexists. split; [reflexivity|]. cbn. rewrite Hp, Hb. repeat split; auto; discriminate. }
  destruct Hseek as (e' & E & Hb' & Hpt' & Hnosrc & Hsrc).
  exists e', (Qmax 0 (Qmin t (duration buf))). split; [exact E|]. split.
  - unfold getCurrentTime. rewrite Hb', Hpt'.
    destruct (isPlaying e') eqn:Hp'; [|reflexivity].
    rewrite (Hnosrc eq_refl). rewrite bool_decide_false by (intros [? ?]; discriminate).
    reflexivity.
  - split; [reflexivity|].
    destruct (clamp_spec t (duration buf) Hd) as (H1 & H2 & H3 & H4 & H5).
    repeat split; assumption || apply Hsrc; assumption.
Qed.

End AdvancedSeekFacts.

Lemma advanced_seek_lands_clamped_witness :
  AdvancedAudioEngine.audioBuffer Props.demoAdvanced = Some Props.demoTrack /\
  is_Some (AdvancedAudioEngine.audioContextTime Props.demoAdvanced) /\
  (0 <= duration Props.demoTrack)%Q /\
  exists e',
    AdvancedTransport.seek 250 Props.demoAdvanced
    = (Normal [{| AudioEngine.delayMs := 10; AudioEngine.callback := AudioEngine.CallPlay |}],
       e') /\
    exists p, AdvancedAudioEngine.getCurrentTime e' = Normal p /\ (p == 100)%Q.
Proof.
  assert (Hb : AdvancedAudioEngine.audioBuffer Props.demoAdvanced = Some Props.demoTrack)
    by reflexivity.
  assert (Hc : is_Some (AdvancedAudioEngine.audioContextTime Props.demoAdvanced))
    by (eexists; reflexivity).
  assert (Hd : (0 <= duration Props.demoTrack)%Q) by (unfold Qle; simpl; lia).
  split; [exact Hb|]. split; [exact Hc|]. split; [exact Hd|].
  destruct (advanced_seek_lands_clamped Props.demoAdvanced Props.demoTrack 250 Hb
              (fun _ _ => Hc) Hd)
    as (e' & p & E & Ht & _ & _ & _ & _ & Hhi & _).
  exists e'. split; [exact E|]. exists p. split; [exact Ht|].
  apply Hhi. unfold Qlt; simpl; lia.
Defined.

(** ** [AdvancedAudioEngine]: the equaliser *)

Section EqualizerFacts.
Import WebAudio Equalizer Props.
#[local] Open Scope Q_scope.

Lemma setEQBand_spec (e : Engine) (index : nat) (gain now : Q) (filterGain : AudioParam) :
  audioContextTime e = Some now -> eqFilters e !! index = Some filterGain ->
  exists filterGain',
    setEQBand (Z.of_nat index) gain e =
      (Normal tt, {| eqGains := <[index := gain]> (eqGains e);
                     eqFilters := <[index := filterGain']> (eqFilters e);
                     audioContextTime := Some now |}) /\
    rampScheduled filterGain filterGain' now gain 0.1.
Proof.
  intros Hc Hf. pose proof (lookup_lt_Some _ _ _ Hf) as Hlt.
  unfold setEQBand. rewrite bool_decide_true by lia. rewrite Hc, Nat2Z.id, Hf.
  eexists. split; [reflexivity|]. apply schedule_ramp. lra.
Qed.

(** X13.  [setEQBand(index, gain)] on a band that exists: [eqGains]
    reads back the gain at that index, the filter's gain parameter is
    ramped from its value now to the gain over 0.1 s and holds it from
    then on, and every other band keeps its gain and its filter.  An
    index below 0 or past the last filter changes nothing. *)
Theorem setEQBand_reads_back (e : Engine) (index : nat) (gain now : Q)
    (filterGain : AudioParam) :
  audioContextTime e = Some now -> eqFilters e !! index = Some filterGain ->
  (index < length (eqGains e))%nat ->
  exists e' filterGain',
    setEQBand (Z.of_nat index) gain e = (Normal tt, e') /\
    eqGains e' !! index = Some gain /\
    eqFilters e' !! index = Some filterGain' /\
    rampScheduled filterGain filterGain' now gain 0.1 /\
    (forall a, 0.1 <= a -> valueAtTime filterGain' (now + a) == gain) /\
    (forall k, k <> index ->
       eqGains e' !! k = eqGains e !! k /\ eqFilters e' !! k = eqFilters e !! k) /\
    length (eqGains e') = length (eqGains e) /\
    length (eqFilters e') = length (eqFilters e) /\
    (forall out, (out < 0 \/ Z.of_nat (length (eqFilters e)) <= out)%Z ->
       setEQBand out gain e = (Normal tt, e)).
Proof.
  intros Hc Hf Hg. pose proof (lookup_lt_Some _ _ _ Hf) as Hlt.
  destruct (setEQBand_spec e index gain now filterGain Hc Hf) as (p' & E & Hramp).
  eexists _, p'. split; [exact E|]. cbn.
  split; [apply list_lookup_insert_eq; exact Hg|].
  split; [apply list_lookup_insert_eq; exact Hlt|].
  split; [exact Hramp|]. split.
  { intros a Ha. rewrite (ramped_value filterGain p' now gain 0.1 a Hramp) by lra.
    apply rampValue_end. exact Ha. }
  split.
  { intros k Hk. split; apply list_lookup_insert_ne; congruence. }
  split; [apply length_insert|]. split; [apply length_insert|].
  intros out Hout. unfold setEQBand. rewrite bool_decide_false by lia. reflexivity.
Qed.

Lemma forEachBand_spec (now : Q) (gains : list Q) :
  forall (k : nat) (e : Engine),
    audioContextTime e = Some now ->
    (k + length gains <= length (eqFilters e))%nat ->
    (k + length gains <= length (eqGains e))%nat ->
    exists e',
      forEachBand gains (Z.of_nat k) e = (Normal tt, e') /\
      audioContextTime e' = Some now /\
      eqGains e' = take k (eqGains e) ++ gains ++ drop (k + length gains) (eqGains e) /\
      length (eqFilters e') = length (eqFilters e) /\
      (forall i p, eqFilters e !! i = Some p ->
         ((i < k)%nat \/ (k + length gains <= i)%nat -> eqFilters e' !! i = Some p) /\
         (forall gain, gains !! (i - k)%nat = Some gain -> (k <= i)%nat ->
            exists p', eqFilters e' !! i = Some p' /\ rampScheduled p p' now gain 0.1)).
Proof.
  induction gains as [|gain rest IH]; intros k e Hc Hf Hg.
  - exists e. split; [reflexivity|]. split; [exact Hc|]. cbn.
    rewrite Nat.add_0_r, take_drop. repeat split; auto. intros; discriminate.
  - cbn [length] in Hf, Hg. cbn [forEachBand].
    destruct (lookup_lt_is_Some_2 (eqFilters e) k ltac:(lia)) as [p0 Hp0].
    destruct (setEQBand_spec e k gain now p0 Hc Hp0) as (p0' & E & Hramp).
    unfold mbind, js_bind. rewrite E.
    set (e1 := {| eqGains := <[k:=gain]> (eqGains e);
                  eqFilters := <[k:=p0']> (eqFilters e); audioContextTime := Some now |}).
    replace (Z.of_nat k + 1)%Z with (Z.of_nat (S k)) by lia.
    destruct (IH (S k) e1 eq_refl) as (e' & E' & Hc' & Hg' & Hlen' & Hf').
    { subst e1; cbn. rewrite length_insert. lia. }
    { subst e1; cbn. rewrite length_insert. lia. }
    exists e'. split; [exact E'|]. split; [exact Hc'|]. split; [|split].
    + rewrite Hg'. subst e1. cbn [eqGains length].
      rewrite drop_insert_lt by lia.
      rewrite (take_S_r _ _ gain) by (apply list_lookup_insert_eq; lia).
      rewrite take_insert_ge by lia. rewrite <- app_assoc. cbn.
      replace (S (k + length rest))%nat with (k + S (length rest))%nat by lia. reflexivity.
    + rewrite Hlen'. subst e1. cbn. apply length_insert.
    + intros i p Hp. split.
      * intros Hout. cbn [length] in Hout.
        destruct (Hf' i p) as [Hsame _].
        { subst e1. cbn. rewrite list_lookup_insert_ne by lia. exact Hp. }
        apply Hsame. lia.
      * intros g Hgi Hki. destruct (decide (i = k)) as [->|Hne].
        -- rewrite Nat.sub_diag in Hgi. injection Hgi as <-.
           destruct (Hf' k p0') as [Hsame _].
           { subst e1. cbn. apply list_lookup_insert_eq. eapply lookup_lt_Some; eauto. }
           exists p0'. split; [apply Hsame; lia|]. congruence.
        -- destruct (Hf' i p) as [_ Hin].
           { subst e1. cbn. rewrite list_lookup_insert_ne by lia. exact Hp. }
           apply Hin; [|lia].
           replace (i - k)%nat with (S (i - S k)) in Hgi by lia. exact Hgi.
Qed.

Lemma presets_ten_bands : map_Forall (fun _ gains => length gains = 10%nat) presets.
Proof.
  unfold presets. cbn [list_to_map foldr uncurry].
  repeat (apply map_Forall_insert_2; [reflexivity|]). apply map_Forall_empty.
Qed.

Lemma length_presetGains (preset : string) (gains : list Q) :
  presetGains preset = Some gains -> length gains = 10%nat.
Proof.
  unfold presetGains. destruct (presets !! preset) as [g|] eqn:E.
  - intros [= <-]. exact (presets_ten_bands preset g E).
  - case_bool_decide; [discriminate|]. intros [= <-]. reflexivity.
Qed.

(** X14.  [setEQPreset(preset)] with the ten filters in place.  For one
    of the eight preset names it sets the ten gains of [eqGains] to the
    preset's and ramps each filter's gain to its entry over 0.1 s; for a
    name that is no preset and no property inherited from
    [Object.prototype] it does so with the flat preset, all zeros, which
    leaves the equaliser inactive.  For an inherited property name
    (such as toString) the fallback is not taken: a TypeError is thrown
    and nothing changes. *)
Theorem setEQPreset_sets_all_bands (e : Engine) (preset : string) (now : Q) :
  audioContextTime e = Some now ->
  length (eqFilters e) = 10%nat -> length (eqGains e) = 10%nat ->
  (presets !! preset = None -> preset ∈ inheritedProperties ->
   setEQPreset preset e = (Throw TypeError, e)) /\
  (is_Some (presets !! preset) \/ preset ∉ inheritedProperties ->
   exists e' gains,
     setEQPreset preset e = (Normal tt, e') /\
     eqGains e' = gains /\ length gains = 10%nat /\
     length (eqFilters e') = 10%nat /\
     (forall gains', presets !! preset = Some gains' -> gains = gains') /\
     (presets !! preset = None -> gains = replicate 10 0 /\ eqActive e' = false) /\
     (forall i p gain,
        eqFilters e !! i = Some p -> gains !! i = Some gain ->
        exists p', eqFilters e' !! i = Some p' /\ rampScheduled p p' now gain 0.1 /\
                   forall a, 0.1 <= a -> valueAtTime p' (now + a) == gain) /\
     (preset = "flat"%string -> eqActive e' = false) /\
     (preset = "bass"%string -> gains = [6; 5; 4; 2; 0; -1; -2; -2; -2; -2])).
Proof.
  intros Hc Hf Hg. split.
  { intros Hnone Hin. unfold setEQPreset, presetGains. rewrite Hnone.
    rewrite bool_decide_true by exact Hin. reflexivity. }
  intros Hok.
  assert (Hsome : exists gains, presetGains preset = Some gains /\
            (forall gains', presets !! preset = Some gains' -> gains = gains') /\
            (presets !! preset = None -> gains = replicate 10 0)).
  { unfold presetGains. destruct (presets !! preset) as [g|] eqn:E.
    - exists g. split; [reflexivity|]. split; [congruence | discriminate].
    - destruct Hok as [[? ?]|Hout]; [discriminate|].
      rewrite bool_decide_false by exact Hout.
      eexists. split; [reflexivity|]. split; [discriminate | reflexivity]. }
  destruct Hsome as (gains & Hpg & Hown & Hflat).
  pose proof (length_presetGains preset gains Hpg) as Hlen.
  destruct (forEachBand_spec now gains 0 e Hc) as (e' & E & _ & Hg' & Hf' & Hbands).
  { rewrite Hlen, Hf. cbn. lia. }
  { rewrite Hlen, Hg. cbn. lia. }
  assert (Hgains : eqGains e' = gains).
  { rewrite Hg'. cbn [take app Nat.add]. rewrite drop_ge by lia. apply app_nil_r. }
  exists e', gains. split; [unfold setEQPreset; rewrite Hpg; exact E|].
  split; [exact Hgains|]. split; [exact Hlen|]. split; [congruence|].
  split; [exact Hown|]. split.
  { intros Hnone. split; [auto|]. unfold eqActive. rewrite Hgains, (Hflat Hnone). reflexivity. }
  split.
  { intros i p gain Hp Hgi. destruct (Hbands i p Hp) as [_ Hin].
    destruct (Hin gain ltac:(rewrite Nat.sub_0_r; exact Hgi) ltac:(lia)) as (p' & Hp' & Hramp).
    exists p'. split; [exact Hp'|]. split; [exact Hramp|].
    intros a Ha. rewrite (ramped_value p p' now gain 0.1 a Hramp) by lra.
    apply rampValue_end. exact Ha. }
  split.
  - intros ->. unfold eqActive. rewrite Hgains.
    rewrite (Hown (replicate 10 0) eq_refl). reflexivity.
  - intros ->. apply Hown. reflexivity.
Qed.

End EqualizerFacts.

Lemma setEQBand_reads_back_witness :
  Equalizer.audioContextTime Notions.demoEqualizer = Some 0%Q /\
  is_Some (Equalizer.eqFilters Notions.demoEqualizer !! 3%nat) /\
  (3 < length (Equalizer.eqGains Notions.demoEqualizer))%nat /\
  exists e',
    Equalizer.setEQBand 3 (-4) Notions.demoEqualizer = (Normal tt, e') /\
    Equalizer.eqGains e' !! 3%nat = Some (-4)%Q.
Proof.
  assert (Hc : Equalizer.audioContextTime Notions.demoEqualizer = Some 0%Q) by reflexivity.
  assert (Hg : (3 < length (Equalizer.eqGains Notions.demoEqualizer))%nat) by (simpl; lia).
  destruct (Equalizer.eqFilters Notions.demoEqualizer !! 3%nat) as [p|] eqn:Hp;
    [|discriminate].
  split; [exact Hc|]. split; [eexists; reflexivity|]. split; [exact Hg|].
  destruct (setEQBand_reads_back Notions.demoEqualizer 3 (-4) 0 p Hc Hp Hg)
    as (e' & p' & E & Hread & _).
  exists e'. split; [exact E | exact Hread].
Defined.

Lemma setEQPreset_sets_all_bands_witness :
  Equalizer.audioContextTime Notions.demoEqualizer = Some 0%Q /\
  length (Equalizer.eqFilters Notions.demoEqualizer) = 10%nat /\
  length (Equalizer.eqGains Notions.demoEqualizer) = 10%nat /\
  Equalizer.setEQPreset "toString" Notions.demoEqualizer
  = (Throw TypeError, Notions.demoEqualizer) /\
  exists e',
    Equalizer.setEQPreset "rock" Notions.demoEqualizer = (Normal tt, e') /\
    Equalizer.eqGains e' = [5; 4; 3; 1; -1; 0; 1; 3; 4; 5]%Q.
Proof.
  assert (Hc : Equalizer.audioContextTime Notions.demoEqualizer = Some 0%Q) by reflexivity.
  assert (Hf : length (Equalizer.eqFilters Notions.demoEqualizer) = 10%nat) by reflexivity.
  assert (Hg : length (Equalizer.eqGains Notions.demoEqualizer) = 10%nat) by reflexivity.
  split; [exact Hc|]. split; [exact Hf|]. split; [exact Hg|]. split.
  - apply (proj1 (setEQPreset_sets_all_bands Notions.demoEqualizer "toString" 0 Hc Hf Hg)).
    + reflexivity.
    + vm_compute. repeat constructor.
  - destruct (proj2 (setEQPreset_sets_all_bands Notions.demoEqualizer "rock" 0 Hc Hf Hg))
      as (e' & gains & E & Hgains & _ & _ & Hown & _).
    + left. eexists. reflexivity.
    + exists e'. split; [exact E|]. rewrite Hgains. apply Hown. reflexivity.
Defined.

(** ** The playlist *)

Section PlaylistFacts.
Import Playlist Notions.
Variable Math_random : nat -> Q.

Lemma swap_Permutation (i j : nat) (a : list Z) : swap i j a ≡ₚ a.
Proof.
  unfold swap. destruct (a !! i) as [x|] eqn:Hi; [|reflexivity].
  destruct (a !! j) as [y|] eqn:Hj; [|reflexivity].
  destruct (decide (i = j)) as [->|Hij].
  - rewrite list_insert_insert_eq. rewrite list_insert_id by congruence. reflexivity.
  - symmetry. apply Permutation_inj. split.
    + rewrite !length_insert. reflexivity.
    + exists (fun k => if decide (k = i) then j else if decide (k = j) then i else k).
      split.
      * intros k1 k2. repeat case_decide; congruence.
      * intros k. repeat case_decide; subst.
        -- rewrite list_lookup_insert_eq by (rewrite length_insert; eapply lookup_lt_Some; eauto).
           exact Hi.
        -- rewrite list_lookup_insert_ne by congruence.
           rewrite list_lookup_insert_eq by (eapply lookup_lt_Some; eauto). exact Hj.
        -- rewrite !list_lookup_insert_ne by congruence. reflexivity.
Qed.

Lemma fisherYates_Permutation (i : nat) (a : list Z) (calls : nat) :
  (fisherYates Math_random i a calls).1 ≡ₚ a /\
  (fisherYates Math_random i a calls).2 = (calls + i)%nat.
Proof.
  revert a calls. induction i as [|i IH]; intros a calls; cbn [fisherYates].
  - split; [reflexivity | cbn; lia].
  - destruct (IH (swap (S i) (Z.to_nat (Qfloor (Math_random calls * inject_Z (Z.of_nat (S i) + 1)))) a)
                 (S calls)) as [H1 H2].
    split; [rewrite H1; apply swap_Permutation | rewrite H2; lia].
Qed.

Lemma updateShuffleOrder_spec (pm : PlaylistManager) :
  let pm' := updateShuffleOrder Math_random pm in
  shuffledIndices pm' ≡ₚ otherIndices pm /\
  tracks pm' = tracks pm /\ currentIndex pm' = currentIndex pm /\
  shuffleMode pm' = shuffleMode pm /\ repeatMode pm' = repeatMode pm.
Proof.
  unfold updateShuffleOrder. cbn. split; [|auto].
  apply fisherYates_Permutation.
Qed.

Lemma elem_of_otherIndices (pm : PlaylistManager) (i : Z) :
  i ∈ otherIndices pm <-> 0 <= i < Z.of_nat (length (tracks pm)) /\ i <> currentIndex pm.
Proof.
  unfold otherIndices. rewrite list_elem_of_In, List.filter_In, <- list_elem_of_In.
  rewrite list_elem_of_fmap. setoid_rewrite elem_of_seq.
  rewrite negb_true_iff, Z.eqb_neq. split.
  - intros [(k & -> & Hk) Hne]. split; [lia | exact Hne].
  - intros [Hr Hne]. split; [|exact Hne]. exists (Z.to_nat i). lia.
Qed.

Lemma NoDup_otherIndices (pm : PlaylistManager) : NoDup (otherIndices pm).
Proof.
  unfold otherIndices. apply NoDup_ListNoDup, List.NoDup_filter, NoDup_ListNoDup.
  apply NoDup_fmap; [intros ? ?; lia | apply NoDup_seq].
Qed.

Lemma updateShuffleOrder_range (pm : PlaylistManager) :
  Forall (fun i => 0 <= i < Z.of_nat (length (tracks pm)))
         (shuffledIndices (updateShuffleOrder Math_random pm)).
Proof.
  destruct (updateShuffleOrder_spec pm) as (Hperm & _).
  rewrite Hperm. apply list.Forall_forall. intros i Hi. apply elem_of_otherIndices in Hi. tauto.
Qed.

Lemma updateShuffleOrder_consistent (pm : PlaylistManager) :
  indexInRange pm -> shuffleMode pm = true -> consistent (updateShuffleOrder Math_random pm).
Proof.
  intros Hi Hon. pose proof (updateShuffleOrder_range pm) as Hr.
  destruct (updateShuffleOrder_spec pm) as (_ & Ht & Hc & Hs & _).
  split; [unfold indexInRange; rewrite Ht, Hc; exact Hi|].
  split; [congruence | rewrite Ht; exact Hr].
Qed.

Lemma refresh_consistent (pm : PlaylistManager) :
  indexInRange pm -> (shuffleMode pm = false -> shuffledIndices pm = []) ->
  consistent (if shuffleMode pm then updateShuffleOrder Math_random pm else pm).
Proof.
  intros Hi Hoff. destruct (shuffleMode pm) eqn:Hs.
  - apply updateShuffleOrder_consistent; assumption.
  - split; [exact Hi|]. split; [auto|]. rewrite Hoff by reflexivity. constructor.
Qed.

Lemma getNextShuffleIndex_spec (pm : PlaylistManager) :
  consistent pm -> shuffleMode pm = true ->
  let r := getNextShuffleIndex Math_random pm in
  -1 <= r.1 < Z.of_nat (length (tracks pm)) /\
  tracks r.2 = tracks pm /\ shuffleMode r.2 = true /\ repeatMode r.2 = repeatMode pm /\
  Forall (fun i => 0 <= i < Z.of_nat (length (tracks pm))) (shuffledIndices r.2).
Proof.
  intros [Hi [_ Hr]] Hon. unfold getNextShuffleIndex.
  set (pm1 := if bool_decide (length (shuffledIndices pm) = 0%nat)
              then updateShuffleOrder Math_random pm else pm).
  assert (H1 : tracks pm1 = tracks pm /\ currentIndex pm1 = currentIndex pm /\
               shuffleMode pm1 = true /\ repeatMode pm1 = repeatMode pm /\
               Forall (fun i => 0 <= i < Z.of_nat (length (tracks pm))) (shuffledIndices pm1)).
  { subst pm1. case_bool_decide; [|auto].
    destruct (updateShuffleOrder_spec pm) as (_ & Ht & Hc & Hs & Hm).
    pose proof (updateShuffleOrder_range pm). rewrite Hs. auto. }
  clearbody pm1. destruct H1 as (Ht1 & Hc1 & Hs1 & Hm1 & Hr1).
  destruct (shuffledIndices pm1) as [|x rest] eqn:Hsh; cbn.
  - rewrite Hc1, Hsh. repeat split; auto; apply Hi.
  - inversion Hr1 as [|? ? Hx Hrest]; subst.
    destruct rest as [|y rest]; cbn.
    + rewrite bool_decide_true by reflexivity.
      destruct (String.eqb (repeatMode pm1) "all"); cbn.
      * repeat split; try lia; auto.
        rewrite <- Ht1. exact (updateShuffleOrder_range (set_shuffledIndices [] pm1)).
      * repeat split; try lia; auto.
    + repeat split; try lia; auto.
Qed.

Lemma length_delete_lt {A} (l : list A) (i : nat) :
  (i < length l)%nat -> length (delete i l) = (length l - 1)%nat.
Proof. intros Hi. apply length_delete, lookup_lt_is_Some_2, Hi. Qed.

Lemma addTrack_consistent (pm : PlaylistManager) now filePath metadata :
  consistent pm -> consistent (addTrack Math_random now filePath metadata pm).2.
Proof.
  intros [Hi [Hoff Hr]]. unfold addTrack. cbn [snd].
  apply refresh_consistent; cbn.
  - unfold indexInRange in *. cbn. rewrite length_app. cbn. lia.
  - exact Hoff.
Qed.

Lemma removeTrack_consistent (pm : PlaylistManager) (index : Z) :
  consistent pm -> consistent (removeTrack Math_random index pm).2.
Proof.
  intros [Hi [Hoff Hr]]. unfold removeTrack.
  case_bool_decide as Hout; [split; [exact Hi | split; assumption]|]. cbn [snd].
  assert (Hlen : length (delete (Z.to_nat index) (tracks pm)) = (length (tracks pm) - 1)%nat)
    by (apply length_delete_lt; lia).
  unfold indexInRange in Hi.
  match goal with |- consistent (if shuffleMode ?p then _ else _) =>
    assert (Hp : indexInRange p /\ shuffleMode p = shuffleMode pm /\
                 shuffledIndices p = shuffledIndices pm) end.
  { cbn. repeat case_bool_decide; cbn; unfold indexInRange; cbn; rewrite ?Hlen;
      repeat split; lia. }
  destruct Hp as (Hp1 & Hp2 & Hp3).
  apply refresh_consistent; [exact Hp1|]. rewrite Hp2, Hp3. exact Hoff.
Qed.

Lemma length_moved {A} (l : list A) (i j : nat) (x : A) :
  (i < length l)%nat -> (j < length l)%nat ->
  length (take j (delete i l) ++ x :: drop j (delete i l)) = length l.
Proof.
  intros Hi Hj. rewrite length_app, length_take. cbn. rewrite length_drop, length_delete_lt by lia.
  lia.
Qed.

Lemma moveTrack_consistent (pm : PlaylistManager) (fromIndex toIndex : Z) :
  consistent pm -> consistent (moveTrack fromIndex toIndex pm).2.
Proof.
  intros [Hi [Hoff Hr]]. unfold moveTrack.
  case_bool_decide as Hout; [split; [exact Hi | split; assumption]|].
  destruct (tracks pm !! Z.to_nat fromIndex) as [track|] eqn:Ht;
    [|split; [exact Hi | split; assumption]].
  cbn [snd]. unfold indexInRange in Hi.
  assert (Hlen : length (take (Z.to_nat toIndex) (delete (Z.to_nat fromIndex) (tracks pm)) ++
                         track :: drop (Z.to_nat toIndex) (delete (Z.to_nat fromIndex) (tracks pm)))
                 = length (tracks pm)) by (apply length_moved; lia).
  cbn [currentIndex set_tracks].
  repeat case_bool_decide; (split; [unfold indexInRange|split]); cbn; rewrite ?Hlen;
    try assumption; lia.
Qed.

Lemma next_consistent (pm : PlaylistManager) :
  consistent pm -> consistent (next Math_random pm).2.
Proof.
  intros Hc. pose proof Hc as [Hi [Hoff Hr]]. unfold next.
  case_bool_decide as Hempty; [exact Hc|].
  destruct (shuffleMode pm) eqn:Hs.
  - destruct (getNextShuffleIndex_spec pm Hc Hs) as (Hx & Ht & Hs' & _ & Hr').
    cbn [snd]. split; [unfold indexInRange; cbn; rewrite Ht; exact Hx|].
    split; cbn; [congruence | rewrite Ht; exact Hr'].
  - unfold indexInRange in Hi.
    repeat case_bool_decide; try destruct (String.eqb (repeatMode pm) "all");
      cbn [snd]; try exact Hc;
      (split; [unfold indexInRange; cbn; lia | split; cbn; auto]).
Qed.

Lemma previous_consistent (pm : PlaylistManager) :
  consistent pm -> consistent (previous Math_random pm).2.
Proof.
  intros Hc. pose proof Hc as [Hi [Hoff Hr]]. unfold previous, getPreviousShuffleIndex.
  case_bool_decide as Hempty; [exact Hc|].
  destruct (shuffleMode pm) eqn:Hs.
  - destruct (getNextShuffleIndex_spec pm Hc Hs) as (Hx & Ht & Hs' & _ & Hr').
    cbn [snd]. split; [unfold indexInRange; cbn; rewrite Ht; exact Hx|].
    split; cbn; [congruence | rewrite Ht; exact Hr'].
  - unfold indexInRange in Hi. cbn [snd].
    split; [|split; cbn; auto]. unfold indexInRange. cbn.
    repeat case_bool_decide; try destruct (String.eqb (repeatMode pm) "all"); lia.
Qed.

Lemma setShuffleMode_consistent (pm : PlaylistManager) (enabled : bool) :
  consistent pm -> consistent (setShuffleMode Math_random enabled pm).
Proof.
  intros [Hi [Hoff Hr]]. unfold setShuffleMode. destruct enabled.
  - apply updateShuffleOrder_consistent; [exact Hi | reflexivity].
  - split; [exact Hi|]. split; [reflexivity | constructor].
Qed.

(** X15.  The playlist stays consistent: if the current index is -1 or
    the index of a track, the shuffle order is empty outside shuffle
    mode and names indices of the list only, then the same holds after
    [addTrack], [removeTrack], [clearPlaylist], [moveTrack],
    [setCurrentIndex], [next], [previous], [setShuffleMode] and
    [setRepeatMode], with any arguments; and in such a state
    [getCurrentTrack()] returns a track unless the index is -1. *)
Theorem playlist_stays_consistent (pm : PlaylistManager) :
  consistent pm ->
  (forall now filePath metadata,
     consistent (addTrack Math_random now filePath metadata pm).2) /\
  (forall index, consistent (removeTrack Math_random index pm).2) /\
  consistent (clearPlaylist pm) /\
  (forall fromIndex toIndex, consistent (moveTrack fromIndex toIndex pm).2) /\
  (forall index, consistent (setCurrentIndex index pm).2) /\
  consistent (next Math_random pm).2 /\
  consistent (previous Math_random pm).2 /\
  (forall enabled, consistent (setShuffleMode Math_random enabled pm)) /\
  (forall mode, consistent (setRepeatMode mode pm)) /\
  (currentIndex pm = -1 \/ is_Some (getCurrentTrack pm)).
Proof.
  intros Hc. pose proof Hc as [Hi [Hoff Hr]].
  split; [intros; apply addTrack_consistent; exact Hc|].
  split; [intros; apply removeTrack_consistent; exact Hc|].
  split; [split; [unfold indexInRange; cbn; lia | split; [reflexivity | constructor]]|].
  split; [intros; apply moveTrack_consistent; exact Hc|].
  split.
  { intros index. unfold setCurrentIndex. case_bool_decide; [|exact Hc].
    split; [unfold indexInRange; cbn; lia | split; cbn; assumption]. }
  split; [apply next_consistent; exact Hc|].
  split; [apply previous_consistent; exact Hc|].
  split; [intros; apply setShuffleMode_consistent; exact Hc|].
  split; [intros mode; exact Hc|].
  unfold indexInRange in Hi. destruct (decide (currentIndex pm = -1)) as [|Hne]; [left; assumption|].
  right. unfold getCurrentTrack. rewrite bool_decide_true by lia.
  apply lookup_lt_is_Some_2. lia.
Qed.


Lemma getCurrentTrack_refresh (pm : PlaylistManager) :
  getCurrentTrack (if shuffleMode pm then updateShuffleOrder Math_random pm else pm)
  = getCurrentTrack pm.
Proof. destruct (shuffleMode pm); reflexivity. Qed.

Lemma tracks_refresh (pm : PlaylistManager) :
  tracks (if shuffleMode pm then updateShuffleOrder Math_random pm else pm) = tracks pm.
Proof. destruct (shuffleMode pm); reflexivity. Qed.

(** X16.  [removeTrack(index)] with an index of the list returns true
    and deletes that entry.  When another track than the current one is
    removed, [getCurrentTrack()] returns the same track as before, the
    current index moving down by one if the removed entry was before it.
    When the current track itself is removed, the track that followed it
    becomes current; if it was the last one, the track before it; if it
    was the only one, none. *)
Theorem removeTrack_keeps_the_current_track (pm : PlaylistManager) (index : Z) :
  0 <= index < Z.of_nat (length (tracks pm)) ->
  let r := removeTrack Math_random index pm in
  r.1 = true /\
  tracks r.2 = delete (Z.to_nat index) (tracks pm) /\
  (index <> currentIndex pm -> getCurrentTrack r.2 = getCurrentTrack pm) /\
  (index = currentIndex pm ->
   getCurrentTrack r.2 =
     if bool_decide (index + 1 < Z.of_nat (length (tracks pm)))
     then tracks pm !! Z.to_nat (index + 1)
     else if bool_decide (0 < index) then tracks pm !! Z.to_nat (index - 1) else None).
Proof.
  intros Hin r. subst r. unfold removeTrack.
  rewrite bool_decide_false by lia. cbn [fst snd].
  rewrite getCurrentTrack_refresh, tracks_refresh.
  assert (Hlen : length (delete (Z.to_nat index) (tracks pm)) = (length (tracks pm) - 1)%nat)
    by (apply length_delete_lt; lia).
  split; [reflexivity|]. split; [repeat case_bool_decide; reflexivity|].
  cbn [currentIndex set_tracks tracks].
  split.
  - intros Hne. unfold getCurrentTrack.
    destruct (decide (index < currentIndex pm)) as [Hlt|Hge].
    + rewrite (bool_decide_true (index < currentIndex pm)) by assumption.
      cbn [currentIndex set_currentIndex tracks set_tracks]. rewrite Hlen.
      repeat case_bool_decide; try lia; try reflexivity.
      rewrite list_lookup_delete_ge by lia. f_equal. lia.
    + rewrite (bool_decide_false (index < currentIndex pm)) by assumption.
      rewrite (bool_decide_false (index = currentIndex pm)) by assumption.
      cbn [currentIndex set_currentIndex tracks set_tracks]. rewrite Hlen.
      repeat case_bool_decide; try lia; try reflexivity.
      apply list_lookup_delete_lt. lia.
  - intros Heq. rewrite (bool_decide_false (index < currentIndex pm)) by lia.
    rewrite (bool_decide_true (index = currentIndex pm)) by assumption. rewrite Hlen.
    unfold getCurrentTrack.
    repeat case_bool_decide; cbn [currentIndex set_currentIndex tracks set_tracks] in *;
      rewrite ?Hlen in *; rewrite <- ?Heq in *; try lia; try reflexivity.
    + rewrite list_lookup_delete_lt by lia. f_equal. lia.
    + rewrite list_lookup_delete_ge by lia. f_equal. lia.
Qed.

Lemma lookup_reinserted {A} (d : list A) (j k : nat) (x : A) :
  (j <= length d)%nat ->
  (take j d ++ x :: drop j d) !! k =
    if decide (k < j)%nat then d !! k
    else if decide (k = j) then Some x else d !! (k - 1)%nat.
Proof.
  intros Hj. destruct (decide (k < j)%nat) as [Hlt|Hge].
  - rewrite lookup_app_l by (rewrite length_take; lia). apply lookup_take_lt. exact Hlt.
  - rewrite lookup_app_r by (rewrite length_take; lia). rewrite length_take.
    replace (j `min` length d)%nat with j by lia.
    destruct (decide (k = j)) as [->|Hne].
    + rewrite Nat.sub_diag. reflexivity.
    + replace (k - j)%nat with (S (k - j - 1)) by lia.
      change (drop j d !! (k - j - 1)%nat = d !! (k - 1)%nat).
      rewrite lookup_drop. f_equal. lia.
Qed.

Lemma delete_reinserted {A} (d : list A) (j : nat) (x : A) :
  (j <= length d)%nat -> delete j (take j d ++ x :: drop j d) = d.
Proof.
  intros Hj. apply list_eq. intros k. rewrite list_lookup_delete.
  destruct (decide (k < j)%nat); rewrite lookup_reinserted by exact Hj;
    repeat case_decide; try lia; try reflexivity.
  f_equal. lia.
Qed.

(** X17.  [moveTrack(fromIndex, toIndex)] with both indices in the list
    returns true; the list is a permutation of the old one, the moved
    track is at [toIndex], the other tracks keep their order, and
    [getCurrentTrack()] returns the same track as before: the current
    index follows the current track. *)
Theorem moveTrack_keeps_the_current_track (pm : PlaylistManager) (fromIndex toIndex : Z) :
  0 <= fromIndex < Z.of_nat (length (tracks pm)) ->
  0 <= toIndex < Z.of_nat (length (tracks pm)) ->
  let r := moveTrack fromIndex toIndex pm in
  r.1 = true /\
  tracks r.2 ≡ₚ tracks pm /\
  tracks r.2 !! Z.to_nat toIndex = tracks pm !! Z.to_nat fromIndex /\
  delete (Z.to_nat toIndex) (tracks r.2) = delete (Z.to_nat fromIndex) (tracks pm) /\
  getCurrentTrack r.2 = getCurrentTrack pm.
Proof.
  intros Hf Ht r. subst r. unfold moveTrack. rewrite bool_decide_false by lia.
  destruct (tracks pm !! Z.to_nat fromIndex) as [track|] eqn:Hx;
    [|apply lookup_ge_None in Hx; lia].
  set (i := Z.to_nat fromIndex) in *. set (j := Z.to_nat toIndex) in *.
  set (d := delete i (tracks pm)).
  assert (Hd : length d = (length (tracks pm) - 1)%nat) by (apply length_delete_lt; lia).
  assert (Hj : (j <= length d)%nat) by lia.
  set (n := take j d ++ track :: drop j d).
  assert (Hn : length n = length (tracks pm))
    by (subst n; rewrite length_app, length_take; cbn; rewrite length_drop; lia).
  assert (Hk : forall k, n !! k = if decide (k < j)%nat then d !! k
                                  else if decide (k = j) then Some track else d !! (k - 1)%nat)
    by (intros k; apply lookup_reinserted; exact Hj).
  assert (Hdk : forall k, d !! k = tracks pm !! (if decide (k < i)%nat then k else S k))
    by (intros k; apply list_lookup_delete).
  cbn [fst snd currentIndex set_tracks].
  split; [reflexivity|]. split; [|split; [|split]].
  - assert (Hp : n ≡ₚ tracks pm); [|repeat case_bool_decide; exact Hp].
    subst n. rewrite <- Permutation_middle, take_drop. subst d.
    symmetry. apply delete_Permutation. exact Hx.
  - assert (Hp : n !! j = Some track); [|repeat case_bool_decide; exact Hp].
    rewrite Hk. destruct (decide (j < j)%nat); [lia|]. destruct (decide (j = j)); congruence.
  - assert (Hp : delete j n = d); [|repeat case_bool_decide; exact Hp].
    apply delete_reinserted. exact Hj.
  - unfold getCurrentTrack.
    repeat case_bool_decide; cbn [currentIndex set_currentIndex tracks set_tracks] in *;
      rewrite ?Hn in *; try lia; try reflexivity;
      rewrite Hk, ?Hdk; repeat case_decide; try lia; try congruence;
      rewrite ?Hdk; repeat case_decide; try lia;
      try (rewrite <- Hx; unfold i); f_equal; lia.
Qed.

Lemma set_currentIndex_same (pm : PlaylistManager) (i : Z) :
  i = currentIndex pm -> set_currentIndex i pm = pm.
Proof. intros ->. destruct pm; reflexivity. Qed.

(** X18.  Without shuffle and with a track current: [next()] selects
    and returns the following track; at the end of the list it wraps to
    the first track under repeat 'all' and otherwise returns null and
    changes nothing.  [previous()] selects the preceding track; at the
    first track it wraps to the last one under repeat 'all' and
    otherwise stays on the first track.  Whenever [next()] returns a
    track, [previous()] right after it restores the state. *)
Theorem next_and_previous_in_order (pm : PlaylistManager) :
  shuffleMode pm = false ->
  0 <= currentIndex pm < Z.of_nat (length (tracks pm)) ->
  let cur := currentIndex pm in
  let len := Z.of_nat (length (tracks pm)) in
  let n := next Math_random pm in
  let p := previous Math_random pm in
  (cur + 1 < len ->
   currentIndex n.2 = cur + 1 /\ n.1 = tracks pm !! Z.to_nat (cur + 1) /\ is_Some n.1) /\
  (cur + 1 = len -> repeatMode pm = "all"%string ->
   currentIndex n.2 = 0 /\ n.1 = tracks pm !! 0%nat /\ is_Some n.1) /\
  (cur + 1 = len -> repeatMode pm <> "all"%string -> n = (None, pm)) /\
  (0 < cur ->
   currentIndex p.2 = cur - 1 /\ p.1 = tracks pm !! Z.to_nat (cur - 1) /\ is_Some p.1) /\
  (cur = 0 -> repeatMode pm = "all"%string ->
   currentIndex p.2 = len - 1 /\ p.1 = tracks pm !! Z.to_nat (len - 1) /\ is_Some p.1) /\
  (cur = 0 -> repeatMode pm <> "all"%string -> p = (getCurrentTrack pm, pm)) /\
  (is_Some n.1 -> previous Math_random n.2 = (getCurrentTrack pm, pm)).
Proof.
  intros Hs Hi cur len n p. subst n p. unfold next, previous.
  rewrite !bool_decide_false by (intros H; apply length_zero_iff_nil in H; rewrite H in Hi; cbn in Hi; lia).
  rewrite Hs. fold cur len.
  assert (Hlook : forall k, 0 <= k < len -> is_Some (tracks pm !! Z.to_nat k))
    by (intros k Hk; apply lookup_lt_is_Some_2; lia).
  assert (Hget : forall k, 0 <= k < len ->
            getCurrentTrack (set_currentIndex k pm) = tracks pm !! Z.to_nat k).
  { intros k Hk. unfold getCurrentTrack. cbn. rewrite bool_decide_true by lia. reflexivity. }
  split; [|split; [|split; [|split; [|split; [|split]]]]].
  - intros Hlt. rewrite bool_decide_false by lia. cbn [fst snd].
    rewrite Hget by lia. repeat split; try reflexivity; apply Hlook; lia.
  - intros Hend Hall. rewrite bool_decide_true by lia. rewrite Hall.
    rewrite String.eqb_refl. cbn [fst snd]. rewrite Hget by lia.
    repeat split; try reflexivity; apply (Hlook 0); lia.
  - intros Hend Hnot. rewrite bool_decide_true by lia.
    destruct (String.eqb_spec (repeatMode pm) "all") as [|_]; [contradiction | reflexivity].
  - intros Hpos. rewrite (bool_decide_false (cur - 1 < 0)) by lia. cbn [fst snd].
    rewrite Hget by lia. repeat split; try reflexivity; apply Hlook; lia.
  - intros Hzero Hall. rewrite (bool_decide_true (cur - 1 < 0)) by lia. rewrite Hall.
    rewrite String.eqb_refl. cbn [fst snd]. rewrite Hget by lia.
    repeat split; try reflexivity; apply Hlook; lia.
  - intros Hzero Hnot. rewrite (bool_decide_true (cur - 1 < 0)) by lia.
    destruct (String.eqb_spec (repeatMode pm) "all") as [|_]; [contradiction|].
    rewrite set_currentIndex_same by (fold cur; lia). reflexivity.
  - assert (Hback : forall k, 0 <= k < len -> (k - 1 < 0 -> repeatMode pm = "all"%string /\ cur = len - 1) ->
                     (0 <= k - 1 -> k - 1 = cur) ->
                     previous Math_random (set_currentIndex k pm) = (getCurrentTrack pm, pm)).
    { intros k Hk Hwrap Hstep. unfold previous. cbn [tracks set_currentIndex shuffleMode currentIndex repeatMode].
      rewrite bool_decide_false by (intros H; apply length_zero_iff_nil in H; rewrite H in Hi; cbn in Hi; lia).
      rewrite Hs. fold len.
      assert (E : set_currentIndex cur (set_currentIndex k pm) = pm) by (destruct pm; reflexivity).
      case_bool_decide as Hneg.
      - destruct (Hwrap Hneg) as [Hall Hc]. rewrite Hall, String.eqb_refl.
        replace (len - 1) with cur by lia. rewrite E. reflexivity.
      - rewrite (Hstep ltac:(lia)). rewrite E. reflexivity. }
    case_bool_decide as Hend.
    + destruct (String.eqb_spec (repeatMode pm) "all") as [Hall|_]; cbn [fst snd].
      * intros _. apply Hback; [lia | intros _; split; [exact Hall | lia] | lia].
      * intros [? ?]; discriminate.
    + cbn [fst snd]. intros _. apply Hback; lia.
Qed.

Lemma next_repeat_all (pm : PlaylistManager) :
  shuffleMode pm = false -> repeatMode pm = "all"%string ->
  0 <= currentIndex pm < Z.of_nat (length (tracks pm)) ->
  (next Math_random pm).2 =
    set_currentIndex ((currentIndex pm + 1) `mod` Z.of_nat (length (tracks pm))) pm.
Proof.
  intros Hs Hall Hi. unfold next.
  rewrite bool_decide_false by (intros H; rewrite H in Hi; cbn in Hi; lia).
  rewrite Hs, Hall, String.eqb_refl. case_bool_decide as Hend; cbn [snd].
  - replace (currentIndex pm + 1) with (Z.of_nat (length (tracks pm))) by lia.
    rewrite Z.mod_same by lia. reflexivity.
  - rewrite Z.mod_small by lia. reflexivity.
Qed.

(** X19.  With repeat 'all' and no shuffle, the indices selected by
    [k] calls of [next()] in a row are current + 1, current + 2, ...
    modulo the length of the list, and as many calls as the list has
    tracks bring the playlist back to the state it started from. *)
Theorem repeat_all_walks_the_whole_list (pm : PlaylistManager) (k : nat) :
  shuffleMode pm = false -> repeatMode pm = "all"%string ->
  0 <= currentIndex pm < Z.of_nat (length (tracks pm)) ->
  let len := Z.of_nat (length (tracks pm)) in
  tour Math_random k pm = (fun i => (currentIndex pm + Z.of_nat i) `mod` len) <$> seq 1 k /\
  (Nat.iter (length (tracks pm)) (fun pm => (next Math_random pm).2) pm) = pm.
Proof.
  intros Hs Hall Hi len.
  assert (Hstep : forall n (q : PlaylistManager),
            shuffleMode q = false -> repeatMode q = "all"%string -> tracks q = tracks pm ->
            0 <= currentIndex q < len ->
            tour Math_random n q = (fun i => (currentIndex q + Z.of_nat i) `mod` len) <$> seq 1 n).
  { induction n as [|n IH]; intros q Hqs Hqa Hqt Hqi; [reflexivity|].
    cbn [tour]. rewrite next_repeat_all by (rewrite ?Hqt; assumption). rewrite Hqt. fold len.
    cbn [currentIndex set_currentIndex seq]. rewrite fmap_cons. f_equal.
    rewrite IH; cbn [shuffleMode repeatMode tracks currentIndex set_currentIndex];
      try assumption; [|apply Z.mod_pos_bound; lia].
    rewrite <- (fmap_S_seq 1 n). rewrite <- list_fmap_compose. apply list_fmap_ext.
    intros _ i _. cbn [compose]. rewrite Zplus_mod_idemp_l. f_equal. lia. }
  split; [apply Hstep; auto|].
  assert (Hiter : forall n,
            Nat.iter n (fun pm => (next Math_random pm).2) pm
            = set_currentIndex ((currentIndex pm + Z.of_nat n) `mod` len) pm).
  { induction n as [|n IH].
    - cbn. rewrite Z.add_0_r, Z.mod_small by exact Hi. destruct pm; reflexivity.
    - rewrite Nat.iter_succ, IH. rewrite next_repeat_all; cbn; try assumption;
        [|apply Z.mod_pos_bound; lia].
      fold len. rewrite Zplus_mod_idemp_l.
      replace (currentIndex pm + Z.of_nat n + 1) with (currentIndex pm + Z.of_nat (S n)) by lia.
      reflexivity. }
  rewrite Hiter. fold len. rewrite <- (Z.mul_1_l len) at 1.
  rewrite Z.mod_add by lia. rewrite Z.mod_small by exact Hi. destruct pm; reflexivity.
Qed.


Lemma random_index_in_range (r : Q) (i : nat) :
  (0 <= r)%Q -> (r < 1)%Q ->
  (Z.to_nat (Qfloor (r * inject_Z (Z.of_nat i + 1))) <= i)%nat.
Proof.
  intros H0 H1.
  assert (Hi : (0 < inject_Z (Z.of_nat i + 1))%Q).
  { rewrite <- (Zlt_Qlt 0). lia. }
  assert (Hlt : (r * inject_Z (Z.of_nat i + 1) < inject_Z (Z.of_nat i + 1))%Q) by nra.
  pose proof (Qfloor_le (r * inject_Z (Z.of_nat i + 1))) as Hfl.
  assert (Hz : Qfloor (r * inject_Z (Z.of_nat i + 1)) < Z.of_nat i + 1).
  { rewrite Zlt_Qlt. lra. }
  lia.
Qed.

(** X20.  [updateShuffleOrder()], with [Math.random()] in [0, 1): each
    index the Fisher-Yates loop draws is inside the part of the array
    still to be shuffled, and the resulting order is a permutation of
    the indices of the tracks other than the current one: each of them
    once, the current one and no foreign index never.  The tracks and
    the current index are untouched, and one random number is drawn per
    index but the first. *)
Theorem shuffle_order_is_a_permutation (pm : PlaylistManager) :
  (forall k, (0 <= Math_random k)%Q /\ (Math_random k < 1)%Q) ->
  let pm' := updateShuffleOrder Math_random pm in
  (forall calls i,
     (Z.to_nat (Qfloor (Math_random calls * inject_Z (Z.of_nat i + 1))) <= i)%nat) /\
  shuffledIndices pm' ≡ₚ otherIndices pm /\
  NoDup (shuffledIndices pm') /\
  (forall i, i ∈ shuffledIndices pm' <->
             0 <= i < Z.of_nat (length (tracks pm)) /\ i <> currentIndex pm) /\
  tracks pm' = tracks pm /\ currentIndex pm' = currentIndex pm /\
  randomCalls pm' = (randomCalls pm + (length (otherIndices pm) - 1))%nat.
Proof.
  intros Hrand pm'.
  destruct (updateShuffleOrder_spec pm) as (Hperm & Ht & Hc & _).
  fold pm' in Hperm, Ht, Hc.
  split; [intros calls i; apply random_index_in_range; apply Hrand|].
  split; [exact Hperm|]. split; [rewrite Hperm; apply NoDup_otherIndices|].
  split; [intros i; rewrite Hperm; apply elem_of_otherIndices|].
  split; [exact Ht|]. split; [exact Hc|].
  subst pm'. unfold updateShuffleOrder. cbn. apply fisherYates_Permutation.
Qed.

Lemma next_shuffled (pm : PlaylistManager) (x : Z) (rest : list Z) :
  shuffleMode pm = true -> tracks pm <> [] -> shuffledIndices pm = x :: rest ->
  let pm' := (next Math_random pm).2 in
  currentIndex pm' = x /\ tracks pm' = tracks pm /\ shuffleMode pm' = true /\
  (rest <> [] -> shuffledIndices pm' = rest).
Proof.
  intros Hs Ht Hsh. unfold next.
  rewrite bool_decide_false by (intros H; apply length_zero_iff_nil in H; contradiction).
  rewrite Hs. unfold getNextShuffleIndex. rewrite Hsh.
  rewrite bool_decide_false by discriminate. rewrite Hsh. cbn [fst snd shuffledIndices set_shuffledIndices].
  destruct rest as [|y rest].
  - rewrite bool_decide_true by reflexivity.
    destruct (String.eqb _ "all"); cbn; repeat split; auto; contradiction.
  - rewrite bool_decide_false by discriminate. cbn. auto.
Qed.

Lemma tour_shuffled (order : list Z) :
  forall pm, shuffleMode pm = true -> tracks pm <> [] -> shuffledIndices pm = order ->
             tour Math_random (length order) pm = order.
Proof.
  induction order as [|x rest IH]; intros pm Hs Ht Hsh; [reflexivity|].
  cbn [length tour].
  destruct (next_shuffled pm x rest Hs Ht Hsh) as (Hc & Ht' & Hs' & Hrest).
  rewrite Hc. f_equal. destruct rest as [|y rest]; [reflexivity|].
  apply IH; [exact Hs' | rewrite Ht'; exact Ht | apply Hrest; discriminate].
Qed.

(** X21.  After [setShuffleMode(true)] on a playlist that is not empty,
    [next()] called once per track other than the current one selects
    each of those tracks exactly once, and never the track that was
    current when shuffle was switched on. *)
Theorem shuffle_plays_every_other_track_once (pm : PlaylistManager) :
  (forall k, (0 <= Math_random k)%Q /\ (Math_random k < 1)%Q) ->
  tracks pm <> [] ->
  let pm' := setShuffleMode Math_random true pm in
  let round := tour Math_random (length (otherIndices pm)) pm' in
  round ≡ₚ otherIndices pm /\ NoDup round /\
  (forall i, i ∈ round <-> 0 <= i < Z.of_nat (length (tracks pm)) /\ i <> currentIndex pm).
Proof.
  intros Hrand Ht pm' round.
  destruct (updateShuffleOrder_spec (set_shuffleMode true pm))
    as (Hperm & Ht' & Hc' & Hs' & _).
  change (updateShuffleOrder Math_random (set_shuffleMode true pm)) with pm' in *.
  change (otherIndices (set_shuffleMode true pm)) with (otherIndices pm) in Hperm.
  assert (Hround : round = shuffledIndices pm').
  { subst round. rewrite <- (Permutation_length Hperm).
    apply tour_shuffled; [exact Hs' | rewrite Ht'; exact Ht | reflexivity]. }
  rewrite Hround. split; [exact Hperm|].
  split; [rewrite Hperm; apply NoDup_otherIndices|].
  intros i. rewrite Hperm. apply elem_of_otherIndices.
Qed.

(** X23.  [addTrack(filePath, metadata)] appends the track it returns
    at the end of the list: it is the track at the old count, the count
    grows by one and the total duration by the track's duration.  The
    name falls back to the file name of the path and the duration to 0
    when the metadata lacks them, and the current index and the current
    track are as before. *)
Theorem addTrack_appends_and_keeps_the_current_track (pm : PlaylistManager) (now : Q)
    (filePath : string) (metadata : Metadata) :
  currentIndex pm < Z.of_nat (length (tracks pm)) ->
  let r := addTrack Math_random now filePath metadata pm in
  tracks r.2 = tracks pm ++ [r.1] /\
  path r.1 = filePath /\
  (meta_name metadata = None -> name r.1 = getFileNameFromPath filePath) /\
  (meta_duration metadata = None -> track_duration r.1 = 0%Q) /\
  currentIndex r.2 = currentIndex pm /\
  getCurrentTrack r.2 = getCurrentTrack pm /\
  getTrackAt (getTrackCount pm) r.2 = Some r.1 /\
  getTrackCount r.2 = getTrackCount pm + 1 /\
  (getTotalDuration r.2 == getTotalDuration pm + track_duration r.1)%Q.
Proof.
  intros Hi r. subst r. unfold addTrack. cbn [fst snd].
  rewrite getCurrentTrack_refresh.
  set (track := {| track_id := _ |}).
  set (pm1 := set_tracks _ _).
  assert (Hsame : forall q, tracks q = tracks pm1 -> currentIndex q = currentIndex pm1 ->
            tracks q = tracks pm ++ [track] /\ currentIndex q = currentIndex pm).
  { intros q -> ->. split; reflexivity. }
  assert (Href : tracks (if shuffleMode pm1 then updateShuffleOrder Math_random pm1 else pm1)
                 = tracks pm1 /\
                 currentIndex (if shuffleMode pm1 then updateShuffleOrder Math_random pm1 else pm1)
                 = currentIndex pm1)
    by (destruct (shuffleMode pm1); split; reflexivity).
  destruct Href as [Ht Hc]. destruct (Hsame _ Ht Hc) as [Ht' Hc'].
  split; [exact Ht'|]. split; [reflexivity|].
  split; [intros Hn; subst track; cbn; rewrite Hn; reflexivity|].
  split; [intros Hn; subst track; cbn; rewrite Hn; reflexivity|].
  split; [exact Hc'|]. split.
  { unfold getCurrentTrack. subst pm1. cbn [currentIndex tracks set_tracks set_randomCalls].
    rewrite length_app. cbn [length].
    repeat case_bool_decide; try lia; try reflexivity.
    apply lookup_app_l. lia. }
  split.
  { unfold getTrackAt, getTrackCount. rewrite Ht', length_app. cbn [length].
    rewrite bool_decide_true by lia. rewrite Nat2Z.id. apply list_lookup_middle. reflexivity. }
  split; [unfold getTrackCount; rewrite Ht', length_app; cbn [length]; lia|].
  unfold getTotalDuration. rewrite Ht', fold_left_app. cbn [fold_left].
  apply Qplus_comp; [reflexivity|].
  unfold orQ. destruct (Qeq_bool (track_duration track) 0) eqn:E; [|reflexivity].
  apply Qeq_bool_iff in E. rewrite E. reflexivity.
Qed.

End PlaylistFacts.

(** ** File names *)

Section FileNameFacts.
Import Playlist Notions.
#[local] Open Scope string_scope.

Lemma append_cons (c : ascii) (a b : string) : String c a ++ b = String c (a ++ b).
Proof. reflexivity. Qed.

Lemma append_empty (b : string) : "" ++ b = b.
Proof. reflexivity. Qed.

Lemma replaceBackslashes_app (a b : string) :
  replaceBackslashes (a ++ b) = replaceBackslashes a ++ replaceBackslashes b.
Proof.
  induction a as [|c a IH]; [reflexivity|].
  rewrite append_cons. cbn [replaceBackslashes]. rewrite IH, append_cons. reflexivity.
Qed.

Lemma replaceBackslashes_fileName (s : string) :
  isFileName s = true -> replaceBackslashes s = s.
Proof.
  unfold isFileName. induction s as [|c s IH]; cbn; [reflexivity|].
  intros H. apply andb_prop in H as [Hc Hs]. rewrite IH by exact Hs.
  unfold isSeparator in Hc. apply negb_true_iff, orb_false_elim in Hc as [_ Hc].
  rewrite Hc. reflexivity.
Qed.

Lemma split_nonempty (sep : ascii) (s : string) : split sep s <> [].
Proof.
  induction s as [|c s IH]; cbn; [discriminate|].
  destruct (Ascii.eqb c sep); [discriminate|]. destruct (split sep s); discriminate.
Qed.

Lemma split_two_pieces (sep : ascii) (a b : string) :
  (2 <= length (split sep (a ++ String sep b)))%nat.
Proof.
  induction a as [|c a IH]; rewrite ?append_cons, ?append_empty; cbn [split].
  - rewrite Ascii.eqb_refl. pose proof (split_nonempty sep b).
    destruct (split sep b); [contradiction | cbn; lia].
  - destruct (Ascii.eqb c sep); [cbn; lia|].
    destruct (split sep (a ++ String sep b)); cbn in *; lia.
Qed.

Lemma last_split_app (sep : ascii) (a b : string) :
  List.last (split sep (a ++ String sep b)) "" = List.last (split sep b) "".
Proof.
  induction a as [|c a IH]; rewrite ?append_cons, ?append_empty; cbn [split].
  - rewrite Ascii.eqb_refl. pose proof (split_nonempty sep b).
    destruct (split sep b); [contradiction | reflexivity].
  - pose proof (split_two_pieces sep a b) as Hlen. rewrite <- IH.
    destruct (split sep (a ++ String sep b)) as [|p [|q ps]]; cbn in Hlen; try lia.
    destruct (Ascii.eqb c sep); reflexivity.
Qed.

Lemma split_fileName (s : string) :
  allChars (fun c => negb (Ascii.eqb c slash)) s = true -> split slash s = [s].
Proof.
  induction s as [|c s IH]; cbn; [reflexivity|].
  intros H. apply andb_prop in H as [Hc Hs]. apply negb_true_iff in Hc.
  rewrite Hc, IH by exact Hs. reflexivity.
Qed.

Lemma allChars_impl (p q : ascii -> bool) (s : string) :
  (forall c, p c = true -> q c = true) -> allChars p s = true -> allChars q s = true.
Proof.
  intros Hpq. induction s as [|c s IH]; cbn; [reflexivity|].
  intros H. apply andb_prop in H as [Hc Hs]. rewrite (Hpq c Hc), IH by exact Hs. reflexivity.
Qed.

Lemma allChars_app (p : ascii -> bool) (a b : string) :
  allChars p (a ++ b) = allChars p a && allChars p b.
Proof.
  induction a as [|c a IH]; [reflexivity|].
  rewrite append_cons. cbn [allChars]. rewrite IH, andb_assoc. reflexivity.
Qed.

Lemma isExtensionBody_extension (ext : string) :
  isExtension ext = true -> isExtensionBody ext = true.
Proof.
  unfold isExtension. intros H. apply andb_prop in H as [Hne H].
  induction ext as [|c ext IH]; [discriminate|].
  cbn in H. apply andb_prop in H as [Hc Hrest].
  apply andb_prop in Hc as [Hsep Hdot]. unfold isSeparator in Hsep.
  apply negb_true_iff, orb_false_elim in Hsep as [Hslash _].
  cbn [isExtensionBody]. rewrite Hslash, Hdot. cbn.
  destruct ext as [|c' ext]; [reflexivity|]. apply IH; [reflexivity | exact Hrest].
Qed.

Lemma isExtensionBody_no_dot (s : string) :
  isExtensionBody s = true -> allChars (fun c => negb (Ascii.eqb c dot)) s = true.
Proof.
  induction s as [|c s IH]; [reflexivity|]. cbn [isExtensionBody allChars].
  destruct s as [|c' s].
  - intros H. apply andb_prop in H as [_ ->]. reflexivity.
  - intros H. apply andb_prop in H as [H Hs]. apply andb_prop in H as [_ ->].
    rewrite IH by exact Hs. reflexivity.
Qed.

Lemma removeExtension_app (base ext : string) :
  isExtensionBody ext = true -> removeExtension (base ++ String dot ext) = base.
Proof.
  intros Hext. induction base as [|c base IH]; rewrite ?append_cons, ?append_empty;
    cbn [removeExtension].
  - rewrite Ascii.eqb_refl, Hext. reflexivity.
  - rewrite IH.
    destruct (Ascii.eqb c dot && isExtensionBody (base ++ String dot ext)) eqn:E; [|reflexivity].
    apply andb_prop in E as [_ E]. apply isExtensionBody_no_dot in E.
    rewrite allChars_app in E. apply andb_prop in E as [_ E]. cbn in E. discriminate.
Qed.

Lemma removeExtension_no_dot (s : string) :
  allChars (fun c => negb (Ascii.eqb c dot)) s = true -> removeExtension s = s.
Proof.
  induction s as [|c s IH]; cbn; [reflexivity|].
  intros H. apply andb_prop in H as [Hc Hs]. apply negb_true_iff in Hc.
  rewrite Hc, IH by exact Hs. reflexivity.
Qed.

(** X22.  [getFileNameFromPath]: for a path that ends, after a slash or
    a backslash, in [base.ext], where [base] has no separator and [ext]
    is not empty and has neither a separator nor a dot, the name is
    [base], whatever the directory part is; the same for [base.ext]
    alone; and a last component without any dot is returned whole. *)
Theorem file_name_is_the_last_component (dir base ext : string) (sep : ascii) :
  isSeparator sep = true -> isFileName base = true -> isExtension ext = true ->
  getFileNameFromPath (dir ++ String sep (base ++ String dot ext)) = base /\
  getFileNameFromPath (base ++ String dot ext) = base /\
  (allChars (fun c => negb (Ascii.eqb c dot)) base = true ->
   getFileNameFromPath (dir ++ String sep base) = base).
Proof.
  intros Hsep Hbase Hext.
  assert (Hext' : isFileName ext = true).
  { unfold isExtension in Hext. apply andb_prop in Hext as [_ Hext].
    revert Hext. apply allChars_impl. intros c H. apply andb_prop in H. tauto. }
  assert (Hfile : isFileName (base ++ String dot ext) = true).
  { unfold isFileName in *. rewrite allChars_app. cbn. rewrite Hbase, Hext'. reflexivity. }
  assert (Hsl : forall s, isFileName s = true ->
                          allChars (fun c => negb (Ascii.eqb c slash)) s = true).
  { intros s. apply allChars_impl. intros c H. unfold isSeparator in H.
    apply negb_true_iff, orb_false_elim in H as [-> _]. reflexivity. }
  assert (Hrep : replaceBackslashes (String sep "") = String slash "").
  { unfold isSeparator in Hsep. cbn. destruct (Ascii.eqb sep backslash) eqn:E; [reflexivity|].
    rewrite orb_false_r in Hsep. apply Ascii.eqb_eq in Hsep. subst. reflexivity. }
  assert (Hlast : forall name, isFileName name = true ->
            List.last (split slash (replaceBackslashes (dir ++ String sep name))) "" = name).
  { intros name Hname. change (String sep name) with (String sep "" ++ name).
    rewrite !replaceBackslashes_app, Hrep, (replaceBackslashes_fileName name Hname).
    rewrite append_cons, append_empty. rewrite last_split_app, split_fileName by (apply Hsl; exact Hname).
    reflexivity. }
  unfold getFileNameFromPath. split; [|split].
  - rewrite Hlast by exact Hfile. apply removeExtension_app, isExtensionBody_extension, Hext.
  - rewrite replaceBackslashes_fileName, split_fileName by auto. cbn [List.last].
    apply removeExtension_app, isExtensionBody_extension, Hext.
  - intros Hnodot. rewrite Hlast by exact Hbase. apply removeExtension_no_dot, Hnodot.
Qed.

End FileNameFacts.

Lemma demoPlaylist_consistent : Notions.consistent Notions.demoPlaylist.
Proof.
  split; [unfold Notions.indexInRange; simpl; lia|].
  split; [reflexivity | constructor].
Defined.

Lemma demoRandom_range (k : nat) :
  (0 <= Notions.demoRandom k)%Q /\ (Notions.demoRandom k < 1)%Q.
Proof. split; [unfold Qle | unfold Qlt]; simpl; lia. Defined.

Lemma playlist_stays_consistent_witness :
  Notions.consistent Notions.demoPlaylist /\
  Notions.consistent (Playlist.removeTrack Notions.demoRandom 1 Notions.demoPlaylist).2 /\
  Notions.consistent (Playlist.next Notions.demoRandom Notions.demoPlaylist).2.
Proof.
  split; [exact demoPlaylist_consistent|].
  destruct (playlist_stays_consistent Notions.demoRandom Notions.demoPlaylist
              demoPlaylist_consistent) as (_ & Hremove & _ & _ & _ & Hnext & _).
  split; [apply Hremove | exact Hnext].
Defined.

Lemma removeTrack_keeps_the_current_track_witness :
  0 <= 1 < Z.of_nat (length (Playlist.tracks Notions.demoPlaylist)) /\
  (Playlist.removeTrack Notions.demoRandom 1 Notions.demoPlaylist).1 = true /\
  Playlist.getCurrentTrack (Playlist.removeTrack Notions.demoRandom 1 Notions.demoPlaylist).2
  = Some (Notions.demoSong "c").
Proof.
  assert (Hin : 0 <= 1 < Z.of_nat (length (Playlist.tracks Notions.demoPlaylist)))
    by (simpl; lia).
  split; [exact Hin|].
  destruct (removeTrack_keeps_the_current_track Notions.demoRandom Notions.demoPlaylist 1 Hin)
    as (Hr & _ & _ & Hcur).
  split; [exact Hr|]. rewrite (Hcur eq_refl). reflexivity.
Defined.

Lemma moveTrack_keeps_the_current_track_witness :
  0 <= 0 < Z.of_nat (length (Playlist.tracks Notions.demoPlaylist)) /\
  0 <= 2 < Z.of_nat (length (Playlist.tracks Notions.demoPlaylist)) /\
  Playlist.tracks (Playlist.moveTrack 0 2 Notions.demoPlaylist).2
  = [Notions.demoSong "b"; Notions.demoSong "c"; Notions.demoSong "a"] /\
  Playlist.getCurrentTrack (Playlist.moveTrack 0 2 Notions.demoPlaylist).2
  = Some (Notions.demoSong "b").
Proof.
  assert (Hf : 0 <= 0 < Z.of_nat (length (Playlist.tracks Notions.demoPlaylist)))
    by (simpl; lia).
  assert (Ht : 0 <= 2 < Z.of_nat (length (Playlist.tracks Notions.demoPlaylist)))
    by (simpl; lia).
  split; [exact Hf|]. split; [exact Ht|]. split; [reflexivity|].
  destruct (moveTrack_keeps_the_current_track Notions.demoPlaylist 0 2 Hf Ht)
    as (_ & _ & _ & _ & Hcur).
  rewrite Hcur. reflexivity.
Defined.

Lemma next_and_previous_in_order_witness :
  Playlist.shuffleMode Notions.demoPlaylist = false /\
  0 <= Playlist.currentIndex Notions.demoPlaylist
    < Z.of_nat (length (Playlist.tracks Notions.demoPlaylist)) /\
  Playlist.currentIndex (Playlist.next Notions.demoRandom Notions.demoPlaylist).2 = 2 /\
  Playlist.previous Notions.demoRandom
    (Playlist.next Notions.demoRandom Notions.demoPlaylist).2
  = (Some (Notions.demoSong "b"), Notions.demoPlaylist).
Proof.
  assert (Hi : 0 <= Playlist.currentIndex Notions.demoPlaylist
               < Z.of_nat (length (Playlist.tracks Notions.demoPlaylist))) by (simpl; lia).
  split; [reflexivity|]. split; [exact Hi|].
  destruct (next_and_previous_in_order Notions.demoRandom Notions.demoPlaylist eq_refl Hi)
    as (Hnext & _ & _ & _ & _ & _ & Hback).
  split.
  - apply Hnext. simpl. lia.
  - apply Hback. eexists. reflexivity.
Defined.

Lemma repeat_all_walks_the_whole_list_witness :
  Playlist.shuffleMode Notions.demoPlaylist = false /\
  Playlist.repeatMode Notions.demoPlaylist = "all"%string /\
  0 <= Playlist.currentIndex Notions.demoPlaylist
    < Z.of_nat (length (Playlist.tracks Notions.demoPlaylist)) /\
  Notions.tour Notions.demoRandom 4 Notions.demoPlaylist = [2; 0; 1; 2].
Proof.
  assert (Hi : 0 <= Playlist.currentIndex Notions.demoPlaylist
               < Z.of_nat (length (Playlist.tracks Notions.demoPlaylist))) by (simpl; lia).
  split; [reflexivity|]. split; [reflexivity|]. split; [exact Hi|].
  rewrite (proj1 (repeat_all_walks_the_whole_list Notions.demoRandom Notions.demoPlaylist 4
                    eq_refl eq_refl Hi)).
  reflexivity.
Defined.

Lemma shuffle_order_is_a_permutation_witness :
  (forall k, (0 <= Notions.demoRandom k)%Q /\ (Notions.demoRandom k < 1)%Q) /\
  NoDup (Playlist.shuffledIndices
           (Playlist.updateShuffleOrder Notions.demoRandom Notions.demoPlaylist)) /\
  Playlist.shuffledIndices (Playlist.updateShuffleOrder Notions.demoRandom Notions.demoPlaylist)
  = [0; 2].
Proof.
  split; [exact demoRandom_range|].
  destruct (shuffle_order_is_a_permutation Notions.demoRandom Notions.demoPlaylist
              demoRandom_range) as (_ & _ & Hnodup & _).
  split; [exact Hnodup | reflexivity].
Defined.

Lemma shuffle_plays_every_other_track_once_witness :
  (forall k, (0 <= Notions.demoRandom k)%Q /\ (Notions.demoRandom k < 1)%Q) /\
  Playlist.tracks Notions.demoPlaylist <> [] /\
  NoDup (Notions.tour Notions.demoRandom 2
           (Playlist.setShuffleMode Notions.demoRandom true Notions.demoPlaylist)).
Proof.
  assert (Ht : Playlist.tracks Notions.demoPlaylist <> []) by discriminate.
  split; [exact demoRandom_range|]. split; [exact Ht|].
  exact (proj1 (proj2 (shuffle_plays_every_other_track_once Notions.demoRandom
                         Notions.demoPlaylist demoRandom_range Ht))).
Defined.

Lemma addTrack_appends_and_keeps_the_current_track_witness :
  Playlist.currentIndex Notions.demoPlaylist
    < Z.of_nat (length (Playlist.tracks Notions.demoPlaylist)) /\
  Playlist.getCurrentTrack
    (Playlist.addTrack Notions.demoRandom 1000 "/music/d.mp3"
       {| Playlist.meta_name := None; Playlist.meta_artist := None;
          Playlist.meta_duration := None; Playlist.meta_size := None |}
       Notions.demoPlaylist).2
  = Some (Notions.demoSong "b").
Proof.
  assert (Hi : Playlist.currentIndex Notions.demoPlaylist
               < Z.of_nat (length (Playlist.tracks Notions.demoPlaylist))) by (simpl; lia).
  split; [exact Hi|].
  destruct (addTrack_appends_and_keeps_the_current_track Notions.demoRandom
              Notions.demoPlaylist 1000 "/music/d.mp3"
              {| Playlist.meta_name := None; Playlist.meta_artist := None;
                 Playlist.meta_duration := None; Playlist.meta_size := None |} Hi)
    as (_ & _ & _ & _ & _ & Hcur & _).
  rewrite Hcur. reflexivity.
Defined.

Lemma file_name_is_the_last_component_witness :
  Notions.isSeparator "/" = true /\ Notions.isFileName "song" = true /\
  Notions.isExtension "mp3" = true /\
  Playlist.getFileNameFromPath "/home/me/song.mp3" = "song"%string.
Proof.
  split; [reflexivity|]. split; [reflexivity|]. split; [reflexivity|].
  exact (proj1 (file_name_is_the_last_component "/home/me" "song" "mp3" "/"
                  eq_refl eq_refl eq_refl)).
Defined.
